(** * StephenKingBooks: ingestion and reconciliation core

    A shallow embedding of the title normaliser and similarity matcher of
    [main.py], of the cross-source merger of [src/services/merger.py] and of
    the row parser of [src/services/wikipedia.py], with the properties their
    specification states about them.

    - Python [str] values are sequences of code points.  They are modelled
      as lists of Latin-1 code points: an [ascii] is read as the code point
      U+0000..U+00FF with the same number.  On that range [str.lower],
      [str.strip] and the [re] classes [\s], [\w], [\d] act code point by
      code point, and the tables below are the ones of CPython's Unicode
      database.
    - A pattern of [re] is the composition of the matchers of its parts, run
      in the order the backtracking engine tries them.
    - The records the merger receives are dicts passed by reference: they
      live in a store, the sources are lists of references, and an update
      of a record is an update of the store.
    - A Python exception is the result [None].
    - A Python [float] is an IEEE binary64 number, a primitive float. *)

From Stdlib Require Import Ascii String List Bool Arith Lia ZArith Floats.
Import ListNotations.

(* ================================================================== *)
(** ** Code points and the character classes of [str] and [re]        *)
(* ================================================================== *)

Definition pystr := list ascii.

(** A literal of the source, as a list of code points. *)
Definition str (s : string) : pystr := list_ascii_of_string s.

Definition code (c : ascii) : nat := nat_of_ascii c.

Definition in_range (lo hi : nat) (c : ascii) : bool :=
  (lo <=? code c) && (code c <=? hi).

(** [str.isspace], also what [\s] and [str.strip()] use: TAB..CR, FS..US,
    SPACE, NEL (U+0085) and NBSP (U+00A0). *)
Definition is_space (c : ascii) : bool :=
  in_range 9 13 c || in_range 28 32 c || (code c =? 133) || (code c =? 160).

(** [\d]: the decimal digits. *)
Definition is_digit (c : ascii) : bool := in_range 48 57 c.

(** [str.isalnum]: letters (with the ordinal indicators and the micro sign),
    decimal digits, superscript digits and the vulgar fractions. *)
Definition is_alnum (c : ascii) : bool :=
  in_range 48 57 c || in_range 65 90 c || in_range 97 122 c
  || (code c =? 170) || in_range 178 179 c || (code c =? 181)
  || in_range 185 186 c || in_range 188 190 c
  || in_range 192 214 c || in_range 216 246 c || in_range 248 255 c.

(** [\w]: alphanumeric or underscore. *)
Definition is_word (c : ascii) : bool := is_alnum c || (code c =? 95).

(** [.] without DOTALL: anything but a line feed. *)
Definition is_dot (c : ascii) : bool := negb (code c =? 10).

(** One code point of [str.lower()]. *)
Definition lower_char (c : ascii) : ascii :=
  if in_range 65 90 c || (in_range 192 222 c && negb (code c =? 215))
  then ascii_of_nat (code c + 32) else c.

Definition lower (s : pystr) : pystr := map lower_char s.

(** [str.strip()] with no argument. *)
Fixpoint lstrip (s : pystr) : pystr :=
  match s with
  | c :: s' => if is_space c then lstrip s' else s
  | [] => []
  end.

Fixpoint rstrip (s : pystr) : pystr :=
  match s with
  | [] => []
  | c :: s' =>
      match rstrip s' with
      | [] => if is_space c then [] else [c]
      | r => c :: r
      end
  end.

Definition strip (s : pystr) : pystr := rstrip (lstrip s).

Definition pystr_eqb (a b : pystr) : bool :=
  if list_eq_dec ascii_dec a b then true else false.

(** [x in xs] for a collection of strings. *)
Definition mem (x : pystr) (xs : list pystr) : bool := existsb (pystr_eqb x) xs.

(** [s.startswith(p)] and [needle in hay] for two strings. *)
Fixpoint prefixb (p s : pystr) : bool :=
  match p, s with
  | [], _ => true
  | a :: p', c :: s' => Ascii.eqb a c && prefixb p' s'
  | _ :: _, [] => false
  end.

Fixpoint contains (needle hay : pystr) : bool :=
  prefixb needle hay ||
  match hay with
  | [] => false
  | _ :: hay' => contains needle hay'
  end.

(* ================================================================== *)
(** ** Regular expressions as backtracking matchers                   *)
(* ================================================================== *)

(** A pattern is run the way [re] runs it: a matcher takes the text at the
    current position and returns, in the order the backtracking engine tries
    them, every text that can remain after a match.  The head of the list is
    the match [re] reports. *)
Definition re := pystr -> list pystr.

(** A character class. *)
Definition cls (p : ascii -> bool) : re :=
  fun s => match s with
           | c :: s' => if p c then [s'] else []
           | [] => []
           end.

(** A literal; [eqc pattern_char text_char] is the comparison in force:
    [Ascii.eqb], or equality up to case under [re.IGNORECASE]. *)
Fixpoint lit_by (eqc : ascii -> ascii -> bool) (l : pystr) : re :=
  fun s => match l with
           | [] => [s]
           | a :: l' => match s with
                        | c :: s' => if eqc a c then lit_by eqc l' s' else []
                        | [] => []
                        end
           end.

Definition lit (l : string) : re := lit_by Ascii.eqb (str l).

(** Under [re.IGNORECASE] a lowercase pattern letter matches the code points
    that lowercase to it. *)
Definition lit_ci (l : string) : re :=
  lit_by (fun a c => Ascii.eqb a (lower_char c)) (str l).

(** [r1 r2] *)
Definition cat (r1 r2 : re) : re := fun s => flat_map r2 (r1 s).

(** [r1|r2] *)
Definition alt (r1 r2 : re) : re := fun s => r1 s ++ r2 s.

(** [(r)?], greedy *)
Definition opt (r : re) : re := fun s => r s ++ [s].

(** [[class]*], greedy: the longest run first, then shorter ones. *)
Fixpoint star (p : ascii -> bool) : re :=
  fun s => match s with
           | c :: s' => if p c then star p s' ++ [s] else [s]
           | [] => [[]]
           end.

(** [[class]+] *)
Definition plus (p : ascii -> bool) : re := cat (cls p) (star p).

(** [$] without MULTILINE: the end of the text, or just before a final
    line feed. *)
Definition dollar : re :=
  fun s => match s with
           | [] => [[]]
           | [c] => if code c =? 10 then [s] else []
           | _ => []
           end.

Infix ";;" := cat (at level 61, right associativity).

(** [re.sub(pattern, repl, s)] for a pattern that starts with [^]: only a
    match at position 0 can be replaced. *)
Definition re_sub_start (r : re) (repl s : pystr) : pystr :=
  match r s with
  | rest :: _ => repl ++ rest
  | [] => s
  end.

(** [re.sub(pattern, repl, s)]: the non-overlapping matches, leftmost first,
    are replaced.  Every pattern of the program consumes at least one
    character, so the rule for empty matches is not needed: a match is only
    taken when it shortens the text. *)
Fixpoint sub_from (fuel : nat) (r : re) (repl s : pystr) : pystr :=
  match fuel, s with
  | _, [] => []
  | O, _ => s
  | S f, c :: s' =>
      match r s with
      | rest :: _ =>
          if length rest <? length s
          then repl ++ sub_from f r repl rest
          else c :: sub_from f r repl s'
      | [] => c :: sub_from f r repl s'
      end
  end.

Definition re_sub (r : re) (repl s : pystr) : pystr :=
  sub_from (length s) r repl s.

(** [re.search(pattern, s)]: the text of the leftmost match. *)
Fixpoint re_search (r : re) (s : pystr) : option pystr :=
  match r s with
  | rest :: _ => Some (firstn (length s - length rest) s)
  | [] => match s with
          | _ :: s' => re_search r s'
          | [] => None
          end
  end.

(** [re.match(pattern, s)] as a truth value. *)
Definition re_match (r : re) (s : pystr) : bool :=
  match r s with _ :: _ => true | [] => false end.

(** A character class given by the characters it lists. *)
Definition one_of (l : string) (c : ascii) : bool := existsb (Ascii.eqb c) (str l).

(** An alternation [(r1|r2|...)], first alternative first. *)
Definition alts (rs : list re) : re := fold_right alt (fun _ => []) rs.

(* ================================================================== *)
(** ** [main.py]: the title normaliser and the similarity matcher     *)
(* ================================================================== *)

(** [[ivxlc0-9]] *)
Definition is_numeral (c : ascii) : bool := one_of "ivxlc" c || in_range 48 57 c.

(** [^(the\s+)?dark\s+tower\s*[ivxlc0-9]*\s*:\s*] *)
Definition re_dark_tower : re :=
  opt (lit "the" ;; plus is_space) ;; lit "dark" ;; plus is_space ;;
  lit "tower" ;; star is_space ;; star is_numeral ;; star is_space ;;
  lit ":" ;; star is_space.

(** [^la\s+tour\s+sombre\s*[ivxlc0-9]*\s*:\s*] *)
Definition re_tour_sombre : re :=
  lit "la" ;; plus is_space ;; lit "tour" ;; plus is_space ;;
  lit "sombre" ;; star is_space ;; star is_numeral ;; star is_space ;;
  lit ":" ;; star is_space.

(** [^gwendy[''s]*\s*] *)
Definition re_gwendy : re :=
  lit "gwendy" ;; star (one_of "''s") ;; star is_space.

(** [^(the|a|an|le|la|les|l'|un|une)\s+] *)
Definition re_article : re :=
  alts [lit "the"; lit "a"; lit "an"; lit "le"; lit "la"; lit "les";
        lit "l'"; lit "un"; lit "une"] ;; plus is_space.

(** [[^\w\s]] *)
Definition is_punct (c : ascii) : bool := negb (is_word c || is_space c).

Definition normalize_title (title : pystr) : pystr :=
  let title := strip (lower title) in
  let title := re_sub_start re_dark_tower [] title in
  let title := re_sub_start re_tour_sombre [] title in
  let title := re_sub_start re_gwendy [] title in
  let title := re_sub_start re_article [] title in
  let title := re_sub (cls is_punct) [] title in
  let title := re_sub (plus is_space) (str " ") title in
  strip title.

(** [enumerate(s)] *)
Definition enumerate {A : Type} (l : list A) : list (nat * A) :=
  combine (List.seq 0 (length l)) l.

Definition min3 (a b c : nat) : nat := Nat.min a (Nat.min b c).

(** The body of the inner loop: one cell appended to [curr_row]. *)
Definition lev_cell (c1 : ascii) (prev_row curr_row : list nat) (jc : nat * ascii)
  : list nat :=
  let (j, c2) := jc in
  let insertions := nth (j + 1) prev_row 0 + 1 in
  let deletions := nth j curr_row 0 + 1 in
  let substitutions := nth j prev_row 0 + (if Ascii.eqb c1 c2 then 0 else 1) in
  curr_row ++ [min3 insertions deletions substitutions].

(** The body of the outer loop: the next [prev_row]. *)
Definition lev_row (s2 : pystr) (prev_row : list nat) (ic : nat * ascii) : list nat :=
  let (i, c1) := ic in
  fold_left (lev_cell c1 prev_row) (enumerate s2) [i + 1].

Definition levenshtein_distance (s1 s2 : pystr) : nat :=
  let (s1, s2) := if length s1 <? length s2 then (s2, s1) else (s1, s2) in
  match s2 with
  | [] => length s1
  | _ =>
      let prev_row := List.seq 0 (length s2 + 1) in
      let prev_row := fold_left (lev_row s2) (enumerate s1) prev_row in
      last prev_row 0
  end.

(** Python floats are IEEE binary64 numbers: the primitive floats.  An [int]
    becomes the nearest double; every length that fits in memory is below
    2^53 and is represented exactly, so [d / m] on two such [int]s is the
    IEEE quotient of their doubles. *)
Definition float_of_nat (n : nat) : float :=
  SF2Prim (SpecFloat.binary_normalize prec emax (Z.of_nat n) 0 false).

(** The double that the literal [0.85] denotes. *)
Definition default_threshold : float := 0x1.b333333333333p-1%float.

Definition is_empty (s : pystr) : bool :=
  match s with [] => true | _ => false end.

Definition is_similar_title (title1 title2 : pystr) (threshold : float) : bool :=
  if is_empty title1 || is_empty title2 then false
  else if pystr_eqb title1 title2 then true
  else if (length title1 <? 5) || (length title2 <? 5) then false
  else
    let distance := levenshtein_distance title1 title2 in
    let max_len := Nat.max (length title1) (length title2) in
    let ratio := (1 - float_of_nat distance / float_of_nat max_len)%float in
    PrimFloat.leb threshold ratio.

(* ================================================================== *)
(** ** Python values, dicts and the object store                      *)
(* ================================================================== *)

(** The values a book record holds. *)
Inductive value : Type :=
| VNone
| VBool (b : bool)
| VInt (z : Z)
| VStr (s : pystr).

(** Truth value of an object, as [not v] and [a and b] test it. *)
Definition truthy (v : value) : bool :=
  match v with
  | VNone => false
  | VBool b => b
  | VInt z => negb (z =? 0)%Z
  | VStr s => negb (is_empty s)
  end.

(** [len(v)]: only a [str] has a length here, anything else is a
    [TypeError]. *)
Definition py_len (v : value) : option nat :=
  match v with
  | VStr s => Some (length s)
  | _ => None
  end.

(** A [dict] keeps its items in insertion order, one item per key. *)
Definition dict := list (pystr * value).

Fixpoint dict_get (d : dict) (k : pystr) : option value :=
  match d with
  | [] => None
  | (k', v) :: d' => if pystr_eqb k k' then Some v else dict_get d' k
  end.

(** [d.get(k, default)] *)
Definition dict_get_or (d : dict) (k : pystr) (default : value) : value :=
  match dict_get d k with Some v => v | None => default end.

(** [d[k] = v]: an existing key keeps its place, a new key goes last. *)
Fixpoint dict_set (d : dict) (k : pystr) (v : value) : dict :=
  match d with
  | [] => [(k, v)]
  | (k', v') :: d' =>
      if pystr_eqb k k' then (k', v) :: d' else (k', v') :: dict_set d' k v
  end.

(** Objects that are passed by reference: the book records and the set of
    known titles.  A set is only iterated and tested for membership, which a
    list of its elements in any order answers. *)
Inductive obj : Type :=
| ODict (d : dict)
| OSet (elems : list pystr).

Definition ref := nat.

(** The store maps a reference to the object it designates. *)
Definition store := list obj.

Fixpoint store_set (h : store) (r : ref) (o : obj) : store :=
  match h, r with
  | [], _ => []
  | _ :: h', O => o :: h'
  | x :: h', S r' => x :: store_set h' r' o
  end.

(** A loop whose body can raise: the first exception ends it. *)
Fixpoint fold_m {A S : Type} (f : S -> A -> option S) (l : list A) (s : S)
  : option S :=
  match l with
  | [] => Some s
  | a :: l' => match f s a with
               | Some s' => fold_m f l' s'
               | None => None
               end
  end.

(* ================================================================== *)
(** ** [src/services/merger.py]: the cross-source merger              *)
(* ================================================================== *)

Module BookMerger.

(** [^(the|a|an)\s+] *)
Definition re_article : re :=
  alts [lit "the"; lit "a"; lit "an"] ;; plus is_space.

Definition _normalize (title : pystr) : pystr :=
  let title := strip (lower title) in
  let title := re_sub_start re_article [] title in
  let title := re_sub (cls is_punct) [] title in
  let title := re_sub (plus is_space) (str " ") title in
  strip title.

(** [.*$], which ends every edition pattern. *)
Definition to_end : re := star is_dot ;; dollar.

(** What each edition pattern asks for before [.*$]; the patterns are
    compiled with [re.IGNORECASE]. *)
Definition edition_heads : list re :=
  [ (* "\s+the\s+complete" *)
    plus is_space ;; lit_ci "the" ;; plus is_space ;; lit_ci "complete";
    (* "\s+complete\s*", an optional group "and\s*", then "uncut" *)
    plus is_space ;; lit_ci "complete" ;; star is_space ;;
      opt (lit_ci "and" ;; star is_space) ;; lit_ci "uncut";
    (* "\s+uncut\s*edition" *)
    plus is_space ;; lit_ci "uncut" ;; star is_space ;; lit_ci "edition";
    (* "\s+expanded\s*edition" *)
    plus is_space ;; lit_ci "expanded" ;; star is_space ;; lit_ci "edition";
    (* "\s+special\s*edition" *)
    plus is_space ;; lit_ci "special" ;; star is_space ;; lit_ci "edition";
    (* "\s+illustrated\s*edition" *)
    plus is_space ;; lit_ci "illustrated" ;; star is_space ;; lit_ci "edition";
    (* "\s+directors\s*cut" *)
    plus is_space ;; lit_ci "directors" ;; star is_space ;; lit_ci "cut";
    (* "\s+\d{4}\s*edition" *)
    plus is_space ;; cls is_digit ;; cls is_digit ;; cls is_digit ;;
      cls is_digit ;; star is_space ;; lit_ci "edition" ].

Definition patterns : list re := map (fun head => head ;; to_end) edition_heads.

Definition _extract_base_title (title : pystr) : pystr :=
  let result := fold_left (fun result pattern => re_sub pattern [] result)
                          patterns title in
  strip result.

Definition _is_existing (normalized_key : pystr) (existing_normalized : list pystr)
  : bool :=
  if mem normalized_key existing_normalized then true
  else
    let base_title := _extract_base_title normalized_key in
    if negb (pystr_eqb base_title normalized_key)
       && mem base_title existing_normalized
    then true
    else
      existsb
        (fun existing =>
           let existing_base := _extract_base_title existing in
           pystr_eqb base_title existing_base && (3 <? length base_title))
        existing_normalized.

(** One turn of the loop of [_merge_book_data] on the item [(key, value)] of
    [new]; [None] is the [TypeError] of [len] on something that is not a
    [str]. *)
Definition merge_item (existing : dict) (item : pystr * value) : option dict :=
  let (key, value) := item in
  match dict_get existing key with
  | None => Some (dict_set existing key value)
  | Some old =>
      if negb (truthy old) then Some (dict_set existing key value)
      else if pystr_eqb key (str "Raw_Info") && truthy value then
        match py_len value, py_len old with
        | Some n, Some m =>
            if m <? n then Some (dict_set existing key value) else Some existing
        | _, _ => None
        end
      else Some existing
  end.

(** [_merge_book_data(existing, new)] updates the object [existing] in
    place.  When both names designate one object every assignment writes
    back the value it read, so running the loop on the items read at entry
    is what the loop on the live object does. *)
Definition _merge_book_data (h : store) (existing new : ref) : option store :=
  match nth_error h existing, nth_error h new with
  | Some (ODict de), Some (ODict dn) =>
      match fold_m merge_item dn de with
      | Some de' => Some (store_set h existing (ODict de'))
      | None => None
      end
  | _, _ => None
  end.

(** The strings that iterating over [existing_titles or set()] yields. *)
Definition known_titles (h : store) (existing_titles : option ref)
  : option (list pystr) :=
  match existing_titles with
  | None => Some []
  | Some r =>
      match nth_error h r with
      | Some (OSet elems) => Some elems
      | Some (ODict d) => Some (map fst d)
      | None => None
      end
  end.

(** The state of the loops of [merge]: the store and [all_books], a dict
    from normalized key to the record kept for it. *)
Definition merge_state : Type := store * list (pystr * ref).

Fixpoint all_books_get (all_books : list (pystr * ref)) (key : pystr) : option ref :=
  match all_books with
  | [] => None
  | (k, r) :: rest => if pystr_eqb key k then Some r else all_books_get rest key
  end.

(** The body of the inner loop for the record [book]; [None] is an
    exception: [title.lower()] on a true value that is not a [str],
    [book.get] on something that is not a dict, or the [TypeError] of
    [_merge_book_data]. *)
Definition merge_book (existing_normalized : list pystr) (st : merge_state)
  (book : ref) : option merge_state :=
  let (h, all_books) := st in
  match nth_error h book with
  | Some (ODict d) =>
      let title := dict_get_or d (str "Titre_VO") (VStr []) in
      if negb (truthy title) then Some st
      else
        match title with
        | VStr title =>
            let key := _normalize title in
            if _is_existing key existing_normalized then Some st
            else
              match all_books_get all_books key with
              | None => Some (h, all_books ++ [(key, book)])
              | Some kept =>
                  match _merge_book_data h kept book with
                  | Some h' => Some (h', all_books)
                  | None => None
                  end
              end
        | _ => None
        end
  | _ => None
  end.

(** [merge] applied to the tuple [sources] and to [existing_titles]: the
    store after the call and the list it returns. *)
Definition merge (h : store) (sources : list (list ref))
  (existing_titles : option ref) : option (store * list ref) :=
  match known_titles h existing_titles with
  | None => None
  | Some titles =>
      let existing_normalized := map _normalize titles in
      match fold_m (fun st source => fold_m (merge_book existing_normalized) source st)
                   sources (h, []) with
      | Some (h', all_books) => Some (h', map snd all_books)
      | None => None
      end
  end.

End BookMerger.

(* ================================================================== *)
(** ** [src/services/wikipedia.py]: the rows of a bibliography table  *)
(* ================================================================== *)

Module WikipediaService.

(** What the program reads of a table cell: its tag, whether it carries
    [scope="row"], its text ([get_text(strip=True)]), the text of its first
    link, and for its first italic element the text of that element and of
    the first link inside it. *)
Record cell : Type := mk_cell {
  is_th : bool;
  scope_row : bool;
  cell_text : pystr;
  cell_link : option pystr;
  cell_italic : option (pystr * option pystr)
}.

(** A row is what [row.find_all(["td", "th"])] returns, in document order. *)
Definition row := list cell.

(** [int(s)] on a run of decimal digits. *)
Definition int_of_digits (s : pystr) : Z :=
  fold_left (fun acc c => (acc * 10 + (Z.of_nat (code c) - 48))%Z) s 0%Z.

(** ["\d{4}"] *)
Definition re_year : re :=
  cls is_digit ;; cls is_digit ;; cls is_digit ;; cls is_digit.

(** The year read in the first [td] of the row, 0 when there is none. *)
Definition cell_year (cells : row) : Z :=
  match find (fun c => negb (is_th c)) cells with
  | Some first_td =>
      match re_search re_year (cell_text first_td) with
      | Some year_match => int_of_digits year_match
      | None => 0%Z
      end
  | None => 0%Z
  end.

Definition valid_year (y : Z) : bool := ((1970 <=? y) && (y <=? 2030))%Z.

(** The year of the row once the previous year and the validation have been
    applied: the value of [year] when [_parse_row] tests it against 0 for
    the last time. *)
Definition resolved_year (cells : row) (previous_year : Z) : Z :=
  let year := cell_year cells in
  let year := if (year =? 0)%Z then previous_year else year in
  if ((year <? 1970) || (2030 <? year))%Z
  then (if valid_year previous_year then previous_year else 0%Z)
  else year.

(** ["\[\d+\]"], ["\s*\(novel\)"], ["\s*\(novella\)"], ["\s*\(collection\)"];
    the last three ignore case. *)
Definition _clean_title (title : pystr) : pystr :=
  let title := re_sub (lit "[" ;; plus is_digit ;; lit "]") [] title in
  let title := re_sub (star is_space ;; lit_ci "(novel)") [] title in
  let title := re_sub (star is_space ;; lit_ci "(novella)") [] title in
  let title := re_sub (star is_space ;; lit_ci "(collection)") [] title in
  strip title.

Definition publishers : list pystr :=
  [str "doubleday"; str "viking"; str "signet"; str "scribner"; str "simon";
   str "putnam"].

(** ["^[\d\-X]+$"] *)
Definition re_identifier : re :=
  plus (fun c => is_digit c || one_of "-X" c) ;; dollar.

(** The first cell from the end whose text is long enough and is not an
    identifier gives the notes, cut to 200 characters. *)
Fixpoint find_notes (reversed_cells : list cell) : pystr :=
  match reversed_cells with
  | [] => []
  | c :: rest =>
      let text := cell_text c in
      if (15 <? length text) && negb (re_match re_identifier text)
      then firstn 200 text
      else find_notes rest
  end.

Definition title_of_cell (title_cell : cell) : pystr :=
  match cell_italic title_cell, cell_link title_cell with
  | Some (_, Some inner_link), _ => inner_link
  | _, Some link => link
  | Some (italic, None), None => italic
  | None, None => cell_text title_cell
  end.

Definition _parse_row (cells : row) (previous_year : Z) : option dict :=
  if length cells <? 1 then None
  else
    let year := resolved_year cells previous_year in
    if (year =? 0)%Z then None
    else
      let title_cell :=
        match find (fun c => is_th c && scope_row c) cells with
        | Some c => Some c
        | None => if 1 <? length cells then nth_error cells 1 else None
        end in
      match title_cell with
      | None => None
      | Some title_cell =>
          let title := _clean_title (title_of_cell title_cell) in
          if is_empty title || (length title <? 2) then None
          else if existsb (fun pub => contains pub (lower title)) publishers
          then None
          else
            let notes := find_notes (rev cells) in
            let is_bachman := contains (str "bachman") (lower notes) in
            Some [ (str "Titre_VO", VStr title);
                   (str "Annee_VO", VInt year);
                   (str "Raw_Info", VStr notes);
                   (str "Is_Bachman", VBool is_bachman);
                   (str "Is_Duplicate_or_Ignore", VBool false) ]
      end.

(** [book["Annee_VO"]] of a record that [_parse_row] built. *)
Definition year_of (book : dict) : Z :=
  match dict_get book (str "Annee_VO") with
  | Some (VInt y) => y
  | _ => 0%Z
  end.

(** The loop of [_parse_section] over the rows that follow the header row,
    with the year carried from one row to the next. *)
Fixpoint parse_rows (section_id : pystr) (rows : list row) (current_year : Z)
  : list dict :=
  match rows with
  | [] => []
  | r :: rows' =>
      match _parse_row r current_year with
      | Some book =>
          let current_year := year_of book in
          let book := dict_set book (str "Source") (VStr (str "Wikipedia")) in
          let book := dict_set book (str "Section") (VStr section_id) in
          book :: parse_rows section_id rows' current_year
      | None => parse_rows section_id rows' current_year
      end
  end.

(** [_parse_section], from the table found under the heading of the
    section: [None] when the heading or the table is missing, else all the
    [tr] of the table, header row first. *)
Definition _parse_section (table_rows : option (list row)) (section_id : pystr)
  : list dict :=
  match table_rows with
  | None => []
  | Some trs => parse_rows section_id (tl trs) 0%Z
  end.

(** A row of three cells for the scenarios of the specification: a year
    cell, a title cell with an italic link, a notes cell. *)
Definition row_of (year_text title notes : string) : row :=
  [ mk_cell false false (str year_text) None None;
    mk_cell true true (str title) (Some (str title))
            (Some (str title, Some (str title)));
    mk_cell false false (str notes) None None ].

End WikipediaService.

(* ================================================================== *)
(** ** Edit distance: the specification and the two-row program       *)
(* ================================================================== *)

(** The classic edit distance, in the words of the specification: a text is
    turned into another by keeping characters and by single-character
    substitutions, deletions and insertions, each of cost one.
    [edit_cost a b n] says that some such script of cost [n] turns [a] into
    [b]; the distance is the least cost. *)
Inductive edit_cost : pystr -> pystr -> nat -> Prop :=
| edit_done : edit_cost [] [] 0
| edit_keep : forall c a b n, edit_cost a b n -> edit_cost (c :: a) (c :: b) n
| edit_subst : forall c d a b n, edit_cost a b n -> edit_cost (c :: a) (d :: b) (S n)
| edit_delete : forall c a b n, edit_cost a b n -> edit_cost (c :: a) b (S n)
| edit_insert : forall c a b n, edit_cost a b n -> edit_cost a (c :: b) (S n).

Definition is_edit_distance (a b : pystr) (d : nat) : Prop :=
  edit_cost a b d /\ forall n, edit_cost a b n -> d <= n.

(** The same distance by its recurrence on the first characters. *)
Fixpoint lev (a : pystr) : pystr -> nat :=
  match a with
  | [] => fun b => length b
  | x :: a' =>
      fix lev_a (b : pystr) : nat :=
        match b with
        | [] => S (length a')
        | y :: b' =>
            min3 (lev a' b + 1) (lev_a b' + 1)
                 (lev a' b' + (if Ascii.eqb x y then 0 else 1))
        end
  end.

(** Cell [(i, j)] of the distance table of [s1] and [s2]: the distance
    between the first [i] characters of [s1] and the first [j] characters of
    [s2]. *)
Definition cell_ij (s1 s2 : pystr) (i j : nat) : nat :=
  lev (rev (firstn i s1)) (rev (firstn j s2)).

Definition table_row (s1 s2 : pystr) (i : nat) : list nat :=
  map (cell_ij s1 s2 i) (List.seq 0 (length s2 + 1)).

(* ================================================================== *)
(** ** Notions used to reason about the matchers                      *)
(* ================================================================== *)

(** What a matcher leaves is the end of the text it was given. *)
Definition suffixing (r : re) : Prop :=
  forall s rest, In rest (r s) -> exists pre, s = pre ++ rest.

(** A match is still a match when more text follows. *)
Definition extensible (r : re) : Prop :=
  forall s rest m, In rest (r s) -> In (rest ++ m) (r (s ++ m)).

(** A matcher that never matches the empty text. *)
Definition needs_text (r : re) : Prop := r [] = [].

(** Every match needs the character [c] somewhere in the text. *)
Definition needs_char (c : ascii) (r : re) : Prop :=
  forall s rest, In rest (r s) -> In c s.

(** [r] matches nowhere in [s]. *)
Definition quiet (r : re) (s : pystr) : Prop :=
  forall pre post, s = pre ++ post -> r post = [].

(** The text up to the first position where [r] matches. *)
Fixpoint cut (r : re) (s : pystr) : pystr :=
  match s with
  | [] => []
  | c :: s' => match r s with
               | _ :: _ => []
               | [] => c :: cut r s'
               end
  end.

(** Runs of white space replaced by one SPACE; [in_run] tells that the
    previous character was white space. *)
Fixpoint squeeze (in_run : bool) (s : pystr) : pystr :=
  match s with
  | [] => []
  | c :: s' =>
      if is_space c
      then if in_run then squeeze true s' else " "%char :: squeeze true s'
      else c :: squeeze false s'
  end.

(** No white space but single SPACEs between other characters. *)
Fixpoint single_spaced (after_space : bool) (s : pystr) : bool :=
  match s with
  | [] => true
  | c :: s' =>
      if is_space c
      then negb after_space && Ascii.eqb c " " && single_spaced true s'
      else single_spaced false s'
  end.

Definition no_line_feed (s : pystr) : Prop := Forall (fun c => is_dot c = true) s.

(** A text that does not start with white space. *)
Definition no_lead (s : pystr) : Prop :=
  match s with
  | c :: _ => is_space c = false
  | [] => True
  end.

(** What every key has: lowercase, no punctuation, words separated by single
    SPACEs, nothing to strip at either end. *)
Definition key_ok (y : pystr) : Prop :=
  Forall (fun c => lower_char c = c) y /\
  Forall (fun c => is_punct c = false) y /\
  single_spaced false y = true /\
  strip y = y.

(** The articles of the two article patterns. *)
Definition en_articles : list string := ["the"; "a"; "an"]%string.

Definition all_articles : list string :=
  ["the"; "a"; "an"; "le"; "la"; "les"; "l'"; "un"; "une"]%string.

Definition fr_articles : list string :=
  ["le"; "la"; "les"; "l'"; "un"; "une"]%string.

(** [y] starts with one of the articles followed by a SPACE. *)
Definition begins_with_article (articles : list string) (y : pystr) : bool :=
  existsb (fun art => prefixb (str art ++ str " ") y) articles.

(** [s] starts with [p] and a white-space character comes next. *)
Definition followed_by_space (p s : pystr) : bool :=
  prefixb p s &&
  match skipn (length p) s with
  | c :: _ => is_space c
  | [] => false
  end.

Definition begins_with_article_ws (articles : list string) (s : pystr) : bool :=
  existsb (fun art => followed_by_space (str art) s) articles.

(** What [normalize_title] removes and the merger's [_normalize] keeps at
    the start of a title. *)
Definition kept_by_merger : list string :=
  fr_articles ++ ["dark"%string; "gwendy"%string].

(** The conditions under which an edition head is cut at its first match. *)
Definition good_head (h : re) : Prop := suffixing h /\ extensible h /\ needs_text h.

(* ================================================================== *)
(** ** Notions used to state what [merge] does to the records         *)
(* ================================================================== *)

(** The title of the record that [r] designates, when it is a non-empty
    string, and the key the merger files it under. *)
Definition title_of (h : store) (r : ref) : option pystr :=
  match nth_error h r with
  | Some (ODict d) =>
      match dict_get d (str "Titre_VO") with
      | Some (VStr (c :: t)) => Some (c :: t)
      | _ => None
      end
  | _ => None
  end.

Definition key_of (h : store) (r : ref) : option pystr :=
  option_map BookMerger._normalize (title_of h r).

(** The three tiers of the existence check, as the specification lists
    them. *)
Definition three_tier (key : pystr) (known : list pystr) : Prop :=
  In key known \/
  In (BookMerger._extract_base_title key) known \/
  exists e, In e known /\
    BookMerger._extract_base_title key = BookMerger._extract_base_title e /\
    3 < length (BookMerger._extract_base_title key).

(** [v'] is at least as rich as the contributed value [v] of field [f]:
    not empty when [v] is not, and for the note at least as long as [v]. *)
Definition covers (f : pystr) (v v' : value) : Prop :=
  (truthy v = true -> truthy v' = true) /\
  (f = str "Raw_Info" ->
   forall n, v = VStr n -> n <> [] ->
   exists m, v' = VStr m /\ length n <= length m).

(** [v'] is what the value [v] of field [f] of a kept record may become:
    a value that is not empty stays as it is, except the note, which may be
    replaced by a longer one. *)
Definition kept (f : pystr) (v v' : value) : Prop :=
  covers f v v' /\ (f <> str "Raw_Info" -> truthy v = true -> v' = v).

Definition dict_covers (contributed final : dict) : Prop :=
  forall f v, dict_get contributed f = Some v ->
  exists v', dict_get final f = Some v' /\ covers f v v'.

Definition dict_kept (before after : dict) : Prop :=
  forall f v, dict_get before f = Some v ->
  exists v', dict_get after f = Some v' /\ kept f v v'.

(** How the store may change: no object appears or disappears, a set stays
    as it is, a record keeps its keys and its values as [kept] says. *)
Definition evolves (h h' : store) : Prop :=
  length h' = length h /\
  forall r,
    match nth_error h r with
    | Some (ODict d) => exists d', nth_error h' r = Some (ODict d') /\ dict_kept d d'
    | o => nth_error h' r = o
    end.

(** The known title of the scenario of the specification, "Le Fléau"; its
    accented letter is the code point 233. *)
Definition Le_Fleau : pystr := str "Le Fl" ++ ["233"%char] ++ str "au".

(** Two sightings of "Pet Sematary": the first has no year and a short note,
    the second has the year, a longer note and one more field; and a set of
    known titles. *)
Definition pet_sematary_store : store :=
  [ ODict [ (str "Titre_VO", VStr (str "Pet Sematary"));
            (str "Annee_VO", VInt 0);
            (str "Raw_Info", VStr (str "Novel")) ];
    ODict [ (str "Titre_VO", VStr (str "Pet Sematary"));
            (str "Annee_VO", VInt 1983);
            (str "Raw_Info", VStr (str "Nominated for the World Fantasy Award"));
            (str "Source", VStr (str "Gemini")) ];
    OSet [ str "Carrie" ] ].

(** What holds of the state of the loops of [merge] once the records
    [done] have been handled, [h0] being the store at the call: the store
    has evolved from [h0]; [all_books] has one entry per key; a record that
    is not kept is as it was; a kept record is a handled one, it had at the
    call the title its key comes from, and that key is not a known one;
    every handled record whose key is not a known one is covered by the
    record kept for its key; every item of a kept record was at the call an
    item of a handled record with the same key. *)
Definition merge_inv (h0 : store) (known : list pystr) (done : list ref)
  (st : BookMerger.merge_state) : Prop :=
  let (h, all_books) := st in
  evolves h0 h /\
  NoDup (map fst all_books) /\
  (forall r, ~ In r (map snd all_books) -> nth_error h r = nth_error h0 r) /\
  (forall k r, In (k, r) all_books ->
     In r done /\
     exists t, title_of h0 r = Some t /\ BookMerger._normalize t = k /\
               BookMerger._is_existing k known = false) /\
  (forall b t, In b done -> title_of h0 b = Some t ->
     BookMerger._is_existing (BookMerger._normalize t) known = false ->
     exists r d0 d,
       BookMerger.all_books_get all_books (BookMerger._normalize t) = Some r /\
       nth_error h0 b = Some (ODict d0) /\
       nth_error h r = Some (ODict d) /\ dict_covers d0 d) /\
  (forall k r d item, In (k, r) all_books ->
     nth_error h r = Some (ODict d) -> In item d ->
     exists b d0, In b done /\ key_of h0 b = Some k /\
                  nth_error h0 b = Some (ODict d0) /\ In item d0).

(** The store after the two sightings have been merged, first source
    first. *)
Definition pet_sematary_merged : store :=
  [ ODict [ (str "Titre_VO", VStr (str "Pet Sematary"));
            (str "Annee_VO", VInt 1983);
            (str "Raw_Info", VStr (str "Nominated for the World Fantasy Award"));
            (str "Source", VStr (str "Gemini")) ];
    ODict [ (str "Titre_VO", VStr (str "Pet Sematary"));
            (str "Annee_VO", VInt 1983);
            (str "Raw_Info", VStr (str "Nominated for the World Fantasy Award"));
            (str "Source", VStr (str "Gemini")) ];
    OSet [ str "Carrie" ] ].

(** The key of the specification's candidate, with the accent of the
    known title, and the same key without it. *)
Definition le_fleau_uncut_key : pystr :=
  str "le fl" ++ ["233"%char] ++ str "au complete uncut edition".

Definition le_fleau_unaccented_title : pystr :=
  str "Le Fleau: Complete & Uncut Edition".

(** The typing under which [merge] raises no exception: a title and a note
    that are not empty are strings, the records of the sources are dicts,
    and [existing_titles] designates an object. *)
Definition str_if_true (v : value) : Prop :=
  truthy v = true -> exists s, v = VStr s.

Definition typed_dict (d : dict) : Prop :=
  forall k v, In (k, v) d -> k = str "Titre_VO" \/ k = str "Raw_Info" ->
  str_if_true v.

Definition typed_store (h : store) : Prop :=
  forall r d, nth_error h r = Some (ODict d) -> typed_dict d.

Definition typed_call (h : store) (sources : list (list ref))
  (existing_titles : option ref) : Prop :=
  typed_store h /\
  (forall b, In b (concat sources) -> exists d, nth_error h b = Some (ODict d)) /\
  (forall r, existing_titles = Some r -> r < length h).

(** The part of the typing that the loops of [merge] maintain, [books]
    being the records still to handle. *)
Definition typed_state (books : list ref) (st : BookMerger.merge_state) : Prop :=
  let (h, all_books) := st in
  typed_store h /\
  (forall b, In b books -> exists d, nth_error h b = Some (ODict d)) /\
  (forall k r, In (k, r) all_books -> exists d, nth_error h r = Some (ODict d)).

(* ================================================================== *)
(** ** Notions used to state what each field of a kept record ends as *)
(* ================================================================== *)

(** A dict has one item per key; the stores of the program are such. *)
Definition dicts_well_formed (h : store) : Prop :=
  forall r d, nth_error h r = Some (ODict d) -> NoDup (map fst d).

(** The value of field [f] in the record [b], when [b] is a record that
    has the field. *)
Definition field_of (h : store) (f : pystr) (b : ref) : list value :=
  match nth_error h b with
  | Some (ODict d) => match dict_get d f with Some v => [v] | None => [] end
  | _ => []
  end.

(** [b] is a record whose title has the key [k]. *)
Definition has_key (h : store) (k : pystr) (b : ref) : bool :=
  match key_of h b with
  | Some k' => pystr_eqb k' k
  | None => false
  end.

(** The values contributed to field [f] of the record [r] kept for the key
    [k]: its own value, then the values of the other records of [books]
    with that key, in the order of the sources; all read in the store at
    the call. *)
Definition contributed (h : store) (f k : pystr) (r : ref) (books : list ref)
  : list value :=
  field_of h f r ++
  flat_map (field_of h f)
           (filter (fun b => negb (Nat.eqb b r) && has_key h k b) books).

(** The first value that is not empty; the last value when all are empty;
    nothing when there is no value. *)
Definition first_non_empty (vs : list value) : option value :=
  match find truthy vs with
  | Some v => Some v
  | None => last (map Some vs) None
  end.

(** [v] is a string longer than the string [w], and at least as long. *)
Definition longer (v w : value) : Prop :=
  exists sv sw, v = VStr sv /\ w = VStr sw /\ length sw < length sv.

Definition not_shorter (v w : value) : Prop :=
  exists sv sw, v = VStr sv /\ w = VStr sw /\ length sw <= length sv.

(** [note] is the note that the contributions [vs] leave: when all are
    empty, the last of them; else the first of the longest contributions
    that are not empty: it is longer than those before it and at least as
    long as those after it. *)
Definition longest_note (vs : list value) (note : option value) : Prop :=
  (Forall (fun w => truthy w = false) vs /\ note = last (map Some vs) None) \/
  (exists pre v post,
     vs = pre ++ v :: post /\ note = Some v /\ truthy v = true /\
     (forall w, In w pre -> truthy w = true -> longer v w) /\
     (forall w, In w post -> truthy w = true -> not_shorter v w)).

(** What one contribution [v] does to field [f] of the kept record, [old]
    being the value of the field if it has one: the loop of
    [_merge_book_data] seen from one field. *)
Definition field_step (f : pystr) (old : option value) (v : value)
  : option (option value) :=
  match old with
  | None => Some (Some v)
  | Some o =>
      if negb (truthy o) then Some (Some v)
      else if pystr_eqb f (str "Raw_Info") && truthy v then
        match py_len v, py_len o with
        | Some n, Some m => if m <? n then Some (Some v) else Some (Some o)
        | _, _ => None
        end
      else Some (Some o)
  end.

(** What holds of each field of each kept record once the records [done]
    have been handled: it is what the contributions of the records of its
    key, other than itself, have made of its value at the call. *)
Definition field_inv (h0 : store) (done : list ref) (st : BookMerger.merge_state)
  : Prop :=
  let (h, all_books) := st in
  dicts_well_formed h /\
  forall k r f d0 d,
    In (k, r) all_books ->
    nth_error h0 r = Some (ODict d0) -> nth_error h r = Some (ODict d) ->
    fold_m (field_step f)
           (flat_map (field_of h0 f)
              (filter (fun b => negb (Nat.eqb b r) && has_key h0 k b) done))
           (dict_get d0 f)
    = Some (dict_get d f).

(** Three sightings of "Cujo" that differ by the year: none, 1983, 1984;
    and the store once they are merged. *)
Definition cujo_store : store :=
  [ ODict [ (str "Titre_VO", VStr (str "Cujo")); (str "Annee_VO", VInt 0) ];
    ODict [ (str "Titre_VO", VStr (str "Cujo")); (str "Annee_VO", VInt 1983) ];
    ODict [ (str "Titre_VO", VStr (str "Cujo")); (str "Annee_VO", VInt 1984) ] ].

Definition cujo_merged : store :=
  [ ODict [ (str "Titre_VO", VStr (str "Cujo")); (str "Annee_VO", VInt 1983) ];
    ODict [ (str "Titre_VO", VStr (str "Cujo")); (str "Annee_VO", VInt 1983) ];
    ODict [ (str "Titre_VO", VStr (str "Cujo")); (str "Annee_VO", VInt 1984) ] ].

(* ================================================================== *)
(** ** Further notions                                                *)
(* ================================================================== *)

(** The shape of a comparison key, character by character: every character
    is its own lowercase and is a word character or a SPACE; there is
    nothing to strip at either end; white space is never followed by white
    space. *)
Definition key_shape (k : pystr) : Prop :=
  (forall c, In c k -> lower_char c = c /\ (is_word c = true \/ c = " "%char)) /\
  strip k = k /\
  (forall pre c1 c2 post,
     k = pre ++ c1 :: c2 :: post -> is_space c1 = true -> is_space c2 = false).

(** The records of [books] that [merge] keeps, as a function of the store at
    the call: in the order of the sources, the records that have a title
    whose key is not known and is not the key of a record met before;
    [seen] lists the keys met so far. *)
Fixpoint first_sightings (h : store) (known seen : list pystr) (books : list ref)
  : list ref :=
  match books with
  | [] => []
  | b :: rest =>
      match key_of h b with
      | Some k =>
          if BookMerger._is_existing k known || mem k seen
          then first_sightings h known seen rest
          else b :: first_sightings h known (seen ++ [k]) rest
      | None => first_sightings h known seen rest
      end
  end.

(* ================================================================== *)
(** ** [src/services/wikipedia.py]: the whole bibliography            *)
(* ================================================================== *)

Module WikipediaPage.

(** [fetch_bibliography], from what the request gives: [None] when it
    fails, else for each of the two sections the rows of its table, when
    the section and the table are found. *)
Definition fetch_bibliography
  (page : option (option (list WikipediaService.row) *
                  option (list WikipediaService.row))) : list dict :=
  match page with
  | None => []
  | Some (novels, collections) =>
      WikipediaService._parse_section novels (str "Novels") ++
      WikipediaService._parse_section collections (str "Collections")
  end.

End WikipediaPage.

(** The record [_parse_row] builds from a title, a note and a year, and
    what holds of the three whenever it does: the title has two characters
    at least, nothing to strip and no publisher's name in it; the note has
    200 characters at most and, unless it is empty, more than 15; the year
    is within 1970..2030. *)
Definition wikipedia_record (title notes : pystr) (year : Z) : dict :=
  [ (str "Titre_VO", VStr title);
    (str "Annee_VO", VInt year);
    (str "Raw_Info", VStr notes);
    (str "Is_Bachman", VBool (contains (str "bachman") (lower notes)));
    (str "Is_Duplicate_or_Ignore", VBool false) ].

Definition wikipedia_fields (title notes : pystr) (year : Z) : Prop :=
  2 <= length title /\
  strip title = title /\
  (forall pub, In pub WikipediaService.publishers ->
     contains pub (lower title) = false) /\
  length notes <= 200 /\
  (notes = [] \/ 15 < length notes) /\
  WikipediaService.valid_year year = true.

(* ================================================================== *)
(** ** [src/config.py], [src/models.py]                               *)
(* ================================================================== *)

(** The keys of [TAB_MAPPING], in their order; the accented letter of
    "Série" is the code point 233. *)
Definition TAB_MAPPING : list pystr :=
  [ str "Romans";
    str "La Tour Sombre";
    str "S" ++ ["233"%char] ++ str "rie Bill Hodges";
    str "S" ++ ["233"%char] ++ str "rie Gwendy Peterson";
    str "Richard Bachman";
    str "Recueils de nouvelles" ].

Definition MAX_RETRIES : nat := 3.

(** The dataclass [Book]; a field holds whatever value it was given. *)
Record Book : Type := mk_Book {
  titre_vo : value;
  annee_vo : value;
  titre_vf : value;
  annee_vf : value;
  details : value;
  category : value;
  raw_info : value
}.

Definition to_row (book : Book) : list value :=
  [titre_vf book; titre_vo book; annee_vo book; annee_vf book].

Definition from_raw (data : dict) : Book :=
  mk_Book (dict_get_or data (str "Titre_VO") (VStr []))
          (dict_get_or data (str "Annee_VO") (VInt 0))
          (VStr []) (VInt 0) (VStr []) (VStr (str "Romans"))
          (dict_get_or data (str "Raw_Info") (VStr [])).

Definition update_from_analysis (book : Book) (analysis : dict) : Book :=
  mk_Book (titre_vo book) (annee_vo book)
          (dict_get_or analysis (str "Titre_VF") (VStr []))
          (dict_get_or analysis (str "Annee_FR") (VInt 0))
          (dict_get_or analysis (str "Details") (VStr []))
          (dict_get_or analysis (str "Category") (VStr (str "Romans")))
          (raw_info book).

(** [d.update(new)]: the items of [new] are assigned in their order. *)
Definition dict_update (d new : dict) : dict :=
  fold_left (fun d item => dict_set d (fst item) (snd item)) new d.

(** [not d] for a dict. *)
Definition dict_is_empty (d : dict) : bool :=
  match d with [] => true | _ => false end.

(** [s.add(x)] on a set of strings, kept in the order of the additions. *)
Definition set_add (x : pystr) (s : list pystr) : list pystr :=
  if mem x s then s else s ++ [x].

(* ================================================================== *)
(** ** [src/services/gemini.py]                                       *)
(* ================================================================== *)

Module GeminiService.

(** What one request gives: the decoded JSON of the reply, an [APIError]
    with its text, or any other exception, of the request or of
    [json.loads]. *)
Inductive outcome (A : Type) : Type :=
| Reply (json : A)
| APIError (text : pystr)
| OtherError.

Arguments Reply {A} json.
Arguments APIError {A} text.
Arguments OtherError {A}.

(** ["503" in str(e) or "429" in str(e)] *)
Definition retryable (text : pystr) : bool :=
  contains (str "503") text || contains (str "429") text.

(** The loop of [_call_with_retry] over the attempts that are left;
    [requests attempt] is what the request of that attempt gives.  The
    result comes with the delays slept, in seconds. *)
Fixpoint retry_loop {A : Type} (attempts : list nat) (requests : nat -> outcome A)
  : option A * list nat :=
  match attempts with
  | [] => (None, [])
  | attempt :: rest =>
      match requests attempt with
      | Reply json => (Some json, [])
      | APIError text =>
          if retryable text
          then let (result, delays) := retry_loop rest requests in
               (result, 2 ^ attempt :: delays)
          else (None, [])
      | OtherError => (None, [])
      end
  end.

Definition _call_with_retry {A : Type} (requests : nat -> outcome A)
  : option A * list nat :=
  retry_loop (List.seq 0 MAX_RETRIES) requests.

(** [fetch_bibliography]: the reply is the array of the schema. *)
Definition fetch_bibliography (requests : nat -> outcome (list dict)) : list dict :=
  match fst (_call_with_retry requests) with
  | Some result => result
  | None => []
  end.

(** [categorize_book]: the reply is the object of the schema, with fields
    that are [None], booleans, integers or strings.  The outer [None] is
    the [KeyError] of [book_data["Titre_VO"]] or [book_data["Annee_VO"]] in
    the prompt; the inner one is the failure of the call.  A reply of
    another shape is not in the model: on a reply that is not empty and is
    not an object, [result.update] raises [AttributeError]. *)
Definition categorize_book (book_data : dict) (requests : nat -> outcome dict)
  : option (option dict) :=
  match dict_get book_data (str "Titre_VO"), dict_get book_data (str "Annee_VO") with
  | Some _, Some _ =>
      match fst (_call_with_retry requests) with
      | Some result =>
          if negb (dict_is_empty result)
          then Some (Some (dict_update result book_data))
          else Some (Some result)
      | None => Some None
      end
  | _, _ => None
  end.

End GeminiService.

(* ================================================================== *)
(** ** [src/services/sheets.py]                                       *)
(* ================================================================== *)

Module SheetsService.

(** [titles.update(t.strip() for t in column if t.strip())] *)
Definition add_titles (column titles : list pystr) : list pystr :=
  fold_left (fun titles t =>
               if negb (is_empty (strip t)) then set_add (strip t) titles else titles)
            column titles.

(** [get_existing_titles]; [read_columns tab_name] is what the two calls of
    [col_values] give for the tab, [None] when the tab is not found or
    cannot be read. *)
Definition get_existing_titles
  (read_columns : pystr -> option (list pystr * list pystr)) : list pystr :=
  fold_left (fun titles tab_name =>
               match read_columns tab_name with
               | Some (column_1, column_2) =>
                   let titles_vf := tl column_1 in
                   let titles_vo := tl column_2 in
                   add_titles titles_vo (add_titles titles_vf titles)
               | None => titles
               end)
            TAB_MAPPING [].

(** [add_book]: [append_ok] tells whether opening the tab and appending the
    row go through.  A category is one of the values of the model; on a
    category that cannot be hashed, a list or an object, the membership
    test raises [TypeError], which is not in the model. *)
Definition add_book (book : Book) (append_ok : bool) : bool :=
  match category book with
  | VStr c => if negb (mem c TAB_MAPPING) then false else append_ok
  | _ => false
  end.

(** An entry of the list [get_incomplete_rows] returns. *)
Record row_data : Type := mk_row_data {
  tab : pystr;
  row : nat;
  Titre_VO : pystr;
  Titre_VF : pystr;
  Annee_VO : pystr;
  Annee_VF : pystr;
  Details : pystr;
  missing : list pystr
}.

(** [row.extend([""] * (5 - len(row)))] when the row is short. *)
Definition pad (cells : list pystr) : list pystr :=
  if length cells <? 5 then cells ++ repeat [] (5 - length cells) else cells.

(** [not s.strip() or s.strip() == "0"] *)
Definition no_year (s : pystr) : bool :=
  is_empty (strip s) || pystr_eqb (strip s) (str "0").

(** The body of the loop over the rows of a tab. *)
Definition incomplete_row (tab_name : pystr) (row_idx : nat) (cells : list pystr)
  : list row_data :=
  match firstn 5 (pad cells) with
  | [titre_vf; titre_vo; annee_vo; annee_vf; details] =>
      let missing :=
        (if is_empty (strip titre_vf) then [str "Titre_VF"] else []) ++
        (if no_year annee_vo then [str "Annee_VO"] else []) ++
        (if no_year annee_vf then [str "Annee_VF"] else []) in
      match missing with
      | _ :: _ =>
          if negb (is_empty (strip titre_vo))
          then [ mk_row_data tab_name row_idx (strip titre_vo) (strip titre_vf)
                             (strip annee_vo) (strip annee_vf) (strip details)
                             missing ]
          else []
      | [] => []
      end
  | _ => []
  end.

(** [enumerate(rows, start)] run through the loop body. *)
Fixpoint incomplete_rows_from (tab_name : pystr) (row_idx : nat)
  (rows : list (list pystr)) : list row_data :=
  match rows with
  | [] => []
  | cells :: rows' =>
      incomplete_row tab_name row_idx cells ++
      incomplete_rows_from tab_name (S row_idx) rows'
  end.

(** [get_incomplete_rows]; [read tab_name] is what [get_all_values] gives
    for the tab, [None] when the tab cannot be read. *)
Definition get_incomplete_rows (read : pystr -> option (list (list pystr)))
  : list row_data :=
  flat_map (fun tab_name =>
              match read tab_name with
              | Some rows => incomplete_rows_from tab_name 2 (tl rows)
              | None => []
              end)
           TAB_MAPPING.

(** A cell to write: its column letter, its row and the value. *)
Definition cell_update : Type := ascii * nat * value.

(** [update_row]: [open_ok] tells whether the tab opens, [cell_5] is what
    reading the value of the fifth cell of the row gives ([None] when the
    read raises, [Some None] for an empty cell), [batch_ok] whether the
    batch update goes through.  The result comes with the updates handed to
    [batch_update]. *)
Definition update_row (row_idx : nat) (data : dict)
  (open_ok : bool) (cell_5 : option (option pystr)) (batch_ok : bool)
  : bool * list cell_update :=
  if negb open_ok then (false, [])
  else
    let get (k : string) := dict_get_or data (str k) VNone in
    let updates :=
      (if truthy (get "Titre_VF"%string) then [("A"%char, row_idx, get "Titre_VF"%string)] else []) ++
      (if truthy (get "Annee_VO"%string) then [("C"%char, row_idx, get "Annee_VO"%string)] else []) ++
      (if truthy (get "Annee_VF"%string) then [("D"%char, row_idx, get "Annee_VF"%string)] else []) in
    let details :=
      if truthy (get "Details"%string)
      then match cell_5 with
           | None => None
           | Some None => Some [("E"%char, row_idx, get "Details"%string)]
           | Some (Some s) =>
               Some (if is_empty s then [("E"%char, row_idx, get "Details"%string)] else [])
           end
      else Some [] in
    match details with
    | None => (false, [])
    | Some details =>
        match updates ++ details with
        | [] => (false, [])
        | updates => (batch_ok, updates)
        end
    end.

End SheetsService.

(** [complete_book_info] of [gemini.py], on an entry of
    [get_incomplete_rows]: no request when nothing is missing. *)
Definition complete_book_info (book_data : SheetsService.row_data)
  (requests : nat -> GeminiService.outcome dict) : option dict :=
  match SheetsService.missing book_data with
  | [] => None
  | _ :: _ => fst (GeminiService._call_with_retry requests)
  end.

(* ================================================================== *)
(** ** [main.py]: the loops of [main]                                 *)
(* ================================================================== *)

(** The variables of [main] that its first loop updates. *)
Record main_state : Type := mk_main_state {
  existing_titles : list pystr;
  existing_normalized : list pystr;
  added_books : list Book
}.

(** The state before the loop: the titles read from the sheets and their
    normalized forms. *)
Definition main_init (titles : list pystr) : main_state :=
  mk_main_state titles
                (fold_left (fun s t => set_add (normalize_title t) s) titles [])
                [].

(** [annee_fr == 0] *)
Definition equals_zero (v : value) : bool :=
  match v with
  | VInt z => (z =? 0)%Z
  | VBool b => negb b
  | _ => false
  end.

(** What the loop is given for one book: the record, what the requests of
    its analysis give, and whether the row can be appended. *)
Definition book_input : Type := dict * (nat -> GeminiService.outcome dict) * bool.

(** The body of the loop over [all_books].  [None] is an exception:
    the [KeyError] of a record without title or year, or the
    [AttributeError] of [lower] on a title that is not a string. *)
Definition main_process_book (st : main_state) (input : book_input)
  : option main_state :=
  let '(raw_book, requests, append_ok) := input in
  match GeminiService.categorize_book raw_book requests with
  | None => None
  | Some None => Some st
  | Some (Some analysis) =>
      if dict_is_empty analysis then Some st
      else if truthy (dict_get_or analysis (str "Is_Duplicate_or_Ignore") (VBool true))
      then Some st
      else
        let annee_fr := dict_get_or analysis (str "Annee_FR") (VInt 0) in
        if negb (truthy annee_fr) || equals_zero annee_fr then Some st
        else
          match dict_get_or analysis (str "Titre_VF") (VStr []) with
          | VStr titre =>
              let titre_vf_normalized := normalize_title titre in
              if mem titre_vf_normalized (existing_normalized st) then Some st
              else if existsb
                        (fun existing =>
                           is_similar_title titre_vf_normalized existing
                                            default_threshold)
                        (existing_normalized st)
              then Some st
              else
                let book := update_from_analysis (from_raw raw_book) analysis in
                if SheetsService.add_book book append_ok
                then
                  match titre_vo book, titre_vf book with
                  | VStr vo, VStr vf =>
                      Some (mk_main_state
                              (set_add vf (set_add vo (existing_titles st)))
                              (set_add (normalize_title vf)
                                 (set_add (normalize_title vo)
                                    (existing_normalized st)))
                              (added_books st ++ [book]))
                  | _, _ => None
                  end
                else Some st
          | _ => None
          end
  end.

Definition main_books (inputs : list book_input) (st : main_state)
  : option main_state :=
  fold_m main_process_book inputs st.

(** The updates that the completion loop of [main] builds for an entry
    from the completion it was given. *)
Definition completion_updates (row_data : SheetsService.row_data) (completion : dict)
  : dict :=
  let get (k : string) := dict_get_or completion (str k) VNone in
  let updates : dict := [] in
  let updates :=
    if mem (str "Titre_VF") (SheetsService.missing row_data) && truthy (get "Titre_VF"%string)
    then dict_set updates (str "Titre_VF") (get "Titre_VF"%string) else updates in
  let updates :=
    if mem (str "Annee_VO") (SheetsService.missing row_data) && truthy (get "Annee_VO"%string)
    then dict_set updates (str "Annee_VO") (get "Annee_VO"%string) else updates in
  let updates :=
    if mem (str "Annee_VF") (SheetsService.missing row_data) && truthy (get "Annee_VF"%string)
    then dict_set updates (str "Annee_VF") (get "Annee_VF"%string) else updates in
  let updates :=
    if is_empty (SheetsService.Details row_data) && truthy (get "Details"%string)
    then dict_set updates (str "Details") (get "Details"%string) else updates in
  updates.

(** The body of the completion loop: whether the row counts as completed,
    and the updates handed to [batch_update]. *)
Definition main_complete_row (row_data : SheetsService.row_data)
  (requests : nat -> GeminiService.outcome dict)
  (open_ok : bool) (cell_5 : option (option pystr)) (batch_ok : bool)
  : bool * list SheetsService.cell_update :=
  match complete_book_info row_data requests with
  | Some completion =>
      if dict_is_empty completion then (false, [])
      else
        let updates := completion_updates row_data completion in
        if dict_is_empty updates then (false, [])
        else SheetsService.update_row (SheetsService.row row_data) updates
                                      open_ok cell_5 batch_ok
  | None => (false, [])
  end.

(** A French title that passes the gate of [main] against the keys [known]
    and the books [before]: its key is none of the known keys nor the key
    of a title, original or French, of a book added before, and it is
    similar to none of them. *)
Definition fresh_title (known : list pystr) (before : list Book) (vf : pystr) : Prop :=
  (forall e, In e known ->
     normalize_title vf <> e /\
     is_similar_title (normalize_title vf) e default_threshold = false) /\
  (forall b s, In b before -> titre_vo b = VStr s \/ titre_vf b = VStr s ->
     normalize_title vf <> normalize_title s /\
     is_similar_title (normalize_title vf) (normalize_title s) default_threshold
     = false).

(** What holds of the state of the first loop of [main] all along, [known]
    being the normalized keys at its start: no key is ever removed, the
    keys of the titles of the books added are among the keys, and each
    book added was fresh when it was added. *)
Definition gate_inv (known : list pystr) (st : main_state) : Prop :=
  (forall e, In e known -> In e (existing_normalized st)) /\
  (forall b s, In b (added_books st) ->
     titre_vo b = VStr s \/ titre_vf b = VStr s ->
     In (normalize_title s) (existing_normalized st)) /\
  (forall pre b post, added_books st = pre ++ b :: post ->
     exists vf, titre_vf b = VStr vf /\ fresh_title known pre vf).

(** The record, the reply and the book of the scenarios on [main]. *)
Definition it_record : dict :=
  wikipedia_record (str "It") (str "Winner of the British Fantasy Award") 1986 ++
  [ (str "Source", VStr (str "Wikipedia")); (str "Section", VStr (str "Novels")) ].

Definition it_reply : dict :=
  [ (str "Titre_VF", VStr (str "Ca"));
    (str "Annee_FR", VInt 1988);
    (str "Details", VStr (str "Un clown hante la ville de Derry"));
    (str "Category", VStr (str "Romans"));
    (str "Is_Duplicate_or_Ignore", VBool true) ].

Definition it_book : Book :=
  mk_Book (VStr (str "It")) (VInt 1986) (VStr (str "Ca")) (VInt 1988)
          (VStr (str "Un clown hante la ville de Derry")) (VStr (str "Romans"))
          (VStr (str "Winner of the British Fantasy Award")).

Definition it_input : book_input :=
  (it_record, fun _ => GeminiService.Reply it_reply, true).

(** The cell of a sheet row in column [i], counted from 0, as
    [get_incomplete_rows] reads it: stripped, and empty when the row is too
    short. *)
Definition cell_at (cells : list pystr) (i : nat) : pystr := strip (nth i cells []).

(** A cell that holds no year: blank, or "0". *)
Definition year_missing (s : pystr) : Prop := s = [] \/ s = str "0".

(** A sheet for the scenarios: a header row, a complete row and a row
    without French title nor French year. *)
Definition romans_rows : list (list pystr) :=
  [ [str "Titre VF"; str "Titre VO"; str "Annee VO"; str "Annee VF"; str "Details"];
    [str "Carrie"; str "Carrie"; str "1974"; str "1976"; str "Premier roman"];
    [str " "; str "It "; str "1986"; str "0"] ].

Definition romans_only (tab_name : pystr) : option (list (list pystr)) :=
  if pystr_eqb tab_name (str "Romans") then Some romans_rows else None.

Definition it_row_data : SheetsService.row_data :=
  SheetsService.mk_row_data (str "Romans") 3 (str "It") [] (str "1986") (str "0") []
                            [str "Titre_VF"; str "Annee_VF"].

Definition it_completion : dict :=
  [ (str "Titre_VF", VStr (str "Ca"));
    (str "Annee_VO", VInt 1990);
    (str "Annee_VF", VInt 1988);
    (str "Details", VStr (str "Un clown hante la ville de Derry")) ].





(** A record of the second source that has no year. *)
Definition institute_record : dict :=
  [ (str "Titre_VO", VStr (str "The Institute"));
    (str "Raw_Info", VStr (str "Novel"));
    (str "Is_Duplicate_or_Ignore", VBool true) ].

(* ================================================================== *)
(** * Properties                                                      *)
(* ================================================================== *)

(** ** The program's edit distance is the specified one *)

Lemma lev_nil_r : forall a, lev a [] = length a.
Proof. destruct a; reflexivity. Qed.

Lemma lev_cons : forall x a y b,
  lev (x :: a) (y :: b) =
  min3 (lev a (y :: b) + 1) (lev (x :: a) b + 1)
       (lev a b + (if Ascii.eqb x y then 0 else 1)).
Proof. reflexivity. Qed.

Lemma edit_cost_nil_l : forall b, edit_cost [] b (length b).
Proof. induction b; simpl; constructor; assumption. Qed.

Lemma edit_cost_nil_r : forall a, edit_cost a [] (length a).
Proof. induction a; simpl; constructor; assumption. Qed.

Lemma lev_sound : forall a b, edit_cost a b (lev a b).
Proof.
  induction a as [|x a IHa]; intro b.
  - apply edit_cost_nil_l.
  - induction b as [|y b IHb].
    + apply (edit_cost_nil_r (x :: a)).
    + rewrite lev_cons. unfold min3.
      destruct (Nat.min_spec (lev a (y :: b) + 1)
                  (Nat.min (lev (x :: a) b + 1)
                     (lev a b + (if Ascii.eqb x y then 0 else 1))))
        as [[_ ->]|[_ ->]].
      * rewrite Nat.add_1_r. apply edit_delete, IHa.
      * destruct (Nat.min_spec (lev (x :: a) b + 1)
                    (lev a b + (if Ascii.eqb x y then 0 else 1)))
          as [[_ ->]|[_ ->]].
        -- rewrite Nat.add_1_r. apply edit_insert, IHb.
        -- destruct (Ascii.eqb_spec x y) as [->|_].
           ++ rewrite Nat.add_0_r. apply edit_keep, IHa.
           ++ rewrite Nat.add_1_r. apply edit_subst, IHa.
Qed.

Lemma lev_least : forall a b n, edit_cost a b n -> lev a b <= n.
Proof.
  induction 1 as [|c a b n _ IH|c d a b n _ IH|c a b n _ IH|c a b n _ IH].
  - simpl. lia.
  - rewrite lev_cons, Ascii.eqb_refl. unfold min3. lia.
  - rewrite lev_cons. unfold min3. destruct (Ascii.eqb c d); lia.
  - destruct b as [|y b].
    + rewrite lev_nil_r in *. simpl. lia.
    + rewrite lev_cons. unfold min3. lia.
  - destruct a as [|x a].
    + simpl in *. lia.
    + rewrite lev_cons. unfold min3. lia.
Qed.

Lemma lev_is_edit_distance : forall a b, is_edit_distance a b (lev a b).
Proof. intros a b. split; [apply lev_sound | apply lev_least]. Qed.

Lemma is_edit_distance_unique : forall a b d,
  is_edit_distance a b d -> d = lev a b.
Proof.
  intros a b d [Hc Hmin]. apply Nat.le_antisymm.
  - apply Hmin, lev_sound.
  - apply lev_least, Hc.
Qed.

Lemma edit_cost_app : forall a b n a' b' m,
  edit_cost a b n -> edit_cost a' b' m -> edit_cost (a ++ a') (b ++ b') (n + m).
Proof.
  intros a b n a' b' m H H'. induction H; simpl; try constructor; assumption.
Qed.

Lemma edit_cost_rev : forall a b n, edit_cost a b n -> edit_cost (rev a) (rev b) n.
Proof.
  induction 1 as [|c a b n _ IH|c d a b n _ IH|c a b n _ IH|c a b n _ IH]; simpl.
  - constructor.
  - replace n with (n + 0) by lia.
    apply edit_cost_app; [assumption | repeat constructor].
  - replace (S n) with (n + 1) by lia.
    apply edit_cost_app; [assumption | repeat constructor].
  - replace (S n) with (n + 1) by lia. rewrite <- (app_nil_r (rev b)).
    apply edit_cost_app; [assumption | repeat constructor].
  - replace (S n) with (n + 1) by lia. rewrite <- (app_nil_r (rev a)).
    apply edit_cost_app; [assumption | repeat constructor].
Qed.

Lemma edit_cost_sym : forall a b n, edit_cost a b n -> edit_cost b a n.
Proof. induction 1; constructor; assumption. Qed.

Lemma lev_rev : forall a b, lev (rev a) (rev b) = lev a b.
Proof.
  intros a b. apply Nat.le_antisymm.
  - apply lev_least, edit_cost_rev, lev_sound.
  - rewrite <- (rev_involutive a), <- (rev_involutive b) at 1.
    apply lev_least, edit_cost_rev, lev_sound.
Qed.

Lemma lev_sym : forall a b, lev a b = lev b a.
Proof.
  intros a b. apply Nat.le_antisymm; apply lev_least, edit_cost_sym, lev_sound.
Qed.

(** *** The rows of the program are the rows of the distance table *)

Lemma firstn_succ_snoc : forall {A : Type} (l : list A) i c,
  nth_error l i = Some c -> firstn (S i) l = firstn i l ++ [c].
Proof.
  induction l as [|x l IH]; intros [|i] c H; simpl in *; try discriminate.
  - congruence.
  - f_equal. apply IH. assumption.
Qed.

Lemma skipn_nth_cons : forall {A : Type} (l : list A) i c,
  nth_error l i = Some c -> skipn i l = c :: skipn (S i) l.
Proof.
  induction l as [|x l IH]; intros [|i] c H; simpl in *; try discriminate.
  - congruence.
  - apply IH. assumption.
Qed.

Lemma nth_map_seq : forall (f : nat -> nat) len n,
  n < len -> nth n (map f (List.seq 0 len)) 0 = f n.
Proof.
  intros f len n H.
  rewrite (nth_indep _ 0 (f 0)) by (rewrite length_map, length_seq; assumption).
  rewrite map_nth, seq_nth by assumption. reflexivity.
Qed.

Lemma map_seq_snoc : forall (f : nat -> nat) len,
  map f (List.seq 0 (S len)) = map f (List.seq 0 len) ++ [f len].
Proof. intros. rewrite seq_S, map_app. reflexivity. Qed.

Section TableRows.

Variables s1 s2 : pystr.

Lemma table_row_0 : List.seq 0 (length s2 + 1) = table_row s1 s2 0.
Proof.
  unfold table_row. apply nth_ext with (d := 0) (d' := 0).
  - rewrite length_map. reflexivity.
  - intros n Hn. rewrite length_seq in Hn.
    rewrite nth_map_seq, seq_nth by assumption.
    unfold cell_ij. simpl. rewrite length_rev, length_firstn. lia.
Qed.

Lemma cell_ij_succ : forall i j c1 c2,
  nth_error s1 i = Some c1 -> nth_error s2 j = Some c2 ->
  cell_ij s1 s2 (S i) (S j) =
  min3 (cell_ij s1 s2 i (S j) + 1) (cell_ij s1 s2 (S i) j + 1)
       (cell_ij s1 s2 i j + (if Ascii.eqb c1 c2 then 0 else 1)).
Proof.
  intros i j c1 c2 H1 H2. unfold cell_ij.
  rewrite (firstn_succ_snoc _ _ _ H1), (firstn_succ_snoc _ _ _ H2), !rev_unit.
  apply lev_cons.
Qed.

Lemma lev_cells : forall i c1,
  nth_error s1 i = Some c1 ->
  forall k j, j + k = length s2 ->
  fold_left (lev_cell c1 (table_row s1 s2 i))
            (combine (List.seq j k) (skipn j s2))
            (map (cell_ij s1 s2 (S i)) (List.seq 0 (S j)))
  = table_row s1 s2 (S i).
Proof.
  intros i c1 H1. induction k as [|k IH]; intros j Hj.
  - simpl. unfold table_row. replace (length s2 + 1) with (S j) by lia.
    reflexivity.
  - destruct (nth_error s2 j) as [c2|] eqn:H2.
    2:{ apply nth_error_None in H2. lia. }
    rewrite (skipn_nth_cons _ _ _ H2).
    change (List.seq j (S k)) with (j :: List.seq (S j) k).
    cbn [combine fold_left].
    rewrite <- (IH (S j)) by lia. f_equal.
    rewrite (map_seq_snoc (cell_ij s1 s2 (S i)) (S j)).
    unfold lev_cell, table_row. f_equal. f_equal.
    rewrite !nth_map_seq by lia.
    rewrite (cell_ij_succ i j c1 c2 H1 H2), (Nat.add_1_r j). reflexivity.
Qed.

Lemma cell_ij_0_r : forall i, i <= length s1 -> cell_ij s1 s2 i 0 = i.
Proof.
  intros i Hi. unfold cell_ij. simpl. rewrite lev_nil_r, length_rev, length_firstn.
  lia.
Qed.

Lemma lev_row_table : forall i c1,
  nth_error s1 i = Some c1 ->
  lev_row s2 (table_row s1 s2 i) (i, c1) = table_row s1 s2 (S i).
Proof.
  intros i c1 H1. unfold lev_row, enumerate.
  rewrite <- (lev_cells i c1 H1 (length s2) 0) by lia.
  cbn [skipn List.seq map]. rewrite cell_ij_0_r.
  - rewrite Nat.add_1_r. reflexivity.
  - apply nth_error_Some. congruence.
Qed.

Lemma lev_rows : forall k i, i + k = length s1 ->
  fold_left (lev_row s2) (combine (List.seq i k) (skipn i s1)) (table_row s1 s2 i)
  = table_row s1 s2 (length s1).
Proof.
  induction k as [|k IH]; intros i Hi.
  - simpl. replace i with (length s1) by lia. reflexivity.
  - destruct (nth_error s1 i) as [c1|] eqn:H1.
    2:{ apply nth_error_None in H1. lia. }
    rewrite (skipn_nth_cons _ _ _ H1).
    change (List.seq i (S k)) with (i :: List.seq (S i) k).
    cbn [combine fold_left].
    rewrite (lev_row_table i c1 H1). apply IH. lia.
Qed.

Lemma last_table_row : last (table_row s1 s2 (length s1)) 0 = lev s1 s2.
Proof.
  unfold table_row. rewrite Nat.add_1_r, map_seq_snoc, last_last.
  unfold cell_ij. rewrite !firstn_all. apply lev_rev.
Qed.

Lemma table_computes_lev :
  last (fold_left (lev_row s2) (enumerate s1) (List.seq 0 (length s2 + 1))) 0
  = lev s1 s2.
Proof.
  rewrite table_row_0. unfold enumerate.
  pose proof (lev_rows (length s1) 0 eq_refl) as H. cbn [skipn] in H.
  rewrite H. apply last_table_row.
Qed.

End TableRows.

(** The program computes the edit distance. *)
Lemma levenshtein_distance_lev : forall s1 s2, levenshtein_distance s1 s2 = lev s1 s2.
Proof.
  intros s1 s2. unfold levenshtein_distance.
  destruct (length s1 <? length s2).
  - destruct s1 as [|c s1]; [reflexivity|].
    rewrite table_computes_lev. apply lev_sym.
  - destruct s2 as [|c s2]; [apply eq_sym, lev_nil_r|].
    apply table_computes_lev.
Qed.

(** ** The similarity matcher *)

Lemma pystr_eqb_eq : forall a b, pystr_eqb a b = true <-> a = b.
Proof.
  intros a b. unfold pystr_eqb.
  destruct (list_eq_dec ascii_dec a b); split; congruence.
Qed.

Lemma pystr_eqb_refl : forall a, pystr_eqb a a = true.
Proof. intro a. apply pystr_eqb_eq. reflexivity. Qed.

Lemma pystr_eqb_neq : forall a b, pystr_eqb a b = false <-> a <> b.
Proof.
  intros a b. unfold pystr_eqb.
  destruct (list_eq_dec ascii_dec a b); split; congruence.
Qed.

Lemma is_empty_false : forall s, s <> [] -> is_empty s = false.
Proof. destruct s; [congruence | reflexivity]. Qed.

(** C7, as the specification words it, fails on the empty string: the guard
    on empty inputs comes before the test of equality. *)
Lemma is_similar_title_empty_not_similar :
  is_similar_title (str "") (str "") default_threshold = false.
Proof. reflexivity. Qed.

(** C7 (amended): the matcher is reflexive on every non-empty string, at the
    default threshold and at any other. *)
Theorem is_similar_title_refl : forall (s : pystr) (threshold : float),
  s <> [] -> is_similar_title s s threshold = true.
Proof.
  intros s threshold Hs. unfold is_similar_title.
  rewrite (is_empty_false s Hs), pystr_eqb_refl. reflexivity.
Qed.

Lemma is_similar_title_refl_witness :
  is_similar_title (str "It") (str "It") default_threshold = true.
Proof. apply is_similar_title_refl. discriminate. Defined.

(** C8: the cascade of [is_similar_title].  An empty input gives false; two
    equal non-empty keys give true; two different keys of which one is
    shorter than 5 give false; otherwise the answer is
    [threshold <= 1 - d / max(len a, len b)], computed on doubles as the
    program does, where [d] is the edit distance of the two keys: the least
    cost of a script of single-character insertions, deletions and
    substitutions.  "The Shining" and "The Shiming" are similar at 0.85. *)
Theorem is_similar_title_cascade : forall (a b : pystr) (threshold : float),
  (a = [] \/ b = [] -> is_similar_title a b threshold = false) /\
  (a <> [] -> a = b -> is_similar_title a b threshold = true) /\
  (a <> [] -> b <> [] -> a <> b -> length a < 5 \/ length b < 5 ->
   is_similar_title a b threshold = false) /\
  (a <> [] -> b <> [] -> a <> b -> 5 <= length a -> 5 <= length b ->
   exists d, is_edit_distance a b d /\
     is_similar_title a b threshold =
     PrimFloat.leb threshold
       (1 - float_of_nat d / float_of_nat (Nat.max (length a) (length b)))%float) /\
  is_similar_title (str "The Shining") (str "The Shiming") default_threshold = true.
Proof.
  intros a b threshold. unfold is_similar_title.
  split; [|split; [|split; [|split]]].
  - intros [-> | ->]; [reflexivity|]. destruct (is_empty a); reflexivity.
  - intros Ha <-. rewrite (is_empty_false a Ha), pystr_eqb_refl. reflexivity.
  - intros Ha Hb Hab Hlen.
    rewrite (is_empty_false a Ha), (is_empty_false b Hb).
    apply pystr_eqb_neq in Hab. rewrite Hab. simpl.
    destruct Hlen as [H | H]; apply Nat.ltb_lt in H; rewrite H;
      [reflexivity | rewrite orb_true_r; reflexivity].
  - intros Ha Hb Hab Hla Hlb. exists (lev a b). split.
    + apply lev_is_edit_distance.
    + rewrite (is_empty_false a Ha), (is_empty_false b Hb).
      apply pystr_eqb_neq in Hab. rewrite Hab. simpl.
      apply Nat.ltb_ge in Hla, Hlb. rewrite Hla, Hlb. simpl.
      rewrite levenshtein_distance_lev. reflexivity.
  - vm_compute. reflexivity.
Qed.

Lemma is_similar_title_cascade_witness :
  exists d, is_edit_distance (str "Carrie") (str "Carry") d /\
    is_similar_title (str "Carrie") (str "Carry") default_threshold =
    PrimFloat.leb default_threshold (1 - float_of_nat d / float_of_nat 6)%float.
Proof.
  apply (is_similar_title_cascade (str "Carrie") (str "Carry") default_threshold);
    try discriminate; simpl; lia.
Defined.

(** ** The year of a table row *)

Module WikipediaFacts.
Import WikipediaService.

Lemma valid_year_range : forall y, valid_year y = true <-> (1970 <= y <= 2030)%Z.
Proof. intro y. unfold valid_year. rewrite andb_true_iff, !Z.leb_le. tauto. Qed.

Lemma resolved_year_cases : forall cells previous_year,
  resolved_year cells previous_year =
  if valid_year (cell_year cells) then cell_year cells
  else if valid_year previous_year then previous_year else 0%Z.
Proof.
  intros cells p. unfold resolved_year, valid_year.
  destruct (Z.eqb_spec (cell_year cells) 0) as [-> | Hy]; simpl.
  - destruct (Z.ltb_spec p 1970), (Z.ltb_spec 2030 p),
      (Z.leb_spec 1970 p), (Z.leb_spec p 2030); simpl; try reflexivity; lia.
  - destruct (Z.ltb_spec (cell_year cells) 1970),
      (Z.ltb_spec 2030 (cell_year cells)),
      (Z.leb_spec 1970 (cell_year cells)),
      (Z.leb_spec (cell_year cells) 2030); simpl; try reflexivity; lia.
Qed.

Lemma resolved_year_valid : forall cells previous_year,
  resolved_year cells previous_year <> 0%Z ->
  valid_year (resolved_year cells previous_year) = true.
Proof.
  intros cells p. rewrite resolved_year_cases.
  destruct (valid_year (cell_year cells)) eqn:Hc; [intros _; exact Hc|].
  destruct (valid_year p) eqn:Hp; [intros _; exact Hp | congruence].
Qed.

Lemma _parse_row_year : forall cells previous_year book,
  _parse_row cells previous_year = Some book ->
  year_of book = resolved_year cells previous_year /\
  resolved_year cells previous_year <> 0%Z.
Proof.
  intros cells p book. unfold _parse_row.
  destruct (length cells <? 1); [discriminate|].
  destruct (Z.eqb_spec (resolved_year cells p) 0) as [|Hy]; [discriminate|].
  destruct (match find (fun c => is_th c && scope_row c) cells with
            | Some c => Some c
            | None => if 1 <? length cells then nth_error cells 1 else None
            end) as [title_cell|]; [|discriminate].
  destruct (is_empty _ || _); [discriminate|].
  destruct (existsb _ publishers); [discriminate|].
  intro H. injection H as <-. split; [reflexivity | assumption].
Qed.

(** C9: the year of a row.  A row whose first data cell holds no four-digit
    year, and a row whose year is outside 1970..2030, take the carried year
    when that one is within 1970..2030 and 0 otherwise; a year within the
    range is kept; a row whose year resolves to 0 gives no record; the year
    of an emitted record is the resolved year, and it is the year carried
    to the next row, while a row that gives no record leaves the carried
    year as it was.  A row reading 2199 after a row of 1986 has year 1986,
    and a row with a blank year cell after a row of 1977 has year 1977. *)
Theorem year_resolution :
  (forall cells first_td current_year,
     find (fun c => negb (is_th c)) cells = Some first_td ->
     re_search re_year (cell_text first_td) = None ->
     resolved_year cells current_year =
     if valid_year current_year then current_year else 0%Z) /\
  (forall cells first_td current_year,
     find (fun c => negb (is_th c)) cells = Some first_td ->
     re_search re_year (cell_text first_td) = None ->
     current_year = 0%Z \/ valid_year current_year = true ->
     resolved_year cells current_year = current_year) /\
  (forall cells current_year,
     valid_year (cell_year cells) = false ->
     resolved_year cells current_year =
     if valid_year current_year then current_year else 0%Z) /\
  (forall cells current_year,
     valid_year (cell_year cells) = true ->
     resolved_year cells current_year = cell_year cells) /\
  (forall cells current_year,
     resolved_year cells current_year = 0%Z ->
     _parse_row cells current_year = None) /\
  (forall cells current_year book,
     _parse_row cells current_year = Some book ->
     dict_get book (str "Annee_VO") = Some (VInt (resolved_year cells current_year)) /\
     valid_year (resolved_year cells current_year) = true) /\
  (forall section_id cells rows current_year,
     parse_rows section_id (cells :: rows) current_year =
     match _parse_row cells current_year with
     | Some book =>
         dict_set (dict_set book (str "Source") (VStr (str "Wikipedia")))
                  (str "Section") (VStr section_id)
         :: parse_rows section_id rows (resolved_year cells current_year)
     | None => parse_rows section_id rows current_year
     end) /\
  map year_of
      (_parse_section
         (Some [ [];
                 row_of "1986" "It" "Winner of the British Fantasy Award";
                 row_of "2199" "The Eyes of the Dragon" "First sold as a limited edition" ])
         (str "Novels")) = [1986%Z; 1986%Z] /\
  map year_of
      (_parse_section
         (Some [ [];
                 row_of "1977" "Rage" "Published under the name Richard Bachman";
                 row_of "" "The Shining" "Runner-up for the Gandalf Award" ])
         (str "Novels")) = [1977%Z; 1977%Z].
Proof.
  split; [|split; [|split; [|split; [|split; [|split; [|split; [|split]]]]]]].
  - intros cells first_td cy Hfind Hsearch.
    rewrite resolved_year_cases. unfold cell_year.
    rewrite Hfind, Hsearch. reflexivity.
  - intros cells first_td cy Hfind Hsearch Hcy.
    rewrite resolved_year_cases. unfold cell_year.
    rewrite Hfind, Hsearch. cbn [valid_year].
    destruct Hcy as [-> | ->]; reflexivity.
  - intros cells cy Hc. rewrite resolved_year_cases, Hc. reflexivity.
  - intros cells cy Hc. rewrite resolved_year_cases, Hc. reflexivity.
  - intros cells cy H0. unfold _parse_row. rewrite H0.
    destruct (length cells <? 1); reflexivity.
  - intros cells cy book H. pose proof H as H'. apply _parse_row_year in H'.
    destruct H' as [Hy Hnz]. split.
    + revert H. unfold _parse_row.
      destruct (length cells <? 1); [discriminate|].
      destruct (resolved_year cells cy =? 0)%Z; [discriminate|].
      destruct (match find (fun c => is_th c && scope_row c) cells with
                | Some c => Some c
                | None => if 1 <? length cells then nth_error cells 1 else None
                end) as [title_cell|]; [|discriminate].
      destruct (is_empty _ || _); [discriminate|].
      destruct (existsb _ publishers); [discriminate|].
      intro H. injection H as <-. reflexivity.
    + apply resolved_year_valid. assumption.
  - intros section_id cells rows cy. simpl.
    destruct (_parse_row cells cy) as [book|] eqn:H; [|reflexivity].
    apply _parse_row_year in H. destruct H as [-> _]. reflexivity.
  - vm_compute. reflexivity.
  - vm_compute. reflexivity.
Qed.

Lemma year_resolution_witness :
  resolved_year (row_of "" "The Shining" "Runner-up for the Gandalf Award") 1977 = 1977%Z /\
  resolved_year (row_of "2199" "The Eyes of the Dragon" "First sold") 1986 = 1986%Z /\
  resolved_year (row_of "1986" "It" "Winner of the British Fantasy Award") 0 = 1986%Z /\
  _parse_row (row_of "1492" "It" "Winner of the British Fantasy Award") 0 = None /\
  valid_year (resolved_year (row_of "2199" "The Eyes of the Dragon" "First sold") 1986) = true.
Proof.
  destruct year_resolution as (H1 & _ & H2 & H3 & H4 & H5 & _).
  split; [|split; [|split; [|split]]].
  - exact (H1 (row_of "" "The Shining" "Runner-up for the Gandalf Award")
              (mk_cell false false (str "") None None) 1977%Z eq_refl eq_refl).
  - exact (H2 (row_of "2199" "The Eyes of the Dragon" "First sold") 1986%Z eq_refl).
  - exact (H3 (row_of "1986" "It" "Winner of the British Fantasy Award") 0%Z eq_refl).
  - exact (H4 (row_of "1492" "It" "Winner of the British Fantasy Award") 0%Z eq_refl).
  - exact (proj2 (H5 (row_of "2199" "The Eyes of the Dragon" "First sold") 1986%Z
                     _ eq_refl)).
Defined.

End WikipediaFacts.

(** ** Matchers: suffixes and extensions *)

Lemma suffixing_cls : forall p, suffixing (cls p).
Proof.
  intros p [|c s] rest H; simpl in H; [contradiction|].
  destruct (p c); [|contradiction].
  destruct H as [<- | []]. exists [c]. reflexivity.
Qed.

Lemma extensible_cls : forall p, extensible (cls p).
Proof.
  intros p [|c s] rest m H; simpl in *; [contradiction|].
  destruct (p c); [|contradiction].
  destruct H as [<- | []]. left. reflexivity.
Qed.

Lemma suffixing_lit_by : forall eqc l, suffixing (lit_by eqc l).
Proof.
  intros eqc l. induction l as [|a l IH]; intros s rest H; simpl in H.
  - destruct H as [<- | []]. exists []. reflexivity.
  - destruct s as [|c s]; [contradiction|].
    destruct (eqc a c); [|contradiction].
    destruct (IH _ _ H) as [pre ->]. exists (c :: pre). reflexivity.
Qed.

Lemma extensible_lit_by : forall eqc l, extensible (lit_by eqc l).
Proof.
  intros eqc l. induction l as [|a l IH]; intros s rest m H; simpl in *.
  - destruct H as [<- | []]. left. reflexivity.
  - destruct s as [|c s]; [contradiction|]. simpl.
    destruct (eqc a c); [|contradiction]. apply IH. assumption.
Qed.

Lemma cat_In : forall r1 r2 s rest,
  In rest ((r1 ;; r2) s) <-> exists mid, In mid (r1 s) /\ In rest (r2 mid).
Proof. intros. unfold cat. apply in_flat_map. Qed.

Lemma suffixing_cat : forall r1 r2,
  suffixing r1 -> suffixing r2 -> suffixing (r1 ;; r2).
Proof.
  intros r1 r2 H1 H2 s rest H. apply cat_In in H. destruct H as (mid & Hm & Hr).
  destruct (H1 _ _ Hm) as [pre1 ->]. destruct (H2 _ _ Hr) as [pre2 ->].
  exists (pre1 ++ pre2). rewrite app_assoc. reflexivity.
Qed.

Lemma extensible_cat : forall r1 r2,
  extensible r1 -> extensible r2 -> extensible (r1 ;; r2).
Proof.
  intros r1 r2 H1 H2 s rest m H. apply cat_In in H. destruct H as (mid & Hm & Hr).
  apply cat_In. exists (mid ++ m). split; [apply H1 | apply H2]; assumption.
Qed.

Lemma suffixing_alt : forall r1 r2,
  suffixing r1 -> suffixing r2 -> suffixing (alt r1 r2).
Proof.
  intros r1 r2 H1 H2 s rest H. unfold alt in H. apply in_app_or in H.
  destruct H; [apply H1 | apply H2]; assumption.
Qed.

Lemma extensible_alt : forall r1 r2,
  extensible r1 -> extensible r2 -> extensible (alt r1 r2).
Proof.
  intros r1 r2 H1 H2 s rest m H. unfold alt in *. apply in_or_app.
  apply in_app_or in H. destruct H; [left; apply H1 | right; apply H2]; assumption.
Qed.

Lemma suffixing_opt : forall r, suffixing r -> suffixing (opt r).
Proof.
  intros r Hr s rest H. unfold opt in H. apply in_app_or in H.
  destruct H as [H | [<- | []]]; [apply Hr; assumption | exists []; reflexivity].
Qed.

Lemma extensible_opt : forall r, extensible r -> extensible (opt r).
Proof.
  intros r Hr s rest m H. unfold opt in *. apply in_or_app.
  apply in_app_or in H. destruct H as [H | [<- | []]].
  - left. apply Hr. assumption.
  - right. left. reflexivity.
Qed.

Lemma star_self : forall p s, In s (star p s).
Proof.
  intros p [|c s]; simpl; [left; reflexivity|].
  destruct (p c); [apply in_or_app; right|]; left; reflexivity.
Qed.

Lemma suffixing_star : forall p, suffixing (star p).
Proof.
  intros p s. induction s as [|c s IH]; intros rest H; simpl in H.
  - destruct H as [<- | []]. exists []. reflexivity.
  - destruct (p c).
    + apply in_app_or in H. destruct H as [H | [<- | []]].
      * destruct (IH _ H) as [pre ->]. exists (c :: pre). reflexivity.
      * exists []. reflexivity.
    + destruct H as [<- | []]. exists []. reflexivity.
Qed.

Lemma extensible_star : forall p, extensible (star p).
Proof.
  intros p s. induction s as [|c s IH]; intros rest m H; simpl in H.
  - destruct H as [<- | []]. apply star_self.
  - destruct (p c) eqn:Hc.
    + apply in_app_or in H. simpl. rewrite Hc. apply in_or_app.
      destruct H as [H | [<- | []]].
      * left. apply IH. assumption.
      * right. left. reflexivity.
    + destruct H as [<- | []]. apply (star_self p ((c :: s) ++ m)).
Qed.

Lemma suffixing_plus : forall p, suffixing (plus p).
Proof. intro p. apply suffixing_cat; [apply suffixing_cls | apply suffixing_star]. Qed.

Lemma extensible_plus : forall p, extensible (plus p).
Proof. intro p. apply extensible_cat; [apply extensible_cls | apply extensible_star]. Qed.

Lemma suffixing_lit : forall l, suffixing (lit l).
Proof. intro l. apply suffixing_lit_by. Qed.

Lemma suffixing_lit_ci : forall l, suffixing (lit_ci l).
Proof. intro l. apply suffixing_lit_by. Qed.

Lemma extensible_lit_ci : forall l, extensible (lit_ci l).
Proof. intro l. apply extensible_lit_by. Qed.

Lemma suffixing_alts : forall rs, Forall suffixing rs -> suffixing (alts rs).
Proof.
  induction 1 as [|r rs Hr _ IH]; simpl.
  - intros s rest [].
  - apply suffixing_alt; assumption.
Qed.

(** *** The equations of [re.sub] *)

Lemma sub_from_fuel : forall r repl f1 f2 s,
  length s <= f1 -> length s <= f2 ->
  sub_from f1 r repl s = sub_from f2 r repl s.
Proof.
  intros r repl. induction f1 as [|f1 IH]; intros f2 s H1 H2.
  - destruct s; [|simpl in H1; lia]. destruct f2; reflexivity.
  - destruct s as [|c s]; [destruct f2; reflexivity|].
    destruct f2 as [|f2]; [simpl in H2; lia|]. simpl in H1, H2.
    cbn [sub_from]. destruct (r (c :: s)) as [|rest l].
    + f_equal. apply IH; lia.
    + destruct (Nat.ltb_spec (length rest) (length (c :: s))) as [Hlt|_].
      * simpl in Hlt. f_equal. apply IH; lia.
      * f_equal. apply IH; lia.
Qed.

Lemma re_sub_nil : forall r repl, re_sub r repl [] = [].
Proof. reflexivity. Qed.

Lemma re_sub_cons : forall r repl c s,
  re_sub r repl (c :: s) =
  match r (c :: s) with
  | rest :: _ =>
      if length rest <? length (c :: s)
      then repl ++ re_sub r repl rest
      else c :: re_sub r repl s
  | [] => c :: re_sub r repl s
  end.
Proof.
  intros r repl c s. unfold re_sub. cbn [length sub_from].
  destruct (r (c :: s)) as [|rest l]; [reflexivity|].
  destruct (Nat.ltb_spec (length rest) (S (length s))) as [Hlt|_]; [|reflexivity].
  f_equal. apply sub_from_fuel; lia.
Qed.

(** ** Characters *)

Ltac ascii_cases c :=
  destruct c as [[] [] [] [] [] [] [] []]; vm_compute; try reflexivity;
  try discriminate; try tauto.

Lemma lower_char_idem : forall c, lower_char (lower_char c) = lower_char c.
Proof. intro c. ascii_cases c. Qed.

Lemma space_not_word : forall c, is_space c = true -> is_punct c = false.
Proof. intro c. ascii_cases c. Qed.

Lemma space_is_dot : forall c, is_space c = false -> is_dot c = true.
Proof. intro c. ascii_cases c. Qed.

Lemma lower_char_colon : forall c, lower_char c = ":"%char -> c = ":"%char.
Proof. intro c. ascii_cases c. Qed.

Lemma lower_lower : forall s, lower (lower s) = lower s.
Proof.
  intro s. unfold lower. rewrite map_map. apply map_ext. apply lower_char_idem.
Qed.

Lemma lower_fixed : forall s, Forall (fun c => lower_char c = c) s -> lower s = s.
Proof.
  induction 1 as [|c s Hc _ IH]; simpl; [reflexivity|]. rewrite Hc, IH. reflexivity.
Qed.

Lemma lower_is_lowered : forall s, Forall (fun c => lower_char c = c) (lower s).
Proof.
  intro s. unfold lower. apply Forall_map, Forall_forall. intros c _.
  apply lower_char_idem.
Qed.

(** ** [str.strip] *)

Lemma lstrip_suffix : forall s, exists ws, s = ws ++ lstrip s.
Proof.
  induction s as [|c s [ws IH]]; simpl.
  - exists []. reflexivity.
  - destruct (is_space c).
    + exists (c :: ws). simpl. f_equal. assumption.
    + exists []. reflexivity.
Qed.

Lemma rstrip_prefix : forall s, exists ws, s = rstrip s ++ ws.
Proof.
  induction s as [|c s [ws IH]]; simpl.
  - exists []. reflexivity.
  - destruct (rstrip s) as [|x r] eqn:Hr.
    + destruct (is_space c).
      * exists (c :: s). reflexivity.
      * exists s. reflexivity.
    + exists ws. simpl. f_equal. assumption.
Qed.

Lemma strip_infix : forall s, exists a b, s = a ++ strip s ++ b.
Proof.
  intro s. unfold strip.
  destruct (lstrip_suffix s) as [a Ha].
  destruct (rstrip_prefix (lstrip s)) as [b Hb].
  exists a, b. rewrite <- Hb. assumption.
Qed.

Lemma lstrip_no_lead : forall s, no_lead (lstrip s).
Proof.
  induction s as [|c s IH]; simpl; [exact I|].
  destruct (is_space c) eqn:Hc; [assumption | exact Hc].
Qed.

Lemma no_lead_lstrip : forall s, no_lead s -> lstrip s = s.
Proof. intros [|c s] H; simpl in *; [reflexivity|]. rewrite H. reflexivity. Qed.

Lemma rstrip_cons_word : forall c s,
  is_space c = false -> rstrip (c :: s) = c :: rstrip s.
Proof.
  intros c s Hc. simpl. rewrite Hc. destruct (rstrip s); reflexivity.
Qed.

Lemma rstrip_no_lead : forall s, no_lead s -> no_lead (rstrip s).
Proof.
  intros [|c s] H; [exact I|]. simpl in H. rewrite rstrip_cons_word by assumption.
  exact H.
Qed.

Lemma rstrip_idem : forall s, rstrip (rstrip s) = rstrip s.
Proof.
  induction s as [|c s IH]; [reflexivity|]. simpl.
  destruct (rstrip s) as [|x r] eqn:Hr.
  - destruct (is_space c) eqn:Hc; simpl; [reflexivity|]. rewrite Hc. reflexivity.
  - cbn [rstrip]. cbn [rstrip] in IH. rewrite IH. reflexivity.
Qed.

Lemma strip_idem : forall s, strip (strip s) = strip s.
Proof.
  intro s. unfold strip.
  rewrite (no_lead_lstrip (rstrip (lstrip s)))
    by apply rstrip_no_lead, lstrip_no_lead.
  apply rstrip_idem.
Qed.

Lemma Forall_lstrip : forall (P : ascii -> Prop) s, Forall P s -> Forall P (lstrip s).
Proof.
  intros P s H. destruct (lstrip_suffix s) as [ws Hs]. rewrite Hs in H.
  apply Forall_app in H. tauto.
Qed.

Lemma Forall_rstrip : forall (P : ascii -> Prop) s, Forall P s -> Forall P (rstrip s).
Proof.
  intros P s H. destruct (rstrip_prefix s) as [ws Hs]. rewrite Hs in H.
  apply Forall_app in H. tauto.
Qed.

Lemma Forall_strip : forall (P : ascii -> Prop) s, Forall P s -> Forall P (strip s).
Proof. intros. apply Forall_rstrip, Forall_lstrip. assumption. Qed.

Lemma lstrip_length : forall s, length (lstrip s) <= length s.
Proof.
  induction s as [|c s IH]; simpl; [lia|]. destruct (is_space c); simpl; lia.
Qed.

(** ** Removing punctuation and collapsing white space *)

Lemma re_sub_cls : forall p s,
  re_sub (cls p) [] s = filter (fun c => negb (p c)) s.
Proof.
  intros p s. induction s as [|c s IH]; [reflexivity|].
  rewrite re_sub_cons. simpl. destruct (p c); simpl.
  - destruct (Nat.ltb_spec (length s) (S (length s))); [assumption | lia].
  - f_equal. assumption.
Qed.

Lemma star_space_head : forall s, exists l, star is_space s = lstrip s :: l.
Proof.
  induction s as [|c s [l IH]]; simpl.
  - exists []. reflexivity.
  - destruct (is_space c).
    + rewrite IH. exists (l ++ [c :: s]). reflexivity.
    + exists []. reflexivity.
Qed.

Lemma squeeze_true_lstrip : forall s, squeeze true s = squeeze false (lstrip s).
Proof.
  induction s as [|c s IH]; [reflexivity|]. simpl.
  destruct (is_space c) eqn:Hc; [assumption|]. simpl. rewrite Hc. reflexivity.
Qed.

Lemma re_sub_spaces : forall s,
  re_sub (plus is_space) (str " ") s = squeeze false s.
Proof.
  intro s. remember (length s) as n eqn:Hn. revert s Hn.
  induction n as [n IH] using lt_wf_ind. intros [|c s] Hn; [reflexivity|].
  rewrite re_sub_cons. unfold plus at 1, cat. cbn [cls squeeze].
  destruct (is_space c) eqn:Hc.
  - cbn [flat_map]. destruct (star_space_head s) as [l ->]. rewrite app_nil_r.
    pose proof (lstrip_length s) as Hl. simpl in Hn.
    destruct (Nat.ltb_spec (length (lstrip s)) (length (c :: s))) as [_|Hge];
      [|simpl in Hge; lia].
    simpl. f_equal. rewrite squeeze_true_lstrip.
    apply (IH (length (lstrip s))); [lia | reflexivity].
  - cbn [flat_map]. f_equal. simpl in Hn. apply (IH (length s)); [lia | reflexivity].
Qed.

Lemma squeeze_single_spaced : forall s b, single_spaced b (squeeze b s) = true.
Proof.
  induction s as [|c s IH]; intro b; [reflexivity|]. simpl.
  destruct (is_space c) eqn:Hc.
  - destruct b; [apply IH|]. simpl. apply IH.
  - simpl. rewrite Hc. apply IH.
Qed.

Lemma single_spaced_squeeze : forall s b,
  single_spaced b s = true -> squeeze b s = s.
Proof.
  induction s as [|c s IH]; intros b H; [reflexivity|]. simpl in *.
  destruct (is_space c).
  - apply andb_true_iff in H. destruct H as [H Hs].
    apply andb_true_iff in H. destruct H as [Hb Hc].
    destruct b; [discriminate|]. apply Ascii.eqb_eq in Hc. subst c.
    f_equal. apply IH. assumption.
  - f_equal. apply IH. assumption.
Qed.

Lemma single_spaced_weaken : forall s b,
  single_spaced b s = true -> single_spaced false s = true.
Proof.
  intros [|c s] b H; [reflexivity|]. simpl in *. destruct (is_space c); [|assumption].
  destruct b; [discriminate | assumption].
Qed.

Lemma single_spaced_lstrip : forall s b,
  single_spaced b s = true -> single_spaced false (lstrip s) = true.
Proof.
  induction s as [|c s IH]; intros b H; [reflexivity|]. simpl in *.
  destruct (is_space c) eqn:Hc.
  - apply andb_true_iff in H. destruct H as [_ Hs]. apply (IH true). assumption.
  - simpl. rewrite Hc. assumption.
Qed.

Lemma single_spaced_rstrip : forall s b,
  single_spaced b s = true -> single_spaced b (rstrip s) = true.
Proof.
  induction s as [|c s IH]; intros b H; [reflexivity|]. simpl in *.
  destruct (rstrip s) as [|x r] eqn:Hr.
  - destruct (is_space c) eqn:Hc; [reflexivity|]. simpl. rewrite Hc. reflexivity.
  - cbn [single_spaced]. destruct (is_space c).
    + apply andb_true_iff in H. destruct H as [H Hs]. rewrite H. apply (IH true).
      assumption.
    + apply (IH false). assumption.
Qed.

Lemma single_spaced_space : forall s b c,
  single_spaced b s = true -> In c s -> is_space c = true -> c = " "%char.
Proof.
  induction s as [|x s IH]; intros b c H Hin Hc; [contradiction|]. simpl in H.
  destruct Hin as [-> | Hin].
  - rewrite Hc in H. apply andb_true_iff in H. destruct H as [H _].
    apply andb_true_iff in H. destruct H as [_ H]. apply Ascii.eqb_eq in H.
    assumption.
  - destruct (is_space x).
    + apply andb_true_iff in H. destruct H as [_ H]. apply (IH true); assumption.
    + apply (IH false); assumption.
Qed.

Lemma single_spaced_no_line_feed : forall s b,
  single_spaced b s = true -> no_line_feed s.
Proof.
  intros s b H. apply Forall_forall. intros c Hin.
  destruct (is_space c) eqn:Hc.
  - rewrite (single_spaced_space s b c H Hin Hc). reflexivity.
  - apply space_is_dot. assumption.
Qed.

Lemma Forall_squeeze : forall (P : ascii -> Prop) s b,
  P " "%char -> Forall P s -> Forall P (squeeze b s).
Proof.
  intros P s b Hsp H. revert b. induction H as [|c s Hc _ IH]; intro b; simpl.
  - constructor.
  - destruct (is_space c); [destruct b|]; try constructor; auto.
Qed.

Lemma filter_fixed : forall (f : ascii -> bool) s,
  Forall (fun c => f c = true) s -> filter f s = s.
Proof.
  induction 1 as [|c s Hc _ IH]; simpl; [reflexivity|]. rewrite Hc, IH. reflexivity.
Qed.

(** ** The shape of a normalized key *)

Lemma finish_key_ok : forall a,
  Forall (fun c => lower_char c = c) a ->
  key_ok (strip (re_sub (plus is_space) (str " ") (re_sub (cls is_punct) [] a))).
Proof.
  intros a Ha. rewrite re_sub_cls, re_sub_spaces. unfold key_ok.
  split; [|split; [|split]].
  - apply Forall_strip, Forall_squeeze; [reflexivity|].
    apply Forall_forall. intros c Hc. apply filter_In in Hc.
    rewrite Forall_forall in Ha. apply Ha. tauto.
  - apply Forall_strip, Forall_squeeze; [reflexivity|].
    apply Forall_forall. intros c Hc. apply filter_In in Hc.
    destruct Hc as [_ Hc]. apply negb_true_iff in Hc. assumption.
  - unfold strip. apply single_spaced_rstrip.
    apply (single_spaced_lstrip _ false). apply squeeze_single_spaced.
  - apply strip_idem.
Qed.

Lemma key_ok_finish_fixed : forall y,
  key_ok y ->
  strip (re_sub (plus is_space) (str " ") (re_sub (cls is_punct) [] y)) = y.
Proof.
  intros y (Hlow & Hpunct & Hsp & Hstrip).
  rewrite re_sub_cls, re_sub_spaces, filter_fixed.
  - rewrite single_spaced_squeeze; assumption.
  - eapply Forall_impl; [|exact Hpunct]. intros c Hc. simpl in Hc. rewrite Hc.
    reflexivity.
Qed.

Lemma key_ok_prepare_fixed : forall y, key_ok y -> strip (lower y) = y.
Proof.
  intros y (Hlow & _ & _ & Hstrip). rewrite lower_fixed; assumption.
Qed.

Lemma re_sub_start_suffix : forall r s,
  suffixing r -> exists pre, s = pre ++ re_sub_start r [] s.
Proof.
  intros r s Hr. unfold re_sub_start. destruct (r s) as [|rest l] eqn:E.
  - exists []. reflexivity.
  - apply (Hr s rest). rewrite E. left. reflexivity.
Qed.

Lemma Forall_re_sub_start : forall (P : ascii -> Prop) r s,
  suffixing r -> Forall P s -> Forall P (re_sub_start r [] s).
Proof.
  intros P r s Hr H. destruct (re_sub_start_suffix r s Hr) as [pre Hs].
  rewrite Hs in H. apply Forall_app in H. tauto.
Qed.

Lemma re_sub_start_quiet : forall r s, r s = [] -> re_sub_start r [] s = s.
Proof. intros r s H. unfold re_sub_start. rewrite H. reflexivity. Qed.

Lemma suffixing_fail : suffixing (fun _ => []).
Proof. intros s rest []. Qed.

Ltac suffixing_tac :=
  repeat first
    [ apply suffixing_opt | apply suffixing_plus | apply suffixing_star
    | apply suffixing_cls | apply suffixing_lit | apply suffixing_lit_ci
    | apply suffixing_fail | apply suffixing_cat | apply suffixing_alt ].

Lemma suffixing_re_dark_tower : suffixing re_dark_tower.
Proof. unfold re_dark_tower. suffixing_tac. Qed.

Lemma suffixing_re_tour_sombre : suffixing re_tour_sombre.
Proof. unfold re_tour_sombre. suffixing_tac. Qed.

Lemma suffixing_re_gwendy : suffixing re_gwendy.
Proof. unfold re_gwendy. suffixing_tac. Qed.

Lemma suffixing_re_article : suffixing re_article.
Proof. unfold re_article, alts. simpl fold_right. suffixing_tac. Qed.

Lemma suffixing_merger_re_article : suffixing BookMerger.re_article.
Proof. unfold BookMerger.re_article, alts. simpl fold_right. suffixing_tac. Qed.

Lemma _normalize_key_ok : forall x, key_ok (BookMerger._normalize x).
Proof.
  intro x. unfold BookMerger._normalize. apply finish_key_ok.
  apply Forall_re_sub_start; [apply suffixing_merger_re_article|].
  apply Forall_strip, lower_is_lowered.
Qed.

Lemma normalize_title_key_ok : forall x, key_ok (normalize_title x).
Proof.
  intro x. unfold normalize_title. apply finish_key_ok.
  apply Forall_re_sub_start; [apply suffixing_re_article|].
  apply Forall_re_sub_start; [apply suffixing_re_gwendy|].
  apply Forall_re_sub_start; [apply suffixing_re_tour_sombre|].
  apply Forall_re_sub_start; [apply suffixing_re_dark_tower|].
  apply Forall_strip, lower_is_lowered.
Qed.

(** ** When the prefix patterns do not match *)

Lemma lit_by_eqb_In : forall l s rest,
  In rest (lit_by Ascii.eqb l s) -> s = l ++ rest.
Proof.
  induction l as [|a l IH]; intros s rest H; simpl in H.
  - destruct H as [<- | []]. reflexivity.
  - destruct s as [|c s]; [contradiction|].
    destruct (Ascii.eqb_spec a c) as [<- | _]; [|contradiction].
    simpl. f_equal. apply IH. assumption.
Qed.

Lemma lit_In : forall l s rest, In rest (lit l s) -> s = str l ++ rest.
Proof. intros l s rest. apply lit_by_eqb_In. Qed.

Lemma plus_In_head : forall p s rest,
  In rest (plus p s) -> exists c s', s = c :: s' /\ p c = true.
Proof.
  intros p [|c s] rest H; apply cat_In in H; destruct H as (mid & Hm & _);
    simpl in Hm; [contradiction|].
  destruct (p c) eqn:Hc; [|contradiction]. exists c, s. split; [reflexivity | assumption].
Qed.

Lemma alts_In : forall rs s mid,
  In mid (alts rs s) -> exists r, In r rs /\ In mid (r s).
Proof.
  induction rs as [|r rs IH]; intros s mid H; simpl in H; [contradiction|].
  unfold alt in H. apply in_app_or in H. destruct H as [H | H].
  - exists r. split; [left; reflexivity | assumption].
  - destruct (IH _ _ H) as (r' & Hr' & Hm). exists r'. split; [right|]; assumption.
Qed.

Lemma prefixb_app_true : forall p r, prefixb p (p ++ r) = true.
Proof.
  induction p as [|a p IH]; intro r; simpl; [reflexivity|].
  rewrite Ascii.eqb_refl. apply IH.
Qed.

Lemma no_element_nil : forall (A : Type) (l : list A),
  (forall x, ~ In x l) -> l = [].
Proof.
  intros A [|x l] H; [reflexivity|]. exfalso. apply (H x). left. reflexivity.
Qed.

Lemma prefixb_false_lit : forall l s, prefixb (str l) s = false -> lit l s = [].
Proof.
  intros l s H. apply no_element_nil. intros rest Hin.
  apply lit_In in Hin. subst s. rewrite prefixb_app_true in H. discriminate.
Qed.

Lemma article_quiet : forall articles y b,
  single_spaced b y = true ->
  begins_with_article articles y = false ->
  (alts (map lit articles) ;; plus is_space) y = [].
Proof.
  intros articles y b Hsp Hart. apply no_element_nil. intros rest Hin.
  apply cat_In in Hin. destruct Hin as (mid & Hmid & Hrest).
  apply alts_In in Hmid. destruct Hmid as (r & Hr & Hmid).
  apply in_map_iff in Hr. destruct Hr as (art & <- & Hart_in).
  apply lit_In in Hmid.
  apply plus_In_head in Hrest. destruct Hrest as (c & mid' & -> & Hc).
  assert (c = " "%char) as ->.
  { apply (single_spaced_space y b c Hsp); [|assumption].
    rewrite Hmid. apply in_or_app. right. left. reflexivity. }
  assert (begins_with_article articles y = true) as Habs.
  { unfold begins_with_article. apply existsb_exists. exists art.
    split; [assumption|]. rewrite Hmid.
    change (str art ++ " "%char :: mid') with (str art ++ str " " ++ mid').
    rewrite app_assoc. apply prefixb_app_true. }
  congruence.
Qed.

Lemma needs_char_cat_r : forall c r1 r2,
  suffixing r1 -> needs_char c r2 -> needs_char c (r1 ;; r2).
Proof.
  intros c r1 r2 H1 H2 s rest H. apply cat_In in H. destruct H as (mid & Hm & Hr).
  destruct (H1 _ _ Hm) as [pre ->]. apply in_or_app. right. apply (H2 _ _ Hr).
Qed.

Lemma needs_char_cat_l : forall c r1 r2, needs_char c r1 -> needs_char c (r1 ;; r2).
Proof.
  intros c r1 r2 H1 s rest H. apply cat_In in H. destruct H as (mid & Hm & _).
  apply (H1 _ _ Hm).
Qed.

Lemma needs_char_lit : forall c l, In c (str l) -> needs_char c (lit l).
Proof.
  intros c l Hc s rest H. apply lit_In in H. subst s. apply in_or_app. left.
  assumption.
Qed.

Lemma needs_colon_dark_tower : needs_char ":" re_dark_tower.
Proof.
  unfold re_dark_tower.
  do 7 (apply needs_char_cat_r; [suffixing_tac|]).
  apply needs_char_cat_l, needs_char_lit. left. reflexivity.
Qed.

Lemma needs_colon_tour_sombre : needs_char ":" re_tour_sombre.
Proof.
  unfold re_tour_sombre.
  do 8 (apply needs_char_cat_r; [suffixing_tac|]).
  apply needs_char_cat_l, needs_char_lit. left. reflexivity.
Qed.

Lemma needs_char_quiet : forall c r s, needs_char c r -> ~ In c s -> r s = [].
Proof.
  intros c r s Hr Hs. apply no_element_nil. intros rest Hin. apply Hs.
  apply (Hr _ _ Hin).
Qed.

Lemma key_ok_no_colon : forall y, key_ok y -> ~ In ":"%char y.
Proof.
  intros y (_ & Hpunct & _) Hin. rewrite Forall_forall in Hpunct.
  apply Hpunct in Hin. discriminate.
Qed.

Lemma _normalize_fixed : forall y,
  key_ok y -> begins_with_article en_articles y = false ->
  BookMerger._normalize y = y.
Proof.
  intros y Hk Hart. unfold BookMerger._normalize.
  rewrite (key_ok_prepare_fixed y Hk).
  rewrite re_sub_start_quiet.
  - apply key_ok_finish_fixed. assumption.
  - destruct Hk as (_ & _ & Hsp & _).
    apply (article_quiet en_articles y false Hsp Hart).
Qed.

Lemma normalize_title_fixed : forall y,
  key_ok y -> begins_with_article all_articles y = false ->
  prefixb (str "gwendy") y = false ->
  normalize_title y = y.
Proof.
  intros y Hk Hart Hgw. unfold normalize_title.
  rewrite (key_ok_prepare_fixed y Hk).
  rewrite (re_sub_start_quiet re_dark_tower)
    by (apply (needs_char_quiet _ _ _ needs_colon_dark_tower), key_ok_no_colon, Hk).
  rewrite (re_sub_start_quiet re_tour_sombre)
    by (apply (needs_char_quiet _ _ _ needs_colon_tour_sombre), key_ok_no_colon, Hk).
  rewrite (re_sub_start_quiet re_gwendy)
    by (unfold re_gwendy, cat; rewrite (prefixb_false_lit _ _ Hgw); reflexivity).
  rewrite re_sub_start_quiet.
  - apply key_ok_finish_fixed. assumption.
  - destruct Hk as (_ & _ & Hsp & _).
    apply (article_quiet all_articles y false Hsp Hart).
Qed.

(** C6, as the specification words it, fails: only one leading article is
    removed, so a key that itself starts with an article loses it when it is
    normalized again. *)
Lemma normalize_not_idempotent :
  BookMerger._normalize (str "The The Stand") = str "the stand" /\
  BookMerger._normalize (BookMerger._normalize (str "The The Stand")) = str "stand" /\
  normalize_title (str "The The Stand") = str "the stand" /\
  normalize_title (normalize_title (str "The The Stand")) = str "stand".
Proof. vm_compute. repeat split. Qed.

(** C6 (amended): both normalizers are idempotent on every title whose key
    does not itself start with a prefix they remove: an article of their
    article pattern followed by a space, and for [normalize_title] also
    "gwendy". *)
Theorem normalize_idempotent_without_prefix :
  (forall x,
     begins_with_article en_articles (BookMerger._normalize x) = false ->
     BookMerger._normalize (BookMerger._normalize x) = BookMerger._normalize x) /\
  (forall x,
     begins_with_article all_articles (normalize_title x) = false ->
     prefixb (str "gwendy") (normalize_title x) = false ->
     normalize_title (normalize_title x) = normalize_title x).
Proof.
  split.
  - intros x H. apply _normalize_fixed; [apply _normalize_key_ok | assumption].
  - intros x H Hg.
    apply normalize_title_fixed; [apply normalize_title_key_ok | assumption..].
Qed.

Lemma normalize_idempotent_without_prefix_witness :
  BookMerger._normalize (BookMerger._normalize (str "  The Dark Tower III: The Waste Lands "))
  = BookMerger._normalize (str "  The Dark Tower III: The Waste Lands ") /\
  normalize_title (normalize_title (str "  The Dark Tower III: The Waste Lands "))
  = normalize_title (str "  The Dark Tower III: The Waste Lands ").
Proof.
  split.
  - apply (proj1 normalize_idempotent_without_prefix). vm_compute. reflexivity.
  - apply (proj2 normalize_idempotent_without_prefix); vm_compute; reflexivity.
Defined.

(** ** The edition patterns cut the text at their first match *)

Lemma star_all_head : forall p s,
  Forall (fun c => p c = true) s -> exists l, star p s = [] :: l.
Proof.
  induction 1 as [|c s Hc _ [l IH]]; simpl.
  - exists []. reflexivity.
  - rewrite Hc, IH. exists (l ++ [c :: s]). reflexivity.
Qed.

Lemma to_end_head : forall s,
  no_line_feed s -> exists l, BookMerger.to_end s = [] :: l.
Proof.
  intros s H. unfold BookMerger.to_end, cat.
  destruct (star_all_head is_dot s H) as [l ->]. simpl. eexists. reflexivity.
Qed.

Lemma no_line_feed_app : forall a b,
  no_line_feed (a ++ b) <-> no_line_feed a /\ no_line_feed b.
Proof. intros a b. apply Forall_app. Qed.

Section Cut.

Variable head : re.
Hypothesis head_suffixing : suffixing head.
Hypothesis head_extensible : extensible head.
Hypothesis head_needs_text : needs_text head.

Lemma cat_to_end_quiet : forall s, head s = [] -> (head ;; BookMerger.to_end) s = [].
Proof. intros s H. unfold cat. rewrite H. reflexivity. Qed.

Lemma cat_to_end_match : forall s rest l,
  no_line_feed s -> head s = rest :: l ->
  exists l', (head ;; BookMerger.to_end) s = [] :: l'.
Proof.
  intros s rest l Hs H. unfold cat. rewrite H. simpl.
  destruct (head_suffixing s rest) as [pre Hpre]; [rewrite H; left; reflexivity|].
  rewrite Hpre in Hs. apply no_line_feed_app in Hs.
  destruct (to_end_head rest (proj2 Hs)) as [l' ->]. eexists. reflexivity.
Qed.

Lemma re_sub_cut : forall s,
  no_line_feed s -> re_sub (head ;; BookMerger.to_end) [] s = cut head s.
Proof.
  induction s as [|c s IH]; intro Hs; [reflexivity|].
  rewrite re_sub_cons. cbn [cut].
  destruct (head (c :: s)) as [|rest l] eqn:E.
  - rewrite (cat_to_end_quiet _ E). f_equal. apply IH.
    inversion Hs. assumption.
  - destruct (cat_to_end_match _ _ _ Hs E) as [l' ->]. reflexivity.
Qed.

Lemma cut_prefix : forall s, exists m, s = cut head s ++ m.
Proof.
  induction s as [|c s [m IH]]; simpl.
  - exists []. reflexivity.
  - destruct (head (c :: s)).
    + exists m. simpl. f_equal. assumption.
    + exists (c :: s). reflexivity.
Qed.

Lemma quiet_prefix : forall p m, quiet head (p ++ m) -> quiet head p.
Proof.
  intros p m H pre post Hp. apply no_element_nil. intros rest Hin.
  apply (head_extensible _ _ m) in Hin.
  rewrite (H pre (post ++ m)) in Hin; [contradiction|].
  rewrite Hp, app_assoc. reflexivity.
Qed.

Lemma quiet_suffix : forall a s, quiet head (a ++ s) -> quiet head s.
Proof.
  intros a s H pre post Hs. apply (H (a ++ pre) post).
  rewrite Hs, app_assoc. reflexivity.
Qed.

Lemma quiet_nil : quiet head [].
Proof.
  intros pre post H. symmetry in H. apply app_eq_nil in H. destruct H as [_ ->].
  exact head_needs_text.
Qed.

Lemma quiet_cut : forall s, quiet head (cut head s).
Proof.
  induction s as [|c s IH]; [apply quiet_nil|]. cbn [cut].
  destruct (head (c :: s)) as [|rest l] eqn:E; [|apply quiet_nil].
  intros pre post Hp. destruct pre as [|x pre]; simpl in Hp.
  - subst post. apply no_element_nil. intros rest Hin.
    destruct (cut_prefix s) as [m Hm].
    apply (head_extensible _ _ m) in Hin. simpl in Hin. rewrite <- Hm, E in Hin.
    contradiction.
  - injection Hp as _ Hp. apply (IH pre post Hp).
Qed.

Lemma cut_quiet_fixed : forall s, quiet head s -> cut head s = s.
Proof.
  induction s as [|c s IH]; intro H; [reflexivity|]. cbn [cut].
  rewrite (H [] (c :: s) eq_refl). f_equal. apply IH.
  apply (quiet_suffix [c]). exact H.
Qed.

End Cut.

Lemma cuts_quiet : forall heads s,
  Forall good_head heads ->
  Forall (fun h => quiet h (fold_left (fun r h => cut h r) heads s)) heads /\
  exists m, s = fold_left (fun r h => cut h r) heads s ++ m.
Proof.
  induction heads as [|h heads IH]; intros s Hg.
  - split; [constructor | exists []; simpl; rewrite app_nil_r; reflexivity].
  - inversion Hg as [|? ? (Hsuf & Hext & Hnt) Hg']. subst. cbn [fold_left].
    destruct (IH (cut h s) Hg') as [Hq [m Hm]].
    destruct (cut_prefix h s) as [m' Hm'].
    split.
    + constructor; [|assumption].
      apply (quiet_prefix h Hext _ m). rewrite <- Hm.
      apply quiet_cut; assumption.
    + exists (m ++ m'). rewrite app_assoc, <- Hm. assumption.
Qed.

Lemma cuts_fixed : forall heads s,
  Forall (fun h => quiet h s) heads ->
  fold_left (fun r h => cut h r) heads s = s.
Proof.
  induction 1 as [|h heads Hq _ IH]; [reflexivity|]. cbn [fold_left].
  rewrite (cut_quiet_fixed h s Hq). assumption.
Qed.

Lemma re_subs_cuts : forall heads s,
  Forall good_head heads -> no_line_feed s ->
  fold_left (fun result pattern => re_sub pattern [] result)
            (map (fun head => head ;; BookMerger.to_end) heads) s
  = fold_left (fun r h => cut h r) heads s.
Proof.
  induction heads as [|h heads IH]; intros s Hg Hs; [reflexivity|].
  inversion Hg as [|? ? (Hsuf & Hext & Hnt) Hg']. subst. cbn [map fold_left].
  rewrite (re_sub_cut h Hsuf s Hs). apply IH; [assumption|].
  destruct (cut_prefix h s) as [m Hm]. rewrite Hm in Hs.
  apply no_line_feed_app in Hs. tauto.
Qed.

Ltac extensible_tac :=
  repeat first
    [ apply extensible_opt | apply extensible_plus | apply extensible_star
    | apply extensible_cls | apply extensible_lit_ci | apply extensible_cat
    | apply extensible_alt ].

Lemma edition_heads_good : Forall good_head BookMerger.edition_heads.
Proof.
  unfold BookMerger.edition_heads.
  repeat (constructor;
          [split; [suffixing_tac | split; [extensible_tac | reflexivity]]|]).
  constructor.
Qed.

Lemma _extract_base_title_cuts : forall k,
  no_line_feed k ->
  BookMerger._extract_base_title k
  = strip (fold_left (fun r h => cut h r) BookMerger.edition_heads k).
Proof.
  intros k Hk. unfold BookMerger._extract_base_title, BookMerger.patterns.
  rewrite (re_subs_cuts _ _ edition_heads_good Hk). reflexivity.
Qed.

Lemma _extract_base_title_idem : forall k,
  no_line_feed k ->
  BookMerger._extract_base_title (BookMerger._extract_base_title k)
  = BookMerger._extract_base_title k.
Proof.
  intros k Hk. rewrite (_extract_base_title_cuts k Hk).
  destruct (cuts_quiet BookMerger.edition_heads k edition_heads_good)
    as [Hq [m Hm]].
  set (f := fold_left (fun r h => cut h r) BookMerger.edition_heads k) in *.
  destruct (strip_infix f) as (a & b & Hf).
  assert (no_line_feed (strip f)) as Hs.
  { rewrite Hm in Hk. apply no_line_feed_app in Hk. destruct Hk as [Hk _].
    rewrite Hf in Hk. apply no_line_feed_app in Hk. destruct Hk as [_ Hk].
    apply no_line_feed_app in Hk. tauto. }
  rewrite (_extract_base_title_cuts _ Hs).
  rewrite cuts_fixed; [apply strip_idem|].
  pose proof edition_heads_good as Hg.
  rewrite Forall_forall in *. intros h Hh.
  destruct (Hg h Hh) as (_ & Hext & _). specialize (Hq h Hh).
  rewrite Hf in Hq. apply quiet_suffix in Hq.
  apply (quiet_prefix h Hext _ b). assumption.
Qed.

Lemma key_ok_no_line_feed : forall k, key_ok k -> no_line_feed k.
Proof.
  intros k (_ & _ & Hsp & _). apply (single_spaced_no_line_feed k false Hsp).
Qed.

(** C10: stripping the edition variants twice is stripping them once, on
    every normalized key (lowercase, without punctuation, single-spaced),
    hence on every key either normalizer returns; it holds more generally
    for every text without a line feed. *)
Theorem _extract_base_title_idempotent :
  (forall k, key_ok k ->
     BookMerger._extract_base_title (BookMerger._extract_base_title k)
     = BookMerger._extract_base_title k) /\
  (forall title,
     BookMerger._extract_base_title
       (BookMerger._extract_base_title (BookMerger._normalize title))
     = BookMerger._extract_base_title (BookMerger._normalize title)) /\
  (forall k, no_line_feed k ->
     BookMerger._extract_base_title (BookMerger._extract_base_title k)
     = BookMerger._extract_base_title k).
Proof.
  split; [|split].
  - intros k Hk. apply _extract_base_title_idem, key_ok_no_line_feed, Hk.
  - intro title.
    apply _extract_base_title_idem, key_ok_no_line_feed, _normalize_key_ok.
  - apply _extract_base_title_idem.
Qed.

Lemma _extract_base_title_idempotent_witness :
  BookMerger._extract_base_title
    (BookMerger._extract_base_title (str "the stand the complete and uncut edition"))
  = BookMerger._extract_base_title (str "the stand the complete and uncut edition").
Proof.
  apply (proj1 _extract_base_title_idempotent). unfold key_ok.
  split; [|split; [|split]]; try reflexivity; repeat constructor.
Defined.

(** ** The two normalizers *)

Lemma alts_app : forall rs1 rs2 s, alts (rs1 ++ rs2) s = alts rs1 s ++ alts rs2 s.
Proof.
  induction rs1 as [|r rs1 IH]; intros rs2 s; simpl; [reflexivity|].
  unfold alt. rewrite IH, app_assoc. reflexivity.
Qed.

Lemma article_ws_quiet : forall articles u,
  begins_with_article_ws articles u = false ->
  (alts (map lit articles) ;; plus is_space) u = [].
Proof.
  intros articles u Hart. apply no_element_nil. intros rest Hin.
  apply cat_In in Hin. destruct Hin as (mid & Hmid & Hrest).
  apply alts_In in Hmid. destruct Hmid as (r & Hr & Hmid).
  apply in_map_iff in Hr. destruct Hr as (art & <- & Hart_in).
  apply lit_In in Hmid.
  apply plus_In_head in Hrest. destruct Hrest as (c & mid' & -> & Hc).
  assert (begins_with_article_ws articles u = true) as Habs.
  { unfold begins_with_article_ws. apply existsb_exists. exists art.
    split; [assumption|]. unfold followed_by_space.
    rewrite Hmid, prefixb_app_true, skipn_app, skipn_all, Nat.sub_diag.
    simpl. assumption. }
  congruence.
Qed.

Lemma re_article_split : forall u,
  re_article u =
  BookMerger.re_article u ++ (alts (map lit fr_articles) ;; plus is_space) u.
Proof.
  intro u. unfold re_article, BookMerger.re_article, cat.
  change [lit "the"; lit "a"; lit "an"; lit "le"; lit "la"; lit "les";
          lit "l'"; lit "un"; lit "une"]
    with ([lit "the"; lit "a"; lit "an"] ++ map lit fr_articles).
  rewrite alts_app, flat_map_app. reflexivity.
Qed.

Lemma In_strip : forall c s, In c (strip s) -> In c s.
Proof.
  intros c s H. destruct (strip_infix s) as (a & b & Hs). rewrite Hs.
  apply in_or_app. right. apply in_or_app. left. assumption.
Qed.

Lemma no_colon_prepared : forall t, ~ In ":"%char t -> ~ In ":"%char (strip (lower t)).
Proof.
  intros t Ht Hin. apply In_strip in Hin. unfold lower in Hin.
  apply in_map_iff in Hin. destruct Hin as (c & Hc & Hin).
  apply lower_char_colon in Hc. subst c. contradiction.
Qed.

Lemma normalizers_agree : forall t,
  ~ In ":"%char t ->
  prefixb (str "gwendy") (strip (lower t)) = false ->
  begins_with_article_ws fr_articles (strip (lower t)) = false ->
  normalize_title t = BookMerger._normalize t.
Proof.
  intros t Hcolon Hgw Hfr. unfold normalize_title, BookMerger._normalize.
  apply no_colon_prepared in Hcolon.
  rewrite (re_sub_start_quiet re_dark_tower)
    by apply (needs_char_quiet _ _ _ needs_colon_dark_tower Hcolon).
  rewrite (re_sub_start_quiet re_tour_sombre)
    by apply (needs_char_quiet _ _ _ needs_colon_tour_sombre Hcolon).
  rewrite (re_sub_start_quiet re_gwendy)
    by (unfold re_gwendy, cat; rewrite (prefixb_false_lit _ _ Hgw); reflexivity).
  unfold re_sub_start.
  rewrite re_article_split, (article_ws_quiet _ _ Hfr), app_nil_r.
  reflexivity.
Qed.

Lemma plus_space_head : forall w ws body,
  is_space w = true -> Forall (fun c => is_space c = true) ws -> no_lead body ->
  exists l, plus is_space (w :: ws ++ body) = body :: l.
Proof.
  intros w ws body Hw Hws Hb. unfold plus, cat. simpl. rewrite Hw. simpl.
  rewrite app_nil_r. destruct (star_space_head (ws ++ body)) as [l ->].
  exists l. f_equal. induction Hws as [|c ws Hc _ IH]; simpl.
  - apply no_lead_lstrip. assumption.
  - rewrite Hc. assumption.
Qed.

Lemma merger_article_removed : forall art w ws body,
  In art en_articles ->
  is_space w = true -> Forall (fun c => is_space c = true) ws -> no_lead body ->
  re_sub_start BookMerger.re_article [] (str art ++ w :: ws ++ body) = body.
Proof.
  intros art w ws body Hart Hw Hws Hb.
  destruct (plus_space_head w ws body Hw Hws Hb) as [l Hl].
  unfold re_sub_start, BookMerger.re_article, cat, alts, alt.
  destruct Hart as [<- | [<- | [<- | []]]]; simpl.
  - rewrite app_nil_r, Hl. reflexivity.
  - rewrite Hl. reflexivity.
  - rewrite Hl. reflexivity.
Qed.

Lemma merger_prefix_kept : forall p rest,
  In p kept_by_merger ->
  re_sub_start BookMerger.re_article [] (str p ++ rest) = str p ++ rest.
Proof.
  intros p rest Hp. simpl in Hp.
  repeat (destruct Hp as [<- | Hp]; [reflexivity|]). contradiction.
Qed.

(** C5, as stated of the merger, fails: the merger builds its keys with its
    own [_normalize], which keeps series prefixes, the Gwendy marker and
    French articles; [normalize_title] is the one that removes them. *)
Lemma merger_normalize_keeps_prefixes :
  BookMerger._normalize (str "Dark Tower III: The Waste Lands")
    = str "dark tower iii the waste lands" /\
  BookMerger._normalize (str "La Tour Sombre V : Les Loups de la Calla")
    = str "la tour sombre v les loups de la calla" /\
  BookMerger._normalize (str "Gwendy's Button Box") = str "gwendys button box" /\
  BookMerger._normalize (str "Le Fleau") = str "le fleau" /\
  normalize_title (str "Dark Tower III: The Waste Lands") = str "waste lands" /\
  normalize_title (str "La Tour Sombre V : Les Loups de la Calla")
    = str "loups de la calla" /\
  normalize_title (str "Gwendy's Button Box") = str "button box" /\
  normalize_title (str "Le Fleau") = str "fleau".
Proof. vm_compute. repeat split. Qed.

(** C5 (amended): before it removes punctuation and collapses white space,
    the merger's normalization removes one leading English article (the, a,
    an) with the white space after it, and nothing else: a title that begins
    with a French article, "dark" or "gwendy" goes through unchanged.  On a
    title without a colon whose lowercased, trimmed text begins neither with
    "gwendy" nor with a French article followed by white space, the merger's
    key is the key of [normalize_title]. *)
Theorem merger_normalization_scope :
  (forall art w ws body,
     In art en_articles ->
     is_space w = true -> Forall (fun c => is_space c = true) ws -> no_lead body ->
     re_sub_start BookMerger.re_article [] (str art ++ w :: ws ++ body) = body) /\
  (forall p rest,
     In p kept_by_merger ->
     re_sub_start BookMerger.re_article [] (str p ++ rest) = str p ++ rest) /\
  (forall t,
     ~ In ":"%char t ->
     prefixb (str "gwendy") (strip (lower t)) = false ->
     begins_with_article_ws fr_articles (strip (lower t)) = false ->
     BookMerger._normalize t = normalize_title t).
Proof.
  split; [|split].
  - apply merger_article_removed.
  - apply merger_prefix_kept.
  - intros t H1 H2 H3. symmetry. apply normalizers_agree; assumption.
Qed.

Lemma merger_normalization_scope_witness :
  re_sub_start BookMerger.re_article [] (str "the  stand") = str "stand" /\
  re_sub_start BookMerger.re_article [] (str "le fleau") = str "le fleau" /\
  BookMerger._normalize (str "The Stand!") = normalize_title (str "The Stand!").
Proof.
  destruct merger_normalization_scope as (H1 & H2 & H3).
  split; [|split].
  - apply (H1 "the"%string " "%char [" "%char] (str "stand"));
      [left; reflexivity | reflexivity | repeat constructor | reflexivity].
  - apply (H2 "le"%string (str " fleau")). left. reflexivity.
  - apply H3; [|reflexivity|reflexivity].
    simpl. intros [H|[H|[H|[H|[H|[H|[H|[H|[H|[H|[]]]]]]]]]]]; discriminate H.
Defined.

(** ** Dicts, the store and the field-level merge *)

Lemma dict_get_set_eq : forall d k v, dict_get (dict_set d k v) k = Some v.
Proof.
  induction d as [|[k' v'] d IH]; intros k v; simpl.
  - rewrite pystr_eqb_refl. reflexivity.
  - destruct (pystr_eqb k k') eqn:E; simpl; rewrite E; [reflexivity | apply IH].
Qed.

Lemma dict_get_set_neq : forall d k v g,
  g <> k -> dict_get (dict_set d k v) g = dict_get d g.
Proof.
  induction d as [|[k' v'] d IH]; intros k v g Hg; simpl.
  - apply pystr_eqb_neq in Hg. rewrite Hg. reflexivity.
  - destruct (pystr_eqb k k') eqn:E; simpl.
    + apply pystr_eqb_eq in E. subst k'. apply pystr_eqb_neq in Hg.
      rewrite Hg. reflexivity.
    + destruct (pystr_eqb g k'); [reflexivity | apply IH; assumption].
Qed.

Lemma dict_get_In : forall d k v, dict_get d k = Some v -> In (k, v) d.
Proof.
  induction d as [|[k' v'] d IH]; intros k v H; simpl in H; [discriminate|].
  destruct (pystr_eqb k k') eqn:E.
  - apply pystr_eqb_eq in E. subst k'. injection H as ->. left. reflexivity.
  - right. apply IH. assumption.
Qed.

Lemma store_set_length : forall h r o, length (store_set h r o) = length h.
Proof.
  induction h as [|x h IH]; intros [|r] o; simpl; try reflexivity.
  rewrite IH. reflexivity.
Qed.

Lemma nth_error_store_set_eq : forall h r o x,
  nth_error h r = Some x -> nth_error (store_set h r o) r = Some o.
Proof.
  induction h as [|y h IH]; intros [|r] o x H; simpl in *; try discriminate.
  - reflexivity.
  - apply (IH r o x H).
Qed.

Lemma nth_error_store_set_neq : forall h r o r',
  r' <> r -> nth_error (store_set h r o) r' = nth_error h r'.
Proof.
  induction h as [|y h IH]; intros [|r] o [|r'] H; simpl; try reflexivity.
  - congruence.
  - apply IH. congruence.
Qed.

Lemma covers_refl : forall f v, covers f v v.
Proof.
  intros f v. split; [tauto|]. intros _ n -> _. exists n. split; [reflexivity | lia].
Qed.

Lemma covers_trans : forall f a b c, covers f a b -> covers f b c -> covers f a c.
Proof.
  intros f a b c [Hab1 Hab2] [Hbc1 Hbc2]. split; [tauto|].
  intros Hf n Ha Hn. destruct (Hab2 Hf n Ha Hn) as (m & Hb & Hnm).
  assert (m <> []) as Hm by (destruct m; [destruct n; simpl in *; [congruence | lia] | discriminate]).
  destruct (Hbc2 Hf m Hb Hm) as (m' & Hc & Hmm').
  exists m'. split; [assumption | lia].
Qed.

Lemma kept_refl : forall f v, kept f v v.
Proof. intros f v. split; [apply covers_refl | reflexivity]. Qed.

Lemma kept_trans : forall f a b c, kept f a b -> kept f b c -> kept f a c.
Proof.
  intros f a b c [Hab Hab'] [Hbc Hbc']. split.
  - apply (covers_trans f a b c Hab Hbc).
  - intros Hf Ha. rewrite <- (Hab' Hf Ha). apply Hbc'; [assumption|].
    rewrite (Hab' Hf Ha). assumption.
Qed.

Lemma dict_kept_refl : forall d, dict_kept d d.
Proof. intros d f v H. exists v. split; [assumption | apply kept_refl]. Qed.

Lemma dict_kept_trans : forall a b c, dict_kept a b -> dict_kept b c -> dict_kept a c.
Proof.
  intros a b c Hab Hbc f v H. destruct (Hab f v H) as (v1 & H1 & K1).
  destruct (Hbc f v1 H1) as (v2 & H2 & K2). exists v2.
  split; [assumption | apply (kept_trans f v v1 v2 K1 K2)].
Qed.

Lemma dict_covers_kept : forall a b c, dict_covers a b -> dict_kept b c -> dict_covers a c.
Proof.
  intros a b c Hab Hbc f v H. destruct (Hab f v H) as (v1 & H1 & K1).
  destruct (Hbc f v1 H1) as (v2 & H2 & [K2 _]). exists v2.
  split; [assumption | apply (covers_trans f v v1 v2 K1 K2)].
Qed.

Lemma dict_kept_covers : forall a b c, dict_kept a b -> dict_covers b c -> dict_covers a c.
Proof.
  intros a b c Hab Hbc f v H. destruct (Hab f v H) as (v1 & H1 & [K1 _]).
  destruct (Hbc f v1 H1) as (v2 & H2 & K2). exists v2.
  split; [assumption | apply (covers_trans f v v1 v2 K1 K2)].
Qed.

Lemma truthy_str : forall n, truthy (VStr n) = true <-> n <> [].
Proof. intros [|c n]; simpl; split; congruence. Qed.

Lemma kept_overwrite_empty : forall f old v, truthy old = false -> kept f old v.
Proof.
  intros f old v Hold. split; [split|]; try congruence.
  intros _ n -> Hn. apply truthy_str in Hn. congruence.
Qed.

Lemma dict_kept_set : forall d f v,
  (forall old, dict_get d f = Some old -> kept f old v) ->
  dict_kept d (dict_set d f v).
Proof.
  intros d f v H g w Hg. destruct (list_eq_dec ascii_dec g f) as [-> | Hne].
  - exists v. split; [apply dict_get_set_eq | apply H; assumption].
  - exists w. rewrite dict_get_set_neq by assumption.
    split; [assumption | apply kept_refl].
Qed.

Lemma merge_item_spec : forall d f v d',
  BookMerger.merge_item d (f, v) = Some d' ->
  (exists v', dict_get d' f = Some v' /\ covers f v v') /\ dict_kept d d'.
Proof.
  intros d f v d'. unfold BookMerger.merge_item.
  destruct (dict_get d f) as [old|] eqn:Hget.
  - destruct (truthy old) eqn:Hold; cbn [negb].
    + destruct (pystr_eqb f (str "Raw_Info") && truthy v) eqn:Hraw.
      * apply andb_true_iff in Hraw. destruct Hraw as [Hf Hv].
        apply pystr_eqb_eq in Hf.
        destruct v as [| | |s]; cbn [py_len]; try (intro; discriminate).
        destruct old as [| | |o]; cbn [py_len]; try (intro; discriminate).
        destruct (Nat.ltb_spec (length o) (length s)) as [Hlt | Hge];
          intro H; injection H as <-.
        -- split.
           ++ exists (VStr s). split; [apply dict_get_set_eq | apply covers_refl].
           ++ apply dict_kept_set. intros old' Hold'.
              rewrite Hget in Hold'. injection Hold' as <-.
              split; [split|]; try tauto.
              intros _ n Hn _. injection Hn as <-. exists s.
              split; [reflexivity | lia].
        -- split; [|apply dict_kept_refl].
           exists (VStr o). split; [assumption|]. split; [tauto|].
           intros _ n Hn _. injection Hn as <-. exists o.
           split; [reflexivity | lia].
      * intro H. injection H as <-. split; [|apply dict_kept_refl].
        exists old. split; [assumption|]. split; [tauto|].
        intros Hf n -> Hn. apply truthy_str in Hn.
        apply pystr_eqb_eq in Hf. rewrite Hf, Hn in Hraw. discriminate.
    + intro H. injection H as <-. split.
      * exists v. split; [apply dict_get_set_eq | apply covers_refl].
      * apply dict_kept_set. intros old' Hold'.
        rewrite Hget in Hold'. injection Hold' as <-.
        apply kept_overwrite_empty. assumption.
  - intro H. injection H as <-. split.
    + exists v. split; [apply dict_get_set_eq | apply covers_refl].
    + apply dict_kept_set. intros old Hold. congruence.
Qed.

Lemma merge_items_spec : forall dn de de',
  fold_m BookMerger.merge_item dn de = Some de' ->
  (forall f v, In (f, v) dn -> exists v', dict_get de' f = Some v' /\ covers f v v') /\
  dict_kept de de'.
Proof.
  induction dn as [|[f v] dn IH]; intros de de' H; cbn [fold_m] in H.
  - injection H as <-. split; [intros f v []| apply dict_kept_refl].
  - destruct (BookMerger.merge_item de (f, v)) as [d1|] eqn:E; [|discriminate H].
    apply merge_item_spec in E. destruct E as [(v1 & Hv1 & Hc1) Hk1].
    destruct (IH d1 de' H) as [Hcov Hk]. split.
    + intros g w [Heq | Hin].
      * injection Heq as <- <-. destruct (Hk f v1 Hv1) as (v' & Hv' & [Hc' _]).
        exists v'. split; [assumption | apply (covers_trans f v v1 v' Hc1 Hc')].
      * apply Hcov. assumption.
    + apply (dict_kept_trans de d1 de' Hk1 Hk).
Qed.

Lemma _merge_book_data_spec : forall h kept_ref book h',
  BookMerger._merge_book_data h kept_ref book = Some h' ->
  exists de dn de',
    nth_error h kept_ref = Some (ODict de) /\
    nth_error h book = Some (ODict dn) /\
    h' = store_set h kept_ref (ODict de') /\
    dict_kept de de' /\ dict_covers dn de'.
Proof.
  intros h r b h'. unfold BookMerger._merge_book_data.
  destruct (nth_error h r) as [[de|]|] eqn:Hr; try discriminate.
  destruct (nth_error h b) as [[dn|]|] eqn:Hb; try discriminate.
  destruct (fold_m BookMerger.merge_item dn de) as [de'|] eqn:E; [|discriminate].
  intro H. injection H as <-. apply merge_items_spec in E. destruct E as [Hc Hk].
  exists de, dn, de'. repeat split; try assumption.
  intros f v Hf. apply Hc. apply dict_get_In. assumption.
Qed.

(** ** How the store evolves *)

Lemma evolves_refl : forall h, evolves h h.
Proof.
  intro h. split; [reflexivity|]. intro r.
  destruct (nth_error h r) as [[d|]|]; try reflexivity.
  exists d. split; [reflexivity | apply dict_kept_refl].
Qed.

Lemma evolves_trans : forall a b c, evolves a b -> evolves b c -> evolves a c.
Proof.
  intros a b c [Hl1 H1] [Hl2 H2]. split; [congruence|]. intro r.
  specialize (H1 r). specialize (H2 r).
  destruct (nth_error a r) as [[d|]|].
  - destruct H1 as (d1 & Hb & K1). rewrite Hb in H2.
    destruct H2 as (d2 & Hc & K2). exists d2.
    split; [assumption | apply (dict_kept_trans d d1 d2 K1 K2)].
  - rewrite H1 in H2. assumption.
  - rewrite H1 in H2. assumption.
Qed.

Lemma evolves_store_set : forall h r d d',
  nth_error h r = Some (ODict d) -> dict_kept d d' ->
  evolves h (store_set h r (ODict d')).
Proof.
  intros h r d d' Hr Hk. split; [apply store_set_length|]. intro r'.
  destruct (Nat.eq_dec r' r) as [-> | Hne].
  - rewrite Hr. exists d'. split; [|assumption].
    apply (nth_error_store_set_eq h r (ODict d') (ODict d) Hr).
  - rewrite nth_error_store_set_neq by assumption.
    destruct (nth_error h r') as [[d0|]|]; try reflexivity.
    exists d0. split; [reflexivity | apply dict_kept_refl].
Qed.

Lemma title_of_evolves : forall h h' r t,
  evolves h h' -> title_of h r = Some t -> title_of h' r = Some t.
Proof.
  intros h h' r t [_ He] H. unfold title_of in *. specialize (He r).
  destruct (nth_error h r) as [[d|]|]; try discriminate.
  destruct He as (d' & -> & Hk).
  destruct (dict_get d (str "Titre_VO")) as [[| | |[|c s]]|] eqn:Hd; try discriminate.
  injection H as <-.
  destruct (Hk _ _ Hd) as (v' & -> & [_ Hv]).
  rewrite Hv; [reflexivity | discriminate | reflexivity].
Qed.

Lemma title_of_some : forall h r t,
  title_of h r = Some t ->
  exists d, nth_error h r = Some (ODict d) /\
            dict_get d (str "Titre_VO") = Some (VStr t) /\ t <> [].
Proof.
  intros h r t H. unfold title_of in H.
  destruct (nth_error h r) as [[d|]|]; try discriminate.
  destruct (dict_get d (str "Titre_VO")) as [[| | |[|c s]]|] eqn:Hd; try discriminate.
  injection H as <-. exists d. repeat split; [assumption | discriminate].
Qed.

(** ** The loops of [merge] *)

Lemma all_books_get_In : forall ab k r,
  BookMerger.all_books_get ab k = Some r -> In (k, r) ab.
Proof.
  induction ab as [|[k' r'] ab IH]; intros k r H; simpl in H; [discriminate|].
  destruct (pystr_eqb k k') eqn:E.
  - apply pystr_eqb_eq in E. subst k'. injection H as ->. left. reflexivity.
  - right. apply IH. assumption.
Qed.

Lemma all_books_get_None : forall ab k,
  BookMerger.all_books_get ab k = None -> ~ In k (map fst ab).
Proof.
  induction ab as [|[k' r'] ab IH]; intros k H; simpl in *; [tauto|].
  destruct (pystr_eqb k k') eqn:E; [discriminate|].
  apply pystr_eqb_neq in E. intros [Heq | Hin]; [congruence | apply (IH k H Hin)].
Qed.

Lemma all_books_get_app_found : forall ab l k r,
  BookMerger.all_books_get ab k = Some r ->
  BookMerger.all_books_get (ab ++ l) k = Some r.
Proof.
  induction ab as [|[k' r'] ab IH]; intros l k r H; simpl in *; [discriminate|].
  destruct (pystr_eqb k k'); [assumption | apply IH; assumption].
Qed.

Lemma all_books_get_app_new : forall ab k r,
  BookMerger.all_books_get ab k = None ->
  BookMerger.all_books_get (ab ++ [(k, r)]) k = Some r.
Proof.
  induction ab as [|[k' r'] ab IH]; intros k r H; simpl in *.
  - rewrite pystr_eqb_refl. reflexivity.
  - destruct (pystr_eqb k k'); [discriminate | apply IH; assumption].
Qed.

Lemma all_books_get_NoDup : forall ab k r,
  NoDup (map fst ab) -> In (k, r) ab -> BookMerger.all_books_get ab k = Some r.
Proof.
  induction ab as [|[k' r'] ab IH]; intros k r Hnd Hin; simpl in *; [contradiction|].
  inversion Hnd as [|? ? Hnotin Hnd']. subst.
  destruct Hin as [Heq | Hin].
  - injection Heq as -> ->. rewrite pystr_eqb_refl. reflexivity.
  - destruct (pystr_eqb k k') eqn:E.
    + apply pystr_eqb_eq in E. subst k'. exfalso. apply Hnotin.
      apply in_map_iff. exists (k, r). split; [reflexivity | assumption].
    + apply IH; assumption.
Qed.

Lemma NoDup_snoc : forall (A : Type) (l : list A) x,
  NoDup l -> ~ In x l -> NoDup (l ++ [x]).
Proof.
  induction l as [|y l IH]; intros x Hnd Hx; simpl.
  - constructor; [tauto | constructor].
  - inversion Hnd as [|? ? Hy Hnd']. subst. constructor.
    + intro Hin. apply in_app_or in Hin. destruct Hin as [Hin | [-> | []]].
      * contradiction.
      * apply Hx. left. reflexivity.
    + apply IH; [assumption|]. intro Hin. apply Hx. right. assumption.
Qed.

Lemma merge_book_cases : forall known h ab b h' ab',
  BookMerger.merge_book known (h, ab) b = Some (h', ab') ->
  (h' = h /\ ab' = ab /\
   (title_of h b = None \/
    exists t, title_of h b = Some t /\
              BookMerger._is_existing (BookMerger._normalize t) known = true)) \/
  (exists t, title_of h b = Some t /\
     BookMerger._is_existing (BookMerger._normalize t) known = false /\
     ((BookMerger.all_books_get ab (BookMerger._normalize t) = None /\
       h' = h /\ ab' = ab ++ [(BookMerger._normalize t, b)]) \/
      (exists r, BookMerger.all_books_get ab (BookMerger._normalize t) = Some r /\
                 ab' = ab /\ BookMerger._merge_book_data h r b = Some h'))).
Proof.
  intros known h ab b h' ab'. unfold BookMerger.merge_book, title_of, dict_get_or.
  destruct (nth_error h b) as [[d|]|]; try discriminate.
  destruct (dict_get d (str "Titre_VO")) as [[|x|z|[|c s]]|]; cbn [truthy negb is_empty].
  - intro H. injection H as <- <-. left. tauto.
  - destruct x; cbn [negb]; [discriminate|].
    intro H. injection H as <- <-. left. tauto.
  - destruct (z =? 0)%Z; cbn [negb]; [|discriminate].
    intro H. injection H as <- <-. left. tauto.
  - intro H. injection H as <- <-. left. tauto.
  - destruct (BookMerger._is_existing (BookMerger._normalize (c :: s)) known) eqn:Hex.
    + intro H. injection H as <- <-. left. repeat split. right.
      exists (c :: s). split; [reflexivity | assumption].
    + destruct (BookMerger.all_books_get ab (BookMerger._normalize (c :: s)))
        as [r|] eqn:Hget.
      * destruct (BookMerger._merge_book_data h r b) as [h1|] eqn:Hdata;
          [|discriminate].
        intro H. injection H as <- <-. right. exists (c :: s).
        split; [reflexivity|]. split; [assumption|]. right. exists r. tauto.
      * intro H. injection H as <- <-. right. exists (c :: s).
        split; [reflexivity|]. split; [assumption|]. left. tauto.
  - intro H. injection H as <- <-. left. tauto.
Qed.

Lemma dict_covers_refl : forall d, dict_covers d d.
Proof. intros d f v H. exists v. split; [assumption | apply covers_refl]. Qed.

Lemma evolves_covers : forall h0 h b d0,
  evolves h0 h -> nth_error h0 b = Some (ODict d0) ->
  exists d, nth_error h b = Some (ODict d) /\ dict_kept d0 d.
Proof.
  intros h0 h b d0 [_ He] Hb. specialize (He b). rewrite Hb in He. assumption.
Qed.

Lemma current_title_original : forall h0 known done h ab b t,
  merge_inv h0 known done (h, ab) ->
  title_of h b = Some t -> title_of h0 b = Some t.
Proof.
  intros h0 known done h ab b t (Hev & _ & Hframe & Hkeys & _) Ht.
  destruct (in_dec Nat.eq_dec b (map snd ab)) as [Hin | Hnot].
  - apply in_map_iff in Hin. destruct Hin as ([k r] & Hr & Hin). simpl in Hr.
    subst r. destruct (Hkeys k b Hin) as (_ & t0 & Ht0 & _).
    pose proof (title_of_evolves h0 h b t0 Hev Ht0) as Ht0'. congruence.
  - unfold title_of in *. rewrite <- (Hframe b Hnot). assumption.
Qed.

Lemma kept_under_its_key : forall h0 known done h ab b t,
  merge_inv h0 known done (h, ab) ->
  title_of h b = Some t -> In b (map snd ab) ->
  In (BookMerger._normalize t, b) ab.
Proof.
  intros h0 known done h ab b t (Hev & _ & _ & Hkeys & _) Ht Hin.
  apply in_map_iff in Hin. destruct Hin as ([k r] & Hr & Hin). simpl in Hr.
  subst r. destruct (Hkeys k b Hin) as (_ & t0 & Ht0 & Hk & _).
  pose proof (title_of_evolves h0 h b t0 Hev Ht0) as Ht0'.
  assert (t0 = t) as -> by congruence. subst k. assumption.
Qed.

Lemma dict_set_In : forall d f v item,
  In item (dict_set d f v) -> In item d \/ item = (f, v).
Proof.
  induction d as [|[k' v'] d IH]; intros f v item H; simpl in H.
  - destruct H as [<- | []]. right. reflexivity.
  - destruct (pystr_eqb f k') eqn:E.
    + apply pystr_eqb_eq in E. subst k'. destruct H as [<- | H].
      * right. reflexivity.
      * left. right. assumption.
    + destruct H as [<- | H]; [left; left; reflexivity|].
      destruct (IH _ _ _ H) as [H' | H']; [left; right; assumption | right; assumption].
Qed.

Lemma merge_item_In : forall d fv d' item,
  BookMerger.merge_item d fv = Some d' -> In item d' -> In item d \/ item = fv.
Proof.
  intros d [f v] d' item. unfold BookMerger.merge_item.
  destruct (dict_get d f) as [old|].
  - destruct (negb (truthy old)).
    + intro H. injection H as <-. apply dict_set_In.
    + destruct (pystr_eqb f (str "Raw_Info") && truthy v).
      * destruct (py_len v) as [n|]; [|discriminate].
        destruct (py_len old) as [m|]; [|discriminate].
        destruct (m <? n); intro H; injection H as <-;
          [apply dict_set_In | tauto].
      * intro H. injection H as <-. tauto.
  - intro H. injection H as <-. apply dict_set_In.
Qed.

Lemma merge_items_In : forall dn de de' item,
  fold_m BookMerger.merge_item dn de = Some de' ->
  In item de' -> In item de \/ In item dn.
Proof.
  induction dn as [|fv dn IH]; intros de de' item H Hin; cbn [fold_m] in H.
  - injection H as <-. left. assumption.
  - destruct (BookMerger.merge_item de fv) as [d1|] eqn:E; [|discriminate H].
    destruct (IH d1 de' item H Hin) as [H1 | H1]; [|right; right; assumption].
    destruct (merge_item_In de fv d1 item E H1) as [H2 | ->];
      [left; assumption | right; left; reflexivity].
Qed.

Lemma _merge_book_data_In : forall h r b h' de dn de' item,
  BookMerger._merge_book_data h r b = Some h' ->
  nth_error h r = Some (ODict de) -> nth_error h b = Some (ODict dn) ->
  h' = store_set h r (ODict de') ->
  In item de' -> In item de \/ In item dn.
Proof.
  intros h r b h' de dn de' item H Hr Hb Hh' Hin.
  unfold BookMerger._merge_book_data in H. rewrite Hr, Hb in H.
  destruct (fold_m BookMerger.merge_item dn de) as [de1|] eqn:E; [|discriminate H].
  injection H as <-.
  assert (nth_error (store_set h r (ODict de1)) r
          = nth_error (store_set h r (ODict de')) r) as Heq by (rewrite Hh'; reflexivity).
  rewrite !(nth_error_store_set_eq h r _ (ODict de) Hr) in Heq.
  injection Heq as ->. apply (merge_items_In dn de de' item E Hin).
Qed.

Lemma merge_book_inv : forall h0 known done st b st',
  merge_inv h0 known done st ->
  BookMerger.merge_book known st b = Some st' ->
  merge_inv h0 known (done ++ [b]) st'.
Proof.
  intros h0 known done [h ab] b [h' ab'] Hinv Hstep.
  pose proof (current_title_original h0 known done h ab b) as Horig.
  specialize (Horig) with (1 := Hinv).
  pose proof (kept_under_its_key h0 known done h ab b) as Hself.
  specialize (Hself) with (1 := Hinv).
  destruct Hinv as (Hev & Hnd & Hframe & Hkeys & Hcov & Hprov).
  assert (forall k r, In (k, r) ab ->
            In r (done ++ [b]) /\
            exists t, title_of h0 r = Some t /\ BookMerger._normalize t = k /\
                      BookMerger._is_existing k known = false) as Hkeys'.
  { intros k r Hin. destruct (Hkeys k r Hin) as [Hd Ht].
    split; [apply in_or_app; left; assumption | assumption]. }
  assert (forall k r d item, In (k, r) ab ->
            nth_error h r = Some (ODict d) -> In item d ->
            exists b' d0, In b' (done ++ [b]) /\ key_of h0 b' = Some k /\
                          nth_error h0 b' = Some (ODict d0) /\ In item d0) as Hprov'.
  { intros k r d item Hin Hr Hitem.
    destruct (Hprov k r d item Hin Hr Hitem) as (b' & d0 & Hb' & H').
    exists b', d0. split; [apply in_or_app; left; assumption | assumption]. }
  destruct (merge_book_cases known h ab b h' ab' Hstep)
    as [(-> & -> & Hskip)
       | (t & Ht & Hex & [(Hnone & -> & ->) | (r & Hsome & -> & Hdata)])].
  - (* the record is skipped *)
    split; [|split; [|split; [|split; [|split]]]]; try assumption.
    intros b' t' Hin Ht' Hex'. apply in_app_or in Hin.
    destruct Hin as [Hin | [<- | []]]; [apply Hcov; assumption|].
    pose proof (title_of_evolves h0 h b t' Hev Ht') as Hcur.
    destruct Hskip as [Hn | (t0 & Ht0 & Hex0)]; congruence.
  - (* the record is the first of its key *)
    assert (~ In b (map snd ab)) as Hfresh.
    { intro Hin. apply (all_books_get_None ab _ Hnone).
      apply in_map_iff. exists (BookMerger._normalize t, b).
      split; [reflexivity | apply Hself; assumption]. }
    split; [|split; [|split; [|split; [|split]]]]; try assumption.
    + rewrite map_app. apply NoDup_snoc; [assumption|].
      apply all_books_get_None. assumption.
    + intros r Hr. apply Hframe. intro Hin. apply Hr.
      rewrite map_app. apply in_or_app. left. assumption.
    + intros k r Hin. apply in_app_or in Hin.
      destruct Hin as [Hin | [Heq | []]]; [apply Hkeys'; assumption|].
      injection Heq as <- <-.
      split; [apply in_or_app; right; left; reflexivity|]. exists t.
      split; [apply Horig; assumption | split; [reflexivity | assumption]].
    + intros b' t' Hin Ht' Hex'. apply in_app_or in Hin.
      destruct Hin as [Hin | [<- | []]].
      * destruct (Hcov b' t' Hin Ht' Hex') as (r & d0 & d & Hr & Hb & Hd & Hc).
        exists r, d0, d.
        split; [apply all_books_get_app_found; assumption | tauto].
      * pose proof (title_of_evolves h0 h b t' Hev Ht') as Hcur.
        assert (t' = t) as -> by congruence.
        destruct (title_of_some h0 b t Ht') as (d0 & Hb0 & _).
        destruct (evolves_covers h0 h b d0 Hev Hb0) as (d & Hd & Hk).
        exists b, d0, d.
        split; [apply all_books_get_app_new; assumption|].
        split; [assumption|]. split; [assumption|].
        apply (dict_kept_covers d0 d d Hk (dict_covers_refl d)).
    + intros k r d item Hin Hr Hitem. apply in_app_or in Hin.
      destruct Hin as [Hin | [Heq | []]]; [apply (Hprov' k r d item); assumption|].
      injection Heq as <- <-. exists b, d.
      split; [apply in_or_app; right; left; reflexivity|].
      split; [unfold key_of; rewrite (Horig t Ht); reflexivity|].
      split; [rewrite <- (Hframe b Hfresh); assumption | assumption].
  - (* the record is folded into the one kept for its key *)
    destruct (_merge_book_data_spec h r b h' Hdata)
      as (de & dn & de' & Hr & Hb & Hh' & Hk & Hc).
    pose proof (_merge_book_data_In h r b h' de dn de') as Hitems.
    specialize (Hitems) with (1 := Hdata) (2 := Hr) (3 := Hb) (4 := Hh').
    subst h'.
    pose proof (all_books_get_In ab _ r Hsome) as Hkr.
    split; [|split; [|split; [|split; [|split]]]]; try assumption.
    + apply (evolves_trans h0 h _ Hev (evolves_store_set h r de de' Hr Hk)).
    + intros r' Hr'. rewrite nth_error_store_set_neq; [apply Hframe; assumption|].
      intros ->. apply Hr'. apply in_map_iff. exists (BookMerger._normalize t, r).
      split; [reflexivity | assumption].
    + intros b' t' Hin Ht' Hex'. apply in_app_or in Hin.
      destruct Hin as [Hin | [<- | []]].
      * destruct (Hcov b' t' Hin Ht' Hex') as (r1 & d0 & d1 & Hr1 & Hb1 & Hd1 & Hc1).
        destruct (Nat.eq_dec r1 r) as [-> | Hne].
        -- exists r, d0, de'. split; [assumption|]. split; [assumption|].
           split; [apply (nth_error_store_set_eq h r (ODict de') (ODict de) Hr)|].
           assert (d1 = de) as -> by congruence.
           apply (dict_covers_kept d0 de de' Hc1 Hk).
        -- exists r1, d0, d1. split; [assumption|]. split; [assumption|].
           split; [|assumption].
           rewrite nth_error_store_set_neq by assumption. assumption.
      * pose proof (title_of_evolves h0 h b t' Hev Ht') as Hcur.
        assert (t' = t) as -> by congruence.
        destruct (title_of_some h0 b t Ht') as (d0 & Hb0 & _).
        destruct (evolves_covers h0 h b d0 Hev Hb0) as (d & Hd & Hk0).
        assert (d = dn) as -> by congruence.
        exists r, d0, de'. split; [assumption|]. split; [assumption|].
        split; [apply (nth_error_store_set_eq h r (ODict de') (ODict de) Hr)|].
        apply (dict_kept_covers d0 dn de' Hk0 Hc).
    + intros k r' d item Hin Hr' Hitem.
      destruct (Nat.eq_dec r' r) as [-> | Hne].
      2:{ rewrite nth_error_store_set_neq in Hr' by assumption.
          apply (Hprov' k r' d item); assumption. }
      rewrite (nth_error_store_set_eq h r (ODict de') (ODict de) Hr) in Hr'.
      injection Hr' as <-.
      assert (k = BookMerger._normalize t) as ->.
      { destruct (Hkeys k r Hin) as (_ & t1 & Ht1 & <- & _).
        destruct (Hkeys _ r Hkr) as (_ & t2 & Ht2 & <- & _). congruence. }
      destruct (Hitems item Hitem) as [Hold | Hnew].
      * apply (Hprov' _ r de item); assumption.
      * destruct (in_dec Nat.eq_dec b (map snd ab)) as [Hbin | Hbnot].
        -- pose proof (Hself t Ht Hbin) as Hkb.
           pose proof (all_books_get_NoDup ab _ b Hnd Hkb) as Hgetb.
           assert (r = b) as -> by congruence.
           assert (dn = de) as -> by congruence.
           apply (Hprov' _ b de item); assumption.
        -- exists b, dn.
           split; [apply in_or_app; right; left; reflexivity|].
           split; [unfold key_of; rewrite (Horig t Ht); reflexivity|].
           split; [rewrite <- (Hframe b Hbnot); assumption | assumption].
Qed.

Lemma merge_books_inv : forall h0 known books done st st',
  merge_inv h0 known done st ->
  fold_m (BookMerger.merge_book known) books st = Some st' ->
  merge_inv h0 known (done ++ books) st'.
Proof.
  induction books as [|b books IH]; intros done st st' Hinv H; cbn [fold_m] in H.
  - injection H as <-. rewrite app_nil_r. assumption.
  - destruct (BookMerger.merge_book known st b) as [st1|] eqn:E; [|discriminate H].
    replace (done ++ b :: books) with ((done ++ [b]) ++ books)
      by (rewrite <- app_assoc; reflexivity).
    apply (IH _ st1); [|assumption].
    apply (merge_book_inv h0 known done st b st1 Hinv E).
Qed.

Lemma merge_sources_inv : forall h0 known sources done st st',
  merge_inv h0 known done st ->
  fold_m (fun st source => fold_m (BookMerger.merge_book known) source st)
         sources st = Some st' ->
  merge_inv h0 known (done ++ concat sources) st'.
Proof.
  induction sources as [|src sources IH]; intros done st st' Hinv H; cbn [fold_m] in H.
  - injection H as <-. simpl. rewrite app_nil_r. assumption.
  - destruct (fold_m (BookMerger.merge_book known) src st) as [st1|] eqn:E;
      [|discriminate H].
    simpl. rewrite app_assoc. apply (IH _ st1); [|assumption].
    apply (merge_books_inv h0 known src done st st1 Hinv E).
Qed.

Lemma merge_inv_init : forall h0 known, merge_inv h0 known [] (h0, []).
Proof.
  intros h0 known. split; [|split; [|split; [|split; [|split]]]].
  - apply evolves_refl.
  - constructor.
  - reflexivity.
  - intros k r [].
  - intros b t [].
  - intros k r d item [].
Qed.

(** What a call of [merge] that returns establishes. *)
Lemma merge_returns : forall h sources existing_titles h' out,
  BookMerger.merge h sources existing_titles = Some (h', out) ->
  exists titles all_books,
    BookMerger.known_titles h existing_titles = Some titles /\
    out = map snd all_books /\
    merge_inv h (map BookMerger._normalize titles) (concat sources) (h', all_books).
Proof.
  intros h sources et h' out. unfold BookMerger.merge.
  destruct (BookMerger.known_titles h et) as [titles|]; [|discriminate].
  destruct (fold_m
              (fun st source =>
                 fold_m (BookMerger.merge_book (map BookMerger._normalize titles))
                        source st)
              sources (h, [])) as [[h1 ab]|] eqn:E; [|discriminate].
  intro H. injection H as <- <-. exists titles, ab.
  split; [reflexivity|]. split; [reflexivity|].
  apply (merge_sources_inv h _ sources [] (h, []) (h1, ab)); [|assumption].
  apply merge_inv_init.
Qed.

(** ** The merger: exclusion of known titles *)

Lemma mem_In : forall x xs, mem x xs = true <-> In x xs.
Proof.
  intros x xs. unfold mem. rewrite existsb_exists. split.
  - intros (y & Hy & E). apply pystr_eqb_eq in E. subst y. assumption.
  - intro H. exists x. split; [assumption | apply pystr_eqb_refl].
Qed.

Lemma _is_existing_three_tier : forall key known,
  BookMerger._is_existing key known = true <-> three_tier key known.
Proof.
  intros key known. unfold BookMerger._is_existing, three_tier.
  destruct (mem key known) eqn:Ha.
  - apply mem_In in Ha. tauto.
  - assert (~ In key known) as Hna
      by (intro H; apply mem_In in H; congruence).
    set (base := BookMerger._extract_base_title key).
    destruct (negb (pystr_eqb base key) && mem base known) eqn:Hb.
    + apply andb_true_iff in Hb. destruct Hb as [_ Hb]. apply mem_In in Hb. tauto.
    + rewrite existsb_exists. split.
      * intros (e & He & H). apply andb_true_iff in H. destruct H as [Heq Hlen].
        apply pystr_eqb_eq in Heq. apply Nat.ltb_lt in Hlen.
        right. right. exists e. tauto.
      * intros [H | [H | (e & He & Heq & Hlen)]]; [contradiction| |].
        -- exfalso. apply andb_false_iff in Hb. destruct Hb as [Hb | Hb].
           ++ apply negb_false_iff, pystr_eqb_eq in Hb. rewrite Hb in H.
              contradiction.
           ++ apply mem_In in H. congruence.
        -- exists e. split; [assumption|]. apply andb_true_iff.
           split; [apply pystr_eqb_eq; assumption | apply Nat.ltb_lt; assumption].
Qed.

Lemma key_of_title : forall h r t,
  title_of h r = Some t -> key_of h r = Some (BookMerger._normalize t).
Proof. intros h r t H. unfold key_of. rewrite H. reflexivity. Qed.

(** C2: the existence check is the three-tier rule, and [merge] returns no
    record whose key the rule matches against the normalized known titles;
    a record of a source whose key the rule does not match has the record
    of its key in the result. *)
Theorem merge_excludes_known :
  (forall key known,
     BookMerger._is_existing key known = true <-> three_tier key known) /\
  (forall h sources existing_titles titles h' out,
     BookMerger.merge h sources existing_titles = Some (h', out) ->
     BookMerger.known_titles h existing_titles = Some titles ->
     (forall r, In r out ->
        exists t, title_of h r = Some t /\
                  ~ three_tier (BookMerger._normalize t)
                               (map BookMerger._normalize titles)) /\
     (forall b t, In b (concat sources) -> title_of h b = Some t ->
        three_tier (BookMerger._normalize t) (map BookMerger._normalize titles) ->
        ~ In b out) /\
     (forall b t, In b (concat sources) -> title_of h b = Some t ->
        ~ three_tier (BookMerger._normalize t) (map BookMerger._normalize titles) ->
        exists r, In r out /\ key_of h r = Some (BookMerger._normalize t))).
Proof.
  split; [apply _is_existing_three_tier|].
  intros h sources et titles h' out Hmerge Hknown.
  destruct (merge_returns h sources et h' out Hmerge)
    as (titles' & ab & Hknown' & -> & Hinv).
  assert (titles' = titles) as -> by congruence.
  destruct Hinv as (Hev & Hnd & Hframe & Hkeys & Hcov & _).
  assert (forall r, In r (map snd ab) ->
            exists t, title_of h r = Some t /\
                      ~ three_tier (BookMerger._normalize t)
                                   (map BookMerger._normalize titles)) as Hout.
  { intros r Hr. apply in_map_iff in Hr. destruct Hr as ([k r'] & Heq & Hin).
    simpl in Heq. subst r'. destruct (Hkeys k r Hin) as (_ & t & Ht & <- & Hex).
    exists t. split; [assumption|]. rewrite <- _is_existing_three_tier. congruence. }
  split; [exact Hout | split].
  - intros b t Hb Ht H3 Hin. destruct (Hout b Hin) as (t' & Ht' & Hn).
    assert (t' = t) as -> by congruence. contradiction.
  - intros b t Hb Ht H3.
    assert (BookMerger._is_existing (BookMerger._normalize t)
              (map BookMerger._normalize titles) = false) as Hex.
    { destruct (BookMerger._is_existing _ _) eqn:E; [|reflexivity].
      apply _is_existing_three_tier in E. contradiction. }
    destruct (Hcov b t Hb Ht Hex) as (r & d0 & d & Hget & _).
    apply all_books_get_In in Hget. exists r. split.
    + apply in_map_iff. exists (BookMerger._normalize t, r). tauto.
    + destruct (Hkeys _ r Hget) as (_ & t' & Ht' & <- & _).
      apply key_of_title. assumption.
Qed.

Lemma merge_excludes_known_witness :
  exists t, title_of pet_sematary_store 0 = Some t /\
            ~ three_tier (BookMerger._normalize t)
                         (map BookMerger._normalize [str "Carrie"]).
Proof.
  apply (proj1 (proj2 merge_excludes_known pet_sematary_store [[0]; [1]] (Some 2)
                      [str "Carrie"] pet_sematary_merged [0]
                      ltac:(vm_compute; reflexivity) eq_refl) 0).
  left. reflexivity.
Defined.

(** C3, as stated, fails: the known title keeps its accent when it is
    normalized, so a candidate whose key is "le fleau complete uncut
    edition", without the accent, matches no tier and [merge] returns it. *)
Lemma le_fleau_unaccented_not_excluded :
  BookMerger._normalize le_fleau_unaccented_title
    = str "le fleau complete uncut edition" /\
  BookMerger._is_existing (BookMerger._normalize le_fleau_unaccented_title)
    (map BookMerger._normalize [Le_Fleau]) = false /\
  BookMerger.merge
    [ODict [(str "Titre_VO", VStr le_fleau_unaccented_title)]; OSet [Le_Fleau]]
    [[0]] (Some 1)
  = Some ([ODict [(str "Titre_VO", VStr le_fleau_unaccented_title)];
           OSet [Le_Fleau]], [0]).
Proof. vm_compute. repeat split. Qed.

(** C3 (amended): with known titles {"Le Fléau"} and one source holding one
    candidate whose title normalizes to "le fléau complete uncut edition",
    accent included, the existence check returns true by the base-title
    tier (the key itself is not known, its base is), and [merge] returns
    the empty list and leaves the store as it was. *)
Theorem le_fleau_uncut_excluded : forall (title : pystr) (d : dict),
  BookMerger._normalize title = le_fleau_uncut_key ->
  dict_get d (str "Titre_VO") = Some (VStr title) ->
  let known := map BookMerger._normalize [Le_Fleau] in
  BookMerger._is_existing (BookMerger._normalize title) known = true /\
  ~ In (BookMerger._normalize title) known /\
  In (BookMerger._extract_base_title (BookMerger._normalize title)) known /\
  BookMerger.merge [ODict d; OSet [Le_Fleau]] [[0]] (Some 1)
  = Some ([ODict d; OSet [Le_Fleau]], []).
Proof.
  intros title d Hkey Hd known. subst known.
  assert (BookMerger._is_existing (BookMerger._normalize title)
            (map BookMerger._normalize [Le_Fleau]) = true) as Hex
    by (rewrite Hkey; vm_compute; reflexivity).
  split; [assumption|]. rewrite Hkey. split; [|split].
  - vm_compute. intros [H | []]. discriminate H.
  - vm_compute. left. reflexivity.
  - unfold BookMerger.merge. cbn [BookMerger.known_titles nth_error fold_m].
    unfold BookMerger.merge_book. cbn [nth_error]. unfold dict_get_or.
    rewrite Hd. destruct title as [|c title].
    + vm_compute in Hkey. discriminate Hkey.
    + cbn [truthy is_empty negb]. rewrite Hex. reflexivity.
Qed.

Lemma le_fleau_uncut_excluded_witness :
  BookMerger.merge
    [ODict [(str "Titre_VO", VStr (Le_Fleau ++ str ": Complete & Uncut Edition"))];
     OSet [Le_Fleau]] [[0]] (Some 1)
  = Some ([ODict [(str "Titre_VO", VStr (Le_Fleau ++ str ": Complete & Uncut Edition"))];
           OSet [Le_Fleau]], []).
Proof.
  apply (le_fleau_uncut_excluded (Le_Fleau ++ str ": Complete & Uncut Edition")).
  - vm_compute. reflexivity.
  - reflexivity.
Defined.

(** ** The merger: what a call changes *)




(** ** The merger returns on typed records *)

Lemma typed_dict_set : forall d f v,
  typed_dict d -> (f = str "Titre_VO" \/ f = str "Raw_Info" -> str_if_true v) ->
  typed_dict (dict_set d f v).
Proof.
  intros d f v Hd Hv k w Hin Hk. apply dict_set_In in Hin.
  destruct Hin as [Hin | Heq]; [apply (Hd k w Hin Hk)|].
  injection Heq as -> ->. apply Hv. assumption.
Qed.

Lemma merge_item_total : forall d f v,
  typed_dict d -> (f = str "Titre_VO" \/ f = str "Raw_Info" -> str_if_true v) ->
  exists d', BookMerger.merge_item d (f, v) = Some d' /\ typed_dict d'.
Proof.
  intros d f v Hd Hv. unfold BookMerger.merge_item.
  destruct (dict_get d f) as [old|] eqn:Hget.
  - destruct (truthy old) eqn:Hold; cbn [negb].
    + destruct (pystr_eqb f (str "Raw_Info") && truthy v) eqn:Hraw.
      * apply andb_true_iff in Hraw. destruct Hraw as [Hf Htv].
        apply pystr_eqb_eq in Hf.
        destruct (Hv (or_intror Hf) Htv) as [s ->].
        destruct (Hd f old (dict_get_In d f old Hget) (or_intror Hf) Hold) as [o ->].
        cbn [py_len]. destruct (length o <? length s).
        -- eexists. split; [reflexivity|]. apply typed_dict_set; assumption.
        -- eexists. split; [reflexivity | assumption].
      * eexists. split; [reflexivity | assumption].
    + eexists. split; [reflexivity|]. apply typed_dict_set; assumption.
  - eexists. split; [reflexivity|]. apply typed_dict_set; assumption.
Qed.

Lemma merge_items_total : forall dn de,
  typed_dict de -> typed_dict dn ->
  exists de', fold_m BookMerger.merge_item dn de = Some de' /\ typed_dict de'.
Proof.
  induction dn as [|[f v] dn IH]; intros de Hde Hdn; cbn [fold_m].
  - exists de. split; [reflexivity | assumption].
  - destruct (merge_item_total de f v Hde) as (d1 & -> & Hd1).
    + intro Hf. apply (Hdn f v); [left; reflexivity | assumption].
    + apply IH; [assumption|]. intros k w Hin. apply (Hdn k w). right. assumption.
Qed.

Lemma merge_book_total : forall known books st b,
  typed_state (b :: books) st ->
  exists st', BookMerger.merge_book known st b = Some st' /\ typed_state books st'.
Proof.
  intros known books [h ab] b (Hty & Hsrc & Hab).
  assert (typed_state books (h, ab)) as Hsame.
  { split; [assumption|]. split; [|assumption].
    intros b' Hb'. apply Hsrc. right. assumption. }
  destruct (Hsrc b (or_introl eq_refl)) as [d Hd].
  unfold BookMerger.merge_book. rewrite Hd. unfold dict_get_or.
  assert (str_if_true match dict_get d (str "Titre_VO") with
                      | Some v => v
                      | None => VStr []
                      end) as Htitle.
  { destruct (dict_get d (str "Titre_VO")) as [v|] eqn:Hget.
    - apply (Hty b d Hd (str "Titre_VO") v (dict_get_In d _ v Hget)).
      left. reflexivity.
    - intro H. discriminate H. }
  set (tv := match dict_get d (str "Titre_VO") with
             | Some v => v
             | None => VStr []
             end) in *.
  destruct (truthy tv) eqn:Htrue; cbn [negb].
  2:{ exists (h, ab). split; [reflexivity | assumption]. }
  destruct (Htitle Htrue) as [title ->].
  destruct (BookMerger._is_existing _ known).
  { exists (h, ab). split; [reflexivity | assumption]. }
  destruct (BookMerger.all_books_get ab (BookMerger._normalize title))
    as [r|] eqn:Hget.
  - destruct (Hab _ r (all_books_get_In ab _ r Hget)) as [de Hde].
    unfold BookMerger._merge_book_data. rewrite Hde, Hd.
    destruct (merge_items_total d de (Hty r de Hde) (Hty b d Hd))
      as (de' & -> & Hde').
    eexists. split; [reflexivity|].
    assert (forall r' d', nth_error h r' = Some (ODict d') ->
              exists d'', nth_error (store_set h r (ODict de')) r' = Some (ODict d''))
      as Hkeep.
    { intros r' d' Hr'. destruct (Nat.eq_dec r' r) as [-> | Hne].
      - exists de'. apply (nth_error_store_set_eq h r (ODict de') (ODict de) Hde).
      - exists d'. rewrite nth_error_store_set_neq by assumption. assumption. }
    split; [|split].
    + intros r' d' Hr'. destruct (Nat.eq_dec r' r) as [-> | Hne].
      * rewrite (nth_error_store_set_eq h r (ODict de') (ODict de) Hde) in Hr'.
        injection Hr' as <-. assumption.
      * rewrite nth_error_store_set_neq in Hr' by assumption.
        apply (Hty r' d' Hr').
    + intros b' Hb'. destruct (Hsrc b' (or_intror Hb')) as [d' Hd'].
      apply (Hkeep b' d' Hd').
    + intros k r' Hin. destruct (Hab k r' Hin) as [d' Hd'].
      apply (Hkeep r' d' Hd').
  - eexists. split; [reflexivity|]. destruct Hsame as (H1 & H2 & _).
    split; [assumption|]. split; [assumption|].
    intros k r Hin. apply in_app_or in Hin.
    destruct Hin as [Hin | [Heq | []]]; [apply (Hab k r Hin)|].
    injection Heq as <- <-. exists d. assumption.
Qed.

Lemma merge_books_total : forall known src rest st,
  typed_state (src ++ rest) st ->
  exists st', fold_m (BookMerger.merge_book known) src st = Some st' /\
              typed_state rest st'.
Proof.
  induction src as [|b src IH]; intros rest st Hst; cbn [fold_m].
  - exists st. split; [reflexivity | assumption].
  - destruct (merge_book_total known (src ++ rest) st b Hst) as (st1 & -> & H1).
    apply IH. assumption.
Qed.

Lemma merge_sources_total : forall known sources st,
  typed_state (concat sources) st ->
  exists st',
    fold_m (fun st source => fold_m (BookMerger.merge_book known) source st)
           sources st = Some st'.
Proof.
  induction sources as [|src sources IH]; intros st Hst; cbn [fold_m].
  - exists st. reflexivity.
  - simpl in Hst.
    destruct (merge_books_total known src (concat sources) st Hst) as (st1 & -> & H1).
    apply IH. assumption.
Qed.

Lemma merge_total : forall h sources existing_titles,
  typed_call h sources existing_titles ->
  exists h' out, BookMerger.merge h sources existing_titles = Some (h', out).
Proof.
  intros h sources et (Hty & Hsrc & Het). unfold BookMerger.merge.
  assert (exists titles, BookMerger.known_titles h et = Some titles) as [titles ->].
  { unfold BookMerger.known_titles. destruct et as [r|]; [|eexists; reflexivity].
    destruct (nth_error h r) as [[d|elems]|] eqn:Hr; try (eexists; reflexivity).
    apply nth_error_None in Hr. specialize (Het r eq_refl). lia. }
  destruct (merge_sources_total (map BookMerger._normalize titles) sources (h, []))
    as ([h' ab] & ->).
  - split; [assumption|]. split; [assumption | intros k r []].
  - eexists. eexists. reflexivity.
Qed.

(** ** The merger: one record per key *)

Lemma map_key_of_kept : forall (f : ref -> option pystr) ab,
  (forall k r, In (k, r) ab -> f r = Some k) ->
  map f (map snd ab) = map Some (map fst ab).
Proof.
  induction ab as [|[k r] ab IH]; intro H; simpl; [reflexivity|].
  rewrite (H k r) by (left; reflexivity). f_equal. apply IH.
  intros k' r' Hin. apply H. right. assumption.
Qed.

Lemma NoDup_map_Some : forall (A : Type) (l : list A), NoDup l -> NoDup (map Some l).
Proof.
  induction 1 as [|x l Hx _ IH]; simpl; constructor; [|assumption].
  intro Hin. apply in_map_iff in Hin. destruct Hin as (y & Hy & Hin).
  injection Hy as ->. contradiction.
Qed.

(** ** The merger: what each field of a kept record ends as *)

Lemma title_of_original_none : forall h0 known done h ab b,
  merge_inv h0 known done (h, ab) ->
  title_of h b = None -> title_of h0 b = None.
Proof.
  intros h0 known done h ab b (Hev & _) H.
  destruct (title_of h0 b) as [t|] eqn:E; [|reflexivity].
  rewrite (title_of_evolves h0 h b t Hev E) in H. discriminate H.
Qed.

Lemma dict_get_None_keys : forall d k, dict_get d k = None <-> ~ In k (map fst d).
Proof.
  induction d as [|[k' v'] d IH]; intro k; simpl; [tauto|].
  destruct (pystr_eqb k k') eqn:E.
  - apply pystr_eqb_eq in E. subst k'. split; [discriminate | tauto].
  - apply pystr_eqb_neq in E. rewrite IH. split; [intros H [H1 | H1]|]; auto.
Qed.

Lemma fold_m_app : forall (A S : Type) (f : S -> A -> option S) l1 l2 s,
  fold_m f (l1 ++ l2) s
  = match fold_m f l1 s with
    | Some s' => fold_m f l2 s'
    | None => None
    end.
Proof.
  intros A S f. induction l1 as [|a l1 IH]; intros l2 s; cbn [app fold_m];
    [reflexivity|].
  destruct (f s a) as [s1|]; [apply IH | reflexivity].
Qed.

Lemma dict_set_same : forall d k v, dict_get d k = Some v -> dict_set d k v = d.
Proof.
  induction d as [|[k' v'] d IH]; intros k v H; simpl in *; [discriminate H|].
  destruct (pystr_eqb k k').
  - injection H as ->. reflexivity.
  - rewrite (IH k v H). reflexivity.
Qed.

Lemma dict_set_keys : forall d k v,
  map fst (dict_set d k v)
  = match dict_get d k with
    | Some _ => map fst d
    | None => map fst d ++ [k]
    end.
Proof.
  induction d as [|[k' v'] d IH]; intros k v; simpl; [reflexivity|].
  destruct (pystr_eqb k k'); simpl; [reflexivity|].
  rewrite IH. destruct (dict_get d k); reflexivity.
Qed.

Lemma dict_set_NoDup : forall d k v,
  NoDup (map fst d) -> NoDup (map fst (dict_set d k v)).
Proof.
  intros d k v H. rewrite dict_set_keys. destruct (dict_get d k) eqn:E; [assumption|].
  apply NoDup_snoc; [assumption|]. apply dict_get_None_keys. assumption.
Qed.

Lemma merge_item_NoDup : forall d item d',
  NoDup (map fst d) -> BookMerger.merge_item d item = Some d' -> NoDup (map fst d').
Proof.
  intros d [k v] d' Hd. unfold BookMerger.merge_item.
  destruct (dict_get d k) as [old|].
  - destruct (negb (truthy old)).
    + intro H. injection H as <-. apply dict_set_NoDup, Hd.
    + destruct (pystr_eqb k (str "Raw_Info") && truthy v).
      * destruct (py_len v) as [n|]; [|discriminate].
        destruct (py_len old) as [m|]; [|discriminate].
        destruct (m <? n); intro H; injection H as <-;
          [apply dict_set_NoDup, Hd | exact Hd].
      * intro H. injection H as <-. exact Hd.
  - intro H. injection H as <-. apply dict_set_NoDup, Hd.
Qed.

Lemma merge_items_NoDup : forall dn d d',
  NoDup (map fst d) -> fold_m BookMerger.merge_item dn d = Some d' ->
  NoDup (map fst d').
Proof.
  induction dn as [|item dn IH]; intros d d' Hd H; cbn [fold_m] in H.
  - injection H as <-. exact Hd.
  - destruct (BookMerger.merge_item d item) as [d1|] eqn:E; [|discriminate H].
    apply (IH d1 d' (merge_item_NoDup d item d1 Hd E) H).
Qed.

Lemma merge_item_field : forall f d k v d',
  BookMerger.merge_item d (k, v) = Some d' ->
  (k = f -> field_step f (dict_get d f) v = Some (dict_get d' f)) /\
  (k <> f -> dict_get d' f = dict_get d f).
Proof.
  intros f d k v d'. unfold BookMerger.merge_item.
  assert (forall w, (k = f -> dict_get (dict_set d k w) f = Some w) /\
                    (k <> f -> dict_get (dict_set d k w) f = dict_get d f)) as Hset.
  { intro w. split.
    - intros ->. apply dict_get_set_eq.
    - intro Hne. apply dict_get_set_neq. congruence. }
  destruct (dict_get d k) as [old|] eqn:Hold.
  - destruct (negb (truthy old)) eqn:Ht.
    + intro H. injection H as <-. split; [|apply Hset].
      intros ->. rewrite Hold. cbn [field_step]. rewrite Ht.
      rewrite dict_get_set_eq. reflexivity.
    + destruct (pystr_eqb k (str "Raw_Info") && truthy v) eqn:Hc.
      * destruct (py_len v) as [n|] eqn:Hn; [|discriminate].
        destruct (py_len old) as [m|] eqn:Hm; [|discriminate].
        destruct (m <? n) eqn:Hlt; intro H; injection H as <-.
        -- split; [|apply Hset]. intros ->. rewrite Hold. cbn [field_step].
           rewrite Ht, Hc, Hn, Hm, Hlt. rewrite dict_get_set_eq. reflexivity.
        -- split; [|reflexivity]. intros ->. rewrite Hold. cbn [field_step].
           rewrite Ht, Hc, Hn, Hm, Hlt. reflexivity.
      * intro H. injection H as <-. split; [|reflexivity].
        intros ->. rewrite Hold. cbn [field_step]. rewrite Ht, Hc. reflexivity.
  - intro H. injection H as <-. split; [|apply Hset].
    intros ->. rewrite Hold. cbn [field_step]. rewrite dict_get_set_eq. reflexivity.
Qed.

Lemma merge_items_other : forall f dn d d',
  ~ In f (map fst dn) -> fold_m BookMerger.merge_item dn d = Some d' ->
  dict_get d' f = dict_get d f.
Proof.
  intros f. induction dn as [|[k v] dn IH]; intros d d' Hf H; cbn [fold_m] in H.
  - injection H as <-. reflexivity.
  - destruct (BookMerger.merge_item d (k, v)) as [d1|] eqn:E; [|discriminate H].
    simpl in Hf. rewrite (IH d1 d') by tauto.
    apply (merge_item_field f d k v d1 E). tauto.
Qed.

Lemma merge_items_field : forall f dn d d',
  NoDup (map fst dn) -> fold_m BookMerger.merge_item dn d = Some d' ->
  fold_m (field_step f)
         (match dict_get dn f with Some v => [v] | None => [] end)
         (dict_get d f)
  = Some (dict_get d' f).
Proof.
  intros f. induction dn as [|[k v] dn IH]; intros d d' Hnd H; cbn [fold_m] in H.
  - injection H as <-. reflexivity.
  - destruct (BookMerger.merge_item d (k, v)) as [d1|] eqn:E; [|discriminate H].
    simpl in Hnd. inversion Hnd as [|? ? Hk Hnd']. subst.
    destruct (merge_item_field f d k v d1 E) as [Heq Hne].
    cbn [dict_get]. destruct (pystr_eqb f k) eqn:Efk.
    + apply pystr_eqb_eq in Efk. subst k. cbn [fold_m].
      rewrite (Heq eq_refl). rewrite (merge_items_other f dn d1 d' Hk H).
      reflexivity.
    + apply pystr_eqb_neq in Efk. rewrite <- Hne by congruence.
      apply (IH d1 d' Hnd' H).
Qed.

Lemma merge_item_same : forall d k v d',
  dict_get d k = Some v -> BookMerger.merge_item d (k, v) = Some d' -> d' = d.
Proof.
  intros d k v d' Hk. unfold BookMerger.merge_item. rewrite Hk.
  destruct (negb (truthy v)).
  - intro H. injection H as <-. apply dict_set_same, Hk.
  - destruct (pystr_eqb k (str "Raw_Info") && truthy v).
    + destruct (py_len v) as [n|]; [|discriminate].
      rewrite Nat.ltb_irrefl. intro H. injection H as <-. reflexivity.
    + intro H. injection H as <-. reflexivity.
Qed.

Lemma merge_items_same : forall items d d',
  (forall k v, In (k, v) items -> dict_get d k = Some v) ->
  fold_m BookMerger.merge_item items d = Some d' -> d' = d.
Proof.
  induction items as [|[k v] items IH]; intros d d' Hin H; cbn [fold_m] in H.
  - injection H as <-. reflexivity.
  - destruct (BookMerger.merge_item d (k, v)) as [d1|] eqn:E; [|discriminate H].
    assert (d1 = d) as ->
      by (apply (merge_item_same d k v d1); [apply Hin; left; reflexivity | exact E]).
    apply (IH d d'); [|exact H]. intros k' v' Hi. apply Hin. right. exact Hi.
Qed.

Lemma dict_get_NoDup_In : forall d k v,
  NoDup (map fst d) -> In (k, v) d -> dict_get d k = Some v.
Proof.
  induction d as [|[k' v'] d IH]; intros k v Hnd Hin; simpl in *; [contradiction|].
  inversion Hnd as [|? ? Hk Hnd']. subst. destruct Hin as [Heq | Hin].
  - injection Heq as -> ->. rewrite pystr_eqb_refl. reflexivity.
  - destruct (pystr_eqb k k') eqn:E; [|apply IH; assumption].
    apply pystr_eqb_eq in E. subst k'. exfalso. apply Hk.
    apply in_map_iff. exists (k, v). split; [reflexivity | assumption].
Qed.

Lemma self_merge : forall d d',
  NoDup (map fst d) -> fold_m BookMerger.merge_item d d = Some d' -> d' = d.
Proof.
  intros d d' Hnd. apply merge_items_same.
  intros k v Hin. apply dict_get_NoDup_In; assumption.
Qed.

Lemma _merge_book_data_inv : forall h kept_ref book h',
  BookMerger._merge_book_data h kept_ref book = Some h' ->
  exists de dn de',
    nth_error h kept_ref = Some (ODict de) /\
    nth_error h book = Some (ODict dn) /\
    fold_m BookMerger.merge_item dn de = Some de' /\
    h' = store_set h kept_ref (ODict de').
Proof.
  intros h r b h'. unfold BookMerger._merge_book_data.
  destruct (nth_error h r) as [[de|]|]; try discriminate.
  destruct (nth_error h b) as [[dn|]|]; try discriminate.
  destruct (fold_m BookMerger.merge_item dn de) as [de'|] eqn:E; [|discriminate].
  intro H. injection H as <-. exists de, dn, de'. tauto.
Qed.

Lemma has_key_true : forall h k b, has_key h k b = true <-> key_of h b = Some k.
Proof.
  intros h k b. unfold has_key. destruct (key_of h b) as [k'|].
  - rewrite pystr_eqb_eq. split; congruence.
  - split; discriminate.
Qed.

Lemma filter_none : forall (A : Type) (p : A -> bool) l,
  (forall x, In x l -> p x = false) -> filter p l = [].
Proof.
  intros A p. induction l as [|x l IH]; intro H; [reflexivity|]. simpl.
  rewrite (H x) by (left; reflexivity). apply IH. intros y Hy. apply H. right.
  exact Hy.
Qed.

Lemma all_books_unique : forall (ab : list (pystr * ref)) k (r r' : ref),
  NoDup (map fst ab) -> In (k, r) ab -> In (k, r') ab -> r = r'.
Proof.
  intros ab k r r' Hnd H1 H2.
  pose proof (all_books_get_NoDup ab k r Hnd H1) as G1.
  pose proof (all_books_get_NoDup ab k r' Hnd H2) as G2. congruence.
Qed.

Lemma field_fold_snoc : forall h0 f k (r : ref) done b s res,
  fold_m (field_step f)
         (flat_map (field_of h0 f)
            (filter (fun b => negb (Nat.eqb b r) && has_key h0 k b) done)) s
  = Some res ->
  fold_m (field_step f)
         (flat_map (field_of h0 f)
            (filter (fun b => negb (Nat.eqb b r) && has_key h0 k b) (done ++ [b]))) s
  = if negb (Nat.eqb b r) && has_key h0 k b
    then fold_m (field_step f) (field_of h0 f b) res
    else Some res.
Proof.
  intros h0 f k r done b s res H.
  unfold ref in *. rewrite filter_app, flat_map_app, fold_m_app, H. cbn [filter].
  destruct (negb (Nat.eqb b r) && has_key h0 k b); cbn [flat_map];
    [rewrite app_nil_r|]; reflexivity.
Qed.

Lemma kept_key : forall h0 known done h ab,
  merge_inv h0 known done (h, ab) ->
  forall k r, In (k, r) ab ->
  key_of h0 r = Some k /\ BookMerger._is_existing k known = false.
Proof.
  intros h0 known done h ab (_ & _ & _ & Hkeys & _) k r Hin.
  destruct (Hkeys k r Hin) as (_ & t & Ht & <- & Hex).
  split; [apply key_of_title, Ht | exact Hex].
Qed.

Lemma merge_book_field_inv : forall h0 known done st b st',
  merge_inv h0 known done st ->
  field_inv h0 done st ->
  BookMerger.merge_book known st b = Some st' ->
  field_inv h0 (done ++ [b]) st'.
Proof.
  intros h0 known done [h ab] b [h' ab'] Hinv [Hwf Hfield] Hstep.
  pose proof (kept_key h0 known done h ab Hinv) as Hkept.
  pose proof (current_title_original h0 known done h ab b) as Horig.
  specialize (Horig) with (1 := Hinv).
  pose proof (kept_under_its_key h0 known done h ab b) as Hself.
  specialize (Hself) with (1 := Hinv).
  pose proof (title_of_original_none h0 known done h ab b Hinv) as Hnone.
  destruct Hinv as (Hev & Hnd & Hframe & Hkeys & Hcov & Hprov).
  destruct (merge_book_cases known h ab b h' ab' Hstep)
    as [(-> & -> & Hskip)
       | (t & Ht & Hex & [(Hget & -> & ->) | (r0 & Hget & -> & Hdata)])].
  - (* the record is skipped *)
    split; [exact Hwf|]. intros k r f d0 d Hin Hd0 Hd.
    etransitivity; [exact (field_fold_snoc h0 f k r done b _ _ (Hfield k r f d0 d Hin Hd0 Hd))|].
    destruct (has_key h0 k b) eqn:Hk; [|rewrite andb_false_r; reflexivity].
    exfalso. apply has_key_true in Hk. destruct (Hkept k r Hin) as [_ Hnew].
    destruct Hskip as [Hn | (t & Ht & Hex)].
    + unfold key_of in Hk. rewrite (Hnone Hn) in Hk. discriminate Hk.
    + rewrite (key_of_title h0 b t (Horig t Ht)) in Hk. injection Hk as <-.
      congruence.
  - (* the record is the first of its key *)
    assert (key_of h0 b = Some (BookMerger._normalize t)) as Hkb
      by (apply key_of_title, Horig, Ht).
    assert (~ In b (map snd ab)) as Hfresh.
    { intro Hin. apply (all_books_get_None ab _ Hget).
      apply in_map_iff. exists (BookMerger._normalize t, b).
      split; [reflexivity | apply (Hself t Ht Hin)]. }
    split; [exact Hwf|]. intros k r f d0 d Hin Hd0 Hd.
    apply in_app_or in Hin. destruct Hin as [Hin | [Heq | []]].
    + etransitivity; [exact (field_fold_snoc h0 f k r done b _ _ (Hfield k r f d0 d Hin Hd0 Hd))|].
      destruct (has_key h0 k b) eqn:Hk; [|rewrite andb_false_r; reflexivity].
      exfalso. apply has_key_true in Hk. rewrite Hkb in Hk. injection Hk as <-.
      apply (all_books_get_None ab _ Hget). apply in_map_iff.
      exists (BookMerger._normalize t, r). split; [reflexivity | exact Hin].
    + injection Heq as <- <-.
      rewrite (Hframe b Hfresh) in Hd. rewrite Hd0 in Hd. injection Hd as <-.
      rewrite filter_none; [reflexivity|].
      intros x Hx. apply in_app_or in Hx. destruct Hx as [Hx | [<- | []]].
      * destruct (has_key h0 (BookMerger._normalize t) x) eqn:Hk;
          [|apply andb_false_r].
        exfalso. apply has_key_true in Hk. unfold key_of in Hk.
        destruct (title_of h0 x) as [tx|] eqn:Htx; [|discriminate Hk].
        cbn [option_map] in Hk. injection Hk as Hk.
        rewrite <- Hk in Hex, Hget.
        destruct (Hcov x tx Hx Htx Hex) as (rx & _ & _ & Hgx & _). congruence.
      * rewrite Nat.eqb_refl. reflexivity.
  - (* the record is merged into the record kept for its key *)
    assert (key_of h0 b = Some (BookMerger._normalize t)) as Hkb
      by (apply key_of_title, Horig, Ht).
    pose proof (all_books_get_In ab _ r0 Hget) as Hr0.
    destruct (_merge_book_data_inv h r0 b h' Hdata)
      as (de & dn & de' & Hde & Hdn & Hfold & ->).
    split.
    + intros r d Hr. destruct (Nat.eq_dec r r0) as [-> | Hne].
      * rewrite (nth_error_store_set_eq h r0 _ _ Hde) in Hr. injection Hr as <-.
        apply (merge_items_NoDup dn de de' (Hwf r0 de Hde) Hfold).
      * rewrite nth_error_store_set_neq in Hr by assumption. apply (Hwf r d Hr).
    + intros k r f d0 d Hin Hd0 Hd. destruct (Nat.eq_dec r r0) as [-> | Hne].
      * assert (k = BookMerger._normalize t) as ->.
        { destruct (Hkept k r0 Hin) as [H1 _]. destruct (Hkept _ r0 Hr0) as [H2 _].
          congruence. }
        rewrite (nth_error_store_set_eq h r0 _ _ Hde) in Hd. injection Hd as <-.
        etransitivity; [exact (field_fold_snoc h0 f _ r0 done b _ _
                   (Hfield _ r0 f d0 de Hin Hd0 Hde))|].
        assert (has_key h0 (BookMerger._normalize t) b = true) as ->
          by (apply has_key_true, Hkb).
        rewrite andb_true_r. destruct (Nat.eqb_spec b r0) as [-> | Hb]; cbn [negb].
        -- rewrite Hde in Hdn. injection Hdn as <-.
           rewrite (self_merge de de' (Hwf r0 de Hde) Hfold). reflexivity.
        -- assert (~ In b (map snd ab)) as Hfresh.
           { intro Hinb. apply Hb.
             apply (all_books_unique ab (BookMerger._normalize t) b r0 Hnd);
               [apply (Hself t Ht Hinb) | exact Hr0]. }
           unfold field_of. rewrite <- (Hframe b Hfresh), Hdn.
           apply (merge_items_field f dn de de' (Hwf b dn Hdn) Hfold).
      * rewrite nth_error_store_set_neq in Hd by assumption.
        etransitivity; [exact (field_fold_snoc h0 f k r done b _ _ (Hfield k r f d0 d Hin Hd0 Hd))|].
        destruct (has_key h0 k b) eqn:Hk; [|rewrite andb_false_r; reflexivity].
        exfalso. apply has_key_true in Hk. rewrite Hkb in Hk. injection Hk as <-.
        apply Hne. apply (all_books_unique ab _ r r0 Hnd Hin Hr0).
Qed.

Lemma merge_books_field_inv : forall h0 known books done st st',
  merge_inv h0 known done st ->
  field_inv h0 done st ->
  fold_m (BookMerger.merge_book known) books st = Some st' ->
  field_inv h0 (done ++ books) st'.
Proof.
  induction books as [|b books IH]; intros done st st' Hinv Hf H; cbn [fold_m] in H.
  - injection H as <-. rewrite app_nil_r. assumption.
  - destruct (BookMerger.merge_book known st b) as [st1|] eqn:E; [|discriminate H].
    replace (done ++ b :: books) with ((done ++ [b]) ++ books)
      by (rewrite <- app_assoc; reflexivity).
    apply (IH _ st1); [| |assumption].
    + apply (merge_book_inv h0 known done st b st1 Hinv E).
    + apply (merge_book_field_inv h0 known done st b st1 Hinv Hf E).
Qed.

Lemma merge_sources_field_inv : forall h0 known sources done st st',
  merge_inv h0 known done st ->
  field_inv h0 done st ->
  fold_m (fun st source => fold_m (BookMerger.merge_book known) source st)
         sources st = Some st' ->
  field_inv h0 (done ++ concat sources) st'.
Proof.
  induction sources as [|src sources IH]; intros done st st' Hinv Hf H;
    cbn [fold_m] in H.
  - injection H as <-. simpl. rewrite app_nil_r. assumption.
  - destruct (fold_m (BookMerger.merge_book known) src st) as [st1|] eqn:E;
      [|discriminate H].
    simpl. rewrite app_assoc. apply (IH _ st1); [| |assumption].
    + apply (merge_books_inv h0 known src done st st1 Hinv E).
    + apply (merge_books_field_inv h0 known src done st st1 Hinv Hf E).
Qed.

Lemma first_non_empty_skip : forall o a vs,
  truthy o = false -> first_non_empty (o :: a :: vs) = first_non_empty (a :: vs).
Proof.
  intros o a vs Ho. unfold first_non_empty. cbn [find]. rewrite Ho. reflexivity.
Qed.

Lemma field_fold_first : forall f,
  f <> str "Raw_Info" ->
  forall vs o res,
    fold_m (field_step f) vs (Some o) = Some res ->
    res = first_non_empty (o :: vs).
Proof.
  intros f Hf. apply pystr_eqb_neq in Hf.
  induction vs as [|a vs IH]; intros o res H; cbn [fold_m] in H.
  - injection H as <-. unfold first_non_empty. cbn [find].
    destruct (truthy o); reflexivity.
  - cbn [field_step] in H. rewrite Hf in H. cbn [andb] in H.
    destruct (truthy o) eqn:Ho; cbn [negb] in H.
    + rewrite (IH o res H). unfold first_non_empty. cbn [find]. rewrite Ho.
      reflexivity.
    + rewrite (first_non_empty_skip o a vs Ho). apply (IH a res H).
Qed.

Lemma field_fold_first_non_empty : forall f vs old res,
  f <> str "Raw_Info" ->
  fold_m (field_step f) vs old = Some res ->
  res = first_non_empty (match old with Some v => [v] | None => [] end ++ vs).
Proof.
  intros f vs [o|] res Hf H.
  - apply (field_fold_first f Hf vs o res H).
  - destruct vs as [|a vs]; cbn [fold_m field_step] in H.
    + injection H as <-. reflexivity.
    + apply (field_fold_first f Hf vs a res H).
Qed.

Lemma note_fold_best : forall vs pre o mid res,
  truthy o = true ->
  (forall w, In w pre -> truthy w = true -> longer o w) ->
  (forall w, In w mid -> truthy w = true -> not_shorter o w) ->
  fold_m (field_step (str "Raw_Info")) vs (Some o) = Some res ->
  exists pre' v post,
    pre ++ o :: mid ++ vs = pre' ++ v :: post /\ res = Some v /\ truthy v = true /\
    (forall w, In w pre' -> truthy w = true -> longer v w) /\
    (forall w, In w post -> truthy w = true -> not_shorter v w).
Proof.
  induction vs as [|a vs IH]; intros pre o mid res Ho Hpre Hmid H; cbn [fold_m] in H.
  - injection H as <-. exists pre, o, mid. rewrite app_nil_r. tauto.
  - cbn [field_step] in H. rewrite Ho, pystr_eqb_refl in H. cbn [negb andb] in H.
    destruct (truthy a) eqn:Ha.
    + destruct a as [| | |sa]; cbn [py_len] in H; try discriminate H.
      destruct o as [| | |so]; cbn [py_len] in H; try discriminate H.
      destruct (Nat.ltb_spec (length so) (length sa)) as [Hlt | Hge].
      * destruct (IH (pre ++ VStr so :: mid) (VStr sa) [] res Ha) as (p & v & q & E & R);
          [| |exact H|].
        -- intros w Hw Htw. apply in_app_or in Hw. destruct Hw as [Hw | [<- | Hw]].
           ++ destruct (Hpre w Hw Htw) as (s1 & s2 & E1 & -> & Hl).
              injection E1 as <-. exists sa, s2. repeat split; lia.
           ++ exists sa, so. repeat split; lia.
           ++ destruct (Hmid w Hw Htw) as (s1 & s2 & E1 & -> & Hl).
              injection E1 as <-. exists sa, s2. repeat split; lia.
        -- intros w [].
        -- exists p, v, q. split; [|exact R]. rewrite <- E.
           rewrite <- !app_assoc. reflexivity.
      * destruct (IH pre (VStr so) (mid ++ [VStr sa]) res Ho Hpre) as (p & v & q & E & R);
          [|exact H|].
        -- intros w Hw Htw. apply in_app_or in Hw. destruct Hw as [Hw | [<- | []]].
           ++ apply (Hmid w Hw Htw).
           ++ exists so, sa. repeat split; lia.
        -- exists p, v, q. split; [|exact R]. rewrite <- E.
           rewrite <- !app_assoc. reflexivity.
    + destruct (IH pre o (mid ++ [a]) res Ho Hpre) as (p & v & q & E & R);
        [|exact H|].
      * intros w Hw Htw. apply in_app_or in Hw. destruct Hw as [Hw | [<- | []]].
        -- apply (Hmid w Hw Htw).
        -- congruence.
      * exists p, v, q. split; [|exact R]. rewrite <- E.
        rewrite <- !app_assoc. reflexivity.
Qed.

Lemma longest_note_skip : forall o a vs note,
  truthy o = false -> longest_note (a :: vs) note -> longest_note (o :: a :: vs) note.
Proof.
  intros o a vs note Ho [[Hall Hn] | (pre & v & post & E & Hn & Hv & Hpre & Hpost)].
  - left. split; [constructor; assumption | exact Hn].
  - right. exists (o :: pre), v, post. split; [simpl; rewrite E; reflexivity|].
    split; [exact Hn|]. split; [exact Hv|]. split; [|exact Hpost].
    intros w [<- | Hw] Htw; [congruence | apply (Hpre w Hw Htw)].
Qed.

Lemma note_fold_some : forall vs o res,
  fold_m (field_step (str "Raw_Info")) vs (Some o) = Some res ->
  longest_note (o :: vs) res.
Proof.
  induction vs as [|a vs IH]; intros o res H.
  - cbn [fold_m] in H. injection H as <-. destruct (truthy o) eqn:Ho.
    + right. exists [], o, []. split; [reflexivity|]. split; [reflexivity|].
      split; [exact Ho|]. split; intros w [].
    + left. split; [repeat constructor; exact Ho | reflexivity].
  - destruct (truthy o) eqn:Ho.
    + right.
      destruct (note_fold_best (a :: vs) [] o [] res Ho) as (p & v & q & E & R);
        [intros w [] | intros w [] | exact H |].
      exists p, v, q. split; [exact E | exact R].
    + cbn [fold_m field_step] in H. rewrite Ho in H. cbn [negb] in H.
      apply longest_note_skip; [exact Ho | apply (IH a res H)].
Qed.

Lemma field_fold_longest_note : forall vs old res,
  fold_m (field_step (str "Raw_Info")) vs old = Some res ->
  longest_note (match old with Some v => [v] | None => [] end ++ vs) res.
Proof.
  intros vs [o|] res H.
  - apply (note_fold_some vs o res H).
  - destruct vs as [|a vs]; cbn [fold_m field_step] in H.
    + injection H as <-. left. split; [constructor | reflexivity].
    + apply (note_fold_some vs a res H).
Qed.

(** What a call of [merge] that returns makes of each field of each record
    it returns. *)
Lemma merge_final_fields : forall h sources existing_titles h' out,
  dicts_well_formed h ->
  BookMerger.merge h sources existing_titles = Some (h', out) ->
  dicts_well_formed h' /\
  forall r k d f,
    In r out -> key_of h r = Some k -> nth_error h' r = Some (ODict d) ->
    (f <> str "Raw_Info" ->
     dict_get d f = first_non_empty (contributed h f k r (concat sources))) /\
    (f = str "Raw_Info" ->
     longest_note (contributed h f k r (concat sources)) (dict_get d f)).
Proof.
  intros h sources et h' out Hwf. unfold BookMerger.merge.
  destruct (BookMerger.known_titles h et) as [titles|]; [|discriminate].
  destruct (fold_m
              (fun st source =>
                 fold_m (BookMerger.merge_book (map BookMerger._normalize titles))
                        source st)
              sources (h, [])) as [[h1 ab]|] eqn:E; [|discriminate].
  intro H. injection H as <- <-.
  pose proof (merge_sources_inv h _ sources [] (h, []) (h1, ab)
                (merge_inv_init h _) E) as Hinv.
  assert (field_inv h [] (h, [])) as Hinit
    by (split; [exact Hwf | intros k r f d0 d []]).
  destruct (merge_sources_field_inv h _ sources [] (h, []) (h1, ab)
              (merge_inv_init h _) Hinit E) as [Hwf1 Hfield].
  cbn [app] in Hinv, Hfield.
  split; [exact Hwf1|].
  intros r k d f Hr Hk Hd. apply in_map_iff in Hr.
  destruct Hr as ([k' r'] & Heq & Hin). simpl in Heq. subst r'.
  destruct (kept_key h _ _ h1 ab Hinv k' r Hin) as [Hk' _].
  assert (k' = k) as -> by congruence.
  unfold key_of in Hk. destruct (title_of h r) as [t|] eqn:Ht; [|discriminate Hk].
  destruct (title_of_some h r t Ht) as (d0 & Hd0 & _).
  pose proof (Hfield k r f d0 d Hin Hd0 Hd) as Hfold.
  assert (contributed h f k r (concat sources)
          = match dict_get d0 f with Some v => [v] | None => [] end ++
            flat_map (field_of h f)
              (filter (fun b => negb (Nat.eqb b r) && has_key h k b) (concat sources)))
    as -> by (unfold contributed, field_of; rewrite Hd0; reflexivity).
  split.
  - intro Hf. apply (field_fold_first_non_empty f _ _ _ Hf Hfold).
  - intros ->. apply (field_fold_longest_note _ _ _ Hfold).
Qed.
(** C4: in what [merge] returns there is one record per normalized key:
    the keys of the returned records are pairwise distinct, each returned
    record is a record of a source and keeps its key, and every record of a
    source that has a title and is not known is covered by the returned
    record of its key: each of its fields is there, not empty when the
    contribution is not empty, and the note at least as long as the
    contributed one.  The kept record only gains: its keys stay, a value
    that is not empty is overwritten only for the note, by a longer one.
    Every value of a returned record is a value some record of a source
    with that key contributed; so the note is a longest contributed note.
    Merging the two sightings of "Pet Sematary" gives one record, with the
    longer note, and the year and the extra field of the second.  The call
    returns whenever the records of the sources are dicts whose title and
    note, when not empty, are strings.
    What each field ends as is determined by the values the records of the
    key hold at the call, taken in the order of the sources, the kept
    record first: a field other than the note ends as the first value that
    is not empty, and as the last value when all are empty, so a value that
    is not empty is never overwritten, at no step of the merging; the note
    ends as the first of the longest notes that are not empty.  Three
    sightings of "Cujo" with the years 0, 1983 and 1984 give one record
    with the year 1983. *)
Theorem merge_one_record_per_key :
  (forall h sources existing_titles,
     typed_call h sources existing_titles ->
     exists h' out, BookMerger.merge h sources existing_titles = Some (h', out)) /\
  (forall h sources existing_titles titles h' out,
     BookMerger.merge h sources existing_titles = Some (h', out) ->
     BookMerger.known_titles h existing_titles = Some titles ->
     NoDup (map (key_of h') out) /\
     (forall r, In r out ->
        In r (concat sources) /\ key_of h' r = key_of h r /\ key_of h r <> None) /\
     (forall b t, In b (concat sources) -> title_of h b = Some t ->
        BookMerger._is_existing (BookMerger._normalize t)
          (map BookMerger._normalize titles) = false ->
        exists r d0 d,
          In r out /\ key_of h' r = Some (BookMerger._normalize t) /\
          nth_error h b = Some (ODict d0) /\ nth_error h' r = Some (ODict d) /\
          dict_covers d0 d) /\
     (forall r d0, In r out -> nth_error h r = Some (ODict d0) ->
        exists d, nth_error h' r = Some (ODict d) /\ dict_kept d0 d) /\
     (forall r d f v, In r out -> nth_error h' r = Some (ODict d) ->
        dict_get d f = Some v ->
        exists b d0, In b (concat sources) /\ key_of h b = key_of h' r /\
                     nth_error h b = Some (ODict d0) /\ In (f, v) d0)) /\
  BookMerger.merge pet_sematary_store [[0]; [1]] (Some 2)
    = Some (pet_sematary_merged, [0]) /\
  (forall h sources existing_titles h' out,
     dicts_well_formed h ->
     BookMerger.merge h sources existing_titles = Some (h', out) ->
     forall r k d f,
       In r out -> key_of h r = Some k -> nth_error h' r = Some (ODict d) ->
       (f <> str "Raw_Info" ->
        dict_get d f = first_non_empty (contributed h f k r (concat sources))) /\
       (f = str "Raw_Info" ->
        longest_note (contributed h f k r (concat sources)) (dict_get d f))) /\
  BookMerger.merge cujo_store [[0]; [1]; [2]] None = Some (cujo_merged, [0]).
Proof.
  split; [exact merge_total|].
  split; [|split; [vm_compute; reflexivity|
           split; [|vm_compute; reflexivity];
           intros h sources et h' out Hwf Hmerge;
           apply (merge_final_fields h sources et h' out Hwf Hmerge)]].
  intros h sources et titles h' out Hmerge Hknown.
  destruct (merge_returns h sources et h' out Hmerge)
    as (titles' & ab & Hknown' & -> & Hinv).
  assert (titles' = titles) as -> by congruence.
  destruct Hinv as (Hev & Hnd & Hframe & Hkeys & Hcov & Hprov).
  assert (forall k r, In (k, r) ab -> key_of h r = Some k /\ key_of h' r = Some k)
    as Hkey.
  { intros k r Hin. destruct (Hkeys k r Hin) as (_ & t & Ht & <- & _).
    split; apply key_of_title; [assumption|].
    apply (title_of_evolves h h' r t Hev Ht). }
  split; [|split; [|split; [|split]]].
  - rewrite (map_key_of_kept (key_of h') ab) by (intros k r Hin; apply (Hkey k r Hin)).
    apply NoDup_map_Some. assumption.
  - intros r Hr. apply in_map_iff in Hr. destruct Hr as ([k r'] & Heq & Hin).
    simpl in Heq. subst r'. destruct (Hkey k r Hin) as [H1 H2].
    split; [apply (Hkeys k r Hin)|]. split; congruence.
  - intros b t Hb Ht Hex.
    destruct (Hcov b t Hb Ht Hex) as (r & d0 & d & Hget & Hb0 & Hd & Hc).
    apply all_books_get_In in Hget. exists r, d0, d.
    split; [apply in_map_iff; exists (BookMerger._normalize t, r); tauto|].
    split; [apply (Hkey _ r Hget) | tauto].
  - intros r d0 Hr Hd0. apply (evolves_covers h h' r d0 Hev Hd0).
  - intros r d f v Hr Hd Hf. apply in_map_iff in Hr.
    destruct Hr as ([k r'] & Heq & Hin). simpl in Heq. subst r'.
    destruct (Hprov k r d (f, v) Hin Hd (dict_get_In d f v Hf))
      as (b & d0 & Hb & Hkb & Hb0 & Hitem).
    exists b, d0. split; [assumption|].
    split; [|tauto]. destruct (Hkey k r Hin) as [_ H2]. congruence.
Qed.

Lemma merge_one_record_per_key_witness :
  NoDup (map (key_of pet_sematary_merged) [0]) /\
  dict_get [ (str "Titre_VO", VStr (str "Cujo")); (str "Annee_VO", VInt 1983) ]
           (str "Annee_VO")
  = first_non_empty
      (contributed cujo_store (str "Annee_VO") (str "cujo") 0 (concat [[0]; [1]; [2]])).
Proof.
  split.
  - apply (proj1 (proj2 merge_one_record_per_key) pet_sematary_store [[0]; [1]]
                 (Some 2) [str "Carrie"] pet_sematary_merged [0]).
    + vm_compute. reflexivity.
    + reflexivity.
  - refine (proj1 (proj1 (proj2 (proj2 (proj2 merge_one_record_per_key)))
                     cujo_store [[0]; [1]; [2]] None cujo_merged [0] _ _
                     0 (str "cujo") _ (str "Annee_VO") _ _ _) _).
    + intros r d Hr.
      destruct r as [|[|[|r]]]; simpl in Hr; try (destruct r; discriminate Hr);
        injection Hr as <-; repeat constructor; simpl; intuition discriminate.
    + vm_compute. reflexivity.
    + left. reflexivity.
    + vm_compute. reflexivity.
    + reflexivity.
    + discriminate.
Defined.

(* ================================================================== *)
(** * Further properties of the code                                  *)
(* ================================================================== *)

(** ** The edit distance is a metric *)

Lemma edit_cost_refl : forall a, edit_cost a a 0.
Proof. induction a; constructor; assumption. Qed.

Lemma edit_cost_zero : forall a b n, edit_cost a b n -> n = 0 -> a = b.
Proof.
  induction 1 as [|c a b n _ IH| | |]; intro Hn; try discriminate.
  - reflexivity.
  - f_equal. apply IH. assumption.
Qed.

Lemma edit_cost_lengths : forall a b n,
  edit_cost a b n -> length a <= length b + n /\ length b <= length a + n.
Proof. induction 1; simpl; lia. Qed.

Lemma edit_cost_max : forall a b,
  exists k, k <= Nat.max (length a) (length b) /\ edit_cost a b k.
Proof.
  induction a as [|x a IH]; intro b.
  - exists (length b). split; [simpl; lia | apply edit_cost_nil_l].
  - destruct b as [|y b].
    + exists (length (x :: a)). split; [simpl; lia | apply edit_cost_nil_r].
    + destruct (IH b) as (k & Hk & Dk). exists (S k).
      split; [simpl; lia | apply edit_subst; assumption].
Qed.

Lemma edit_cost_trans : forall a b n,
  edit_cost a b n ->
  forall c m, edit_cost b c m -> exists k, k <= n + m /\ edit_cost a c k.
Proof.
  induction 1 as [|x a b n D1 IH|x y a b n D1 IH|x a b n D1 IH|x a b n D1 IH];
    intro c.
  - intros m D2. exists m. split; [lia | assumption].
  - induction c as [|z c IHc]; intros m D2; inversion D2; subst;
      try (match goal with
           | H : edit_cost b _ _ |- _ =>
               destruct (IH _ _ H) as (k & Hk & Dk)
           | H : edit_cost (x :: b) _ _ |- _ =>
               destruct (IHc _ H) as (k & Hk & Dk)
           end).
    + exists (S k). split; [lia | apply edit_delete; assumption].
    + exists k. split; [lia | apply edit_keep; assumption].
    + exists (S k). split; [lia | apply edit_subst; assumption].
    + exists (S k). split; [lia | apply edit_delete; assumption].
    + exists (S k). split; [lia | apply edit_insert; assumption].
  - induction c as [|z c IHc]; intros m D2; inversion D2; subst;
      try (match goal with
           | H : edit_cost b _ _ |- _ =>
               destruct (IH _ _ H) as (k & Hk & Dk)
           | H : edit_cost (y :: b) _ _ |- _ =>
               destruct (IHc _ H) as (k & Hk & Dk)
           end).
    + exists (S k). split; [lia | apply edit_delete; assumption].
    + exists (S k). split; [lia | apply edit_subst; assumption].
    + exists (S k). split; [lia | apply edit_subst; assumption].
    + exists (S k). split; [lia | apply edit_delete; assumption].
    + exists (S k). split; [lia | apply edit_insert; assumption].
  - intros m D2. destruct (IH _ _ D2) as (k & Hk & Dk).
    exists (S k). split; [lia | apply edit_delete; assumption].
  - induction c as [|z c IHc]; intros m D2; inversion D2; subst;
      try (match goal with
           | H : edit_cost b _ _ |- _ =>
               destruct (IH _ _ H) as (k & Hk & Dk)
           | H : edit_cost (x :: b) _ _ |- _ =>
               destruct (IHc _ H) as (k & Hk & Dk)
           end).
    + exists k. split; [lia | assumption].
    + exists (S k). split; [lia | apply edit_insert; assumption].
    + exists (S k). split; [lia | apply edit_insert; assumption].
    + exists k. split; [lia | assumption].
    + exists (S k). split; [lia | apply edit_insert; assumption].
Qed.

(** X1: the distance the program computes is a metric on strings: it is 0
    exactly between equal strings, it is symmetric, and it satisfies the
    triangle inequality. *)
Theorem levenshtein_distance_metric : forall a b c : pystr,
  (levenshtein_distance a b = 0 <-> a = b) /\
  levenshtein_distance a b = levenshtein_distance b a /\
  levenshtein_distance a c <= levenshtein_distance a b + levenshtein_distance b c.
Proof.
  intros a b c. rewrite !levenshtein_distance_lev. split; [|split].
  - split.
    + intro H. apply (edit_cost_zero a b (lev a b) (lev_sound a b) H).
    + intros <-. apply Nat.le_0_r. apply lev_least, edit_cost_refl.
  - apply lev_sym.
  - destruct (edit_cost_trans a b _ (lev_sound a b) c _ (lev_sound b c))
      as (k & Hk & Dk).
    apply lev_least in Dk. lia.
Qed.

(** X2: the distance lies between the difference of the two lengths and the
    greater of the two lengths. *)
Theorem levenshtein_distance_bounds : forall a b : pystr,
  length a - length b <= levenshtein_distance a b /\
  length b - length a <= levenshtein_distance a b /\
  levenshtein_distance a b <= Nat.max (length a) (length b).
Proof.
  intros a b. rewrite levenshtein_distance_lev.
  pose proof (edit_cost_lengths a b _ (lev_sound a b)) as [H1 H2].
  destruct (edit_cost_max a b) as (k & Hk & Dk). apply lev_least in Dk. lia.
Qed.

(** ** The similarity matcher is symmetric *)

Lemma pystr_eqb_sym : forall a b, pystr_eqb a b = pystr_eqb b a.
Proof.
  intros a b. destruct (pystr_eqb b a) eqn:E.
  - apply pystr_eqb_eq in E. subst. apply pystr_eqb_refl.
  - apply pystr_eqb_neq. apply pystr_eqb_neq in E. congruence.
Qed.

(** X3: [is_similar_title] does not depend on the order of its two titles,
    at any threshold. *)
Theorem is_similar_title_sym : forall (a b : pystr) (threshold : float),
  is_similar_title a b threshold = is_similar_title b a threshold.
Proof.
  intros a b threshold. unfold is_similar_title.
  rewrite (orb_comm (is_empty a)), (pystr_eqb_sym a b),
    (orb_comm (length a <? 5)), (Nat.max_comm (length a)),
    !levenshtein_distance_lev, (lev_sym a b).
  reflexivity.
Qed.

(** ** What the normalizers return *)

Lemma single_spaced_no_pair : forall pre b c1 c2 post,
  single_spaced b (pre ++ c1 :: c2 :: post) = true ->
  is_space c1 = true -> is_space c2 = false.
Proof.
  induction pre as [|x pre IH]; intros b c1 c2 post H H1; simpl in H.
  - rewrite H1 in H. destruct (is_space c2); [|reflexivity].
    apply andb_true_iff in H. destruct H as [_ H]. discriminate H.
  - destruct (is_space x).
    + apply andb_true_iff in H. destruct H as [_ H]. apply (IH true _ _ _ H H1).
    + apply (IH false _ _ _ H H1).
Qed.

Lemma key_ok_shape : forall k, key_ok k -> key_shape k.
Proof.
  intros k (Hlow & Hpunct & Hsp & Hstrip). split; [|split].
  - intros c Hc. rewrite Forall_forall in Hlow, Hpunct. split; [apply Hlow, Hc|].
    specialize (Hpunct c Hc). unfold is_punct in Hpunct.
    apply negb_false_iff, orb_true_iff in Hpunct.
    destruct Hpunct as [Hw | Hs]; [left; assumption | right].
    apply (single_spaced_space k false c Hsp Hc Hs).
  - assumption.
  - intros pre c1 c2 post ->. apply (single_spaced_no_pair pre false c1 c2 post Hsp).
Qed.

(** X4: every key the two normalizers return is lowercase, made of word
    characters and SPACEs only, has no white space at either end and no two
    SPACEs in a row. *)
Theorem normalized_key_shape : forall title : pystr,
  key_shape (BookMerger._normalize title) /\ key_shape (normalize_title title).
Proof.
  intro title. split; apply key_ok_shape;
    [apply _normalize_key_ok | apply normalize_title_key_ok].
Qed.

Lemma is_space_lower : forall c, is_space (lower_char c) = is_space c.
Proof. intro c. ascii_cases c. Qed.

Lemma lstrip_lower : forall s, lstrip (lower s) = lower (lstrip s).
Proof.
  induction s as [|c s IH]; [reflexivity|]. simpl. rewrite is_space_lower.
  destruct (is_space c); [assumption | reflexivity].
Qed.

Lemma rstrip_lower : forall s, rstrip (lower s) = lower (rstrip s).
Proof.
  induction s as [|c s IH]; [reflexivity|]. unfold lower in *.
  cbn [map rstrip]. rewrite IH.
  destruct (rstrip s) as [|x r]; cbn [map]; [|reflexivity].
  rewrite is_space_lower. destruct (is_space c); reflexivity.
Qed.

Lemma strip_lower : forall s, strip (lower s) = lower (strip s).
Proof. intro s. unfold strip. rewrite lstrip_lower, rstrip_lower. reflexivity. Qed.

Lemma prepare_strip : forall t, strip (lower (strip t)) = strip (lower t).
Proof. intro t. rewrite <- strip_lower. apply strip_idem. Qed.

(** X5: both normalizers ignore the case of the title and the white space
    around it. *)
Theorem normalize_ignores_case_and_margins : forall title : pystr,
  BookMerger._normalize (lower title) = BookMerger._normalize title /\
  BookMerger._normalize (strip title) = BookMerger._normalize title /\
  normalize_title (lower title) = normalize_title title /\
  normalize_title (strip title) = normalize_title title.
Proof.
  intro title. unfold BookMerger._normalize, normalize_title.
  rewrite lower_lower, prepare_strip. repeat split.
Qed.

Lemma rstrip_length : forall s, length (rstrip s) <= length s.
Proof.
  intro s. destruct (rstrip_prefix s) as [ws H]. rewrite H at 2.
  rewrite length_app. lia.
Qed.

Lemma strip_length : forall s, length (strip s) <= length s.
Proof.
  intro s. unfold strip. pose proof (rstrip_length (lstrip s)).
  pose proof (lstrip_length s). lia.
Qed.

Lemma squeeze_length : forall s b, length (squeeze b s) <= length s.
Proof.
  induction s as [|c s IH]; intro b; simpl; [lia|].
  destruct (is_space c); [destruct b|]; simpl;
    [specialize (IH true) | specialize (IH true) | specialize (IH false)]; lia.
Qed.

Lemma re_sub_start_length : forall r s,
  suffixing r -> length (re_sub_start r [] s) <= length s.
Proof.
  intros r s Hr. destruct (re_sub_start_suffix r s Hr) as [pre H].
  rewrite H at 2. rewrite length_app. lia.
Qed.

Lemma finish_length : forall a,
  length (strip (re_sub (plus is_space) (str " ") (re_sub (cls is_punct) [] a)))
  <= length a.
Proof.
  intro a. rewrite re_sub_cls, re_sub_spaces.
  pose proof (strip_length (squeeze false (filter (fun c => negb (is_punct c)) a))).
  pose proof (squeeze_length (filter (fun c => negb (is_punct c)) a) false).
  pose proof (filter_length_le (fun c => negb (is_punct c)) a). lia.
Qed.

(** X6: a key is never longer than the title it comes from. *)
Theorem normalize_length : forall title : pystr,
  length (BookMerger._normalize title) <= length title /\
  length (normalize_title title) <= length title.
Proof.
  intro title.
  assert (length (strip (lower title)) <= length title) as H0.
  { pose proof (strip_length (lower title)). unfold lower in *.
    rewrite length_map in *. assumption. }
  split.
  - unfold BookMerger._normalize.
    pose proof (finish_length
      (re_sub_start BookMerger.re_article [] (strip (lower title)))).
    pose proof (re_sub_start_length BookMerger.re_article (strip (lower title))
                  suffixing_merger_re_article). lia.
  - unfold normalize_title.
    set (t0 := strip (lower title)) in *.
    set (t1 := re_sub_start re_dark_tower [] t0).
    set (t2 := re_sub_start re_tour_sombre [] t1).
    set (t3 := re_sub_start re_gwendy [] t2).
    set (t4 := re_sub_start re_article [] t3).
    pose proof (finish_length t4).
    pose proof (re_sub_start_length re_dark_tower t0 suffixing_re_dark_tower).
    pose proof (re_sub_start_length re_tour_sombre t1 suffixing_re_tour_sombre).
    pose proof (re_sub_start_length re_gwendy t2 suffixing_re_gwendy).
    pose proof (re_sub_start_length re_article t3 suffixing_re_article).
    fold t1 in H1. fold t2 in H2. fold t3 in H3. fold t4 in H4. lia.
Qed.

(** ** The base title of a key *)

Lemma single_spaced_app_l : forall a m b,
  single_spaced b (a ++ m) = true -> single_spaced b a = true.
Proof.
  induction a as [|c a IH]; intros m b H; [reflexivity|]. simpl in *.
  destruct (is_space c).
  - apply andb_true_iff in H. destruct H as [H1 H2].
    rewrite H1, (IH m true H2). reflexivity.
  - apply (IH m false H).
Qed.

Lemma strip_no_lead : forall s, strip s = s -> no_lead s.
Proof.
  intros s H. rewrite <- H. unfold strip. apply rstrip_no_lead, lstrip_no_lead.
Qed.

Lemma no_lead_app_l : forall a m, no_lead (a ++ m) -> no_lead a.
Proof. intros [|c a] m H; [exact I | exact H]. Qed.

Lemma _extract_base_title_key_ok : forall k,
  key_ok k ->
  key_ok (BookMerger._extract_base_title k) /\
  exists m, k = BookMerger._extract_base_title k ++ m.
Proof.
  intros k Hk. rewrite (_extract_base_title_cuts k (key_ok_no_line_feed k Hk)).
  destruct Hk as (Hlow & Hpunct & Hsp & Hstrip).
  destruct (cuts_quiet BookMerger.edition_heads k edition_heads_good)
    as [_ [m Hm]].
  set (f := fold_left (fun r h => cut h r) BookMerger.edition_heads k) in *.
  rewrite Hm in Hlow, Hpunct, Hsp. apply Forall_app in Hlow, Hpunct.
  split.
  - split; [|split; [|split]].
    + apply Forall_strip. tauto.
    + apply Forall_strip. tauto.
    + unfold strip. apply single_spaced_rstrip.
      apply (single_spaced_lstrip f false). apply (single_spaced_app_l f m false Hsp).
    + apply strip_idem.
  - assert (no_lead f) as Hf.
    { apply (no_lead_app_l f m). rewrite <- Hm. apply strip_no_lead, Hstrip. }
    unfold strip. rewrite (no_lead_lstrip f Hf).
    destruct (rstrip_prefix f) as [ws Hws]. exists (ws ++ m).
    rewrite app_assoc, <- Hws. assumption.
Qed.

(** X7: on a normalized key the edition stripper only cuts a tail: the base
    title is a prefix of the key, and it is again a normalized key. *)
Theorem _extract_base_title_prefix : forall k : pystr,
  key_ok k ->
  key_ok (BookMerger._extract_base_title k) /\
  (exists m, k = BookMerger._extract_base_title k ++ m) /\
  length (BookMerger._extract_base_title k) <= length k.
Proof.
  intros k Hk. destruct (_extract_base_title_key_ok k Hk) as [H1 [m Hm]].
  split; [assumption|]. split; [exists m; assumption|].
  rewrite Hm at 2. rewrite length_app. lia.
Qed.

Lemma _extract_base_title_prefix_witness :
  key_ok (BookMerger._extract_base_title (str "stand complete uncut edition")) /\
  (exists m, str "stand complete uncut edition"
             = BookMerger._extract_base_title (str "stand complete uncut edition") ++ m) /\
  length (BookMerger._extract_base_title (str "stand complete uncut edition"))
  <= length (str "stand complete uncut edition").
Proof.
  apply (_extract_base_title_prefix (str "stand complete uncut edition")).
  unfold key_ok. split; [|split; [|split]]; try reflexivity; repeat constructor.
Defined.

Lemma plus_space_quiet : forall (r : re) s,
  Forall (fun c => is_space c = false) s -> quiet (plus is_space ;; r) s.
Proof.
  intros r s Hs pre post ->. apply Forall_app in Hs. destruct Hs as [_ Hs].
  unfold cat, plus, cat, cls. destruct post as [|c post]; [reflexivity|].
  inversion Hs as [|? ? Hc _]. rewrite Hc. reflexivity.
Qed.

Lemma rstrip_no_space : forall s,
  Forall (fun c => is_space c = false) s -> rstrip s = s.
Proof.
  induction 1 as [|c s Hc _ IH]; [reflexivity|]. simpl. rewrite IH.
  destruct s; [rewrite Hc|]; reflexivity.
Qed.

Lemma strip_no_space : forall s,
  Forall (fun c => is_space c = false) s -> strip s = s.
Proof.
  intros s H. unfold strip. rewrite no_lead_lstrip.
  - apply rstrip_no_space, H.
  - destruct H as [|c s Hc _]; [exact I | exact Hc].
Qed.

(** X8: a text with no white space in it has no edition variant to strip:
    it is its own base title. *)
Theorem _extract_base_title_single_word : forall k : pystr,
  Forall (fun c => is_space c = false) k ->
  BookMerger._extract_base_title k = k.
Proof.
  intros k Hk.
  assert (no_line_feed k) as Hlf.
  { unfold no_line_feed. rewrite Forall_forall in *. intros c Hc.
    apply space_is_dot, Hk, Hc. }
  rewrite (_extract_base_title_cuts k Hlf). rewrite cuts_fixed.
  - apply strip_no_space, Hk.
  - unfold BookMerger.edition_heads.
    repeat (constructor; [apply plus_space_quiet, Hk|]). constructor.
Qed.

Lemma _extract_base_title_single_word_witness :
  BookMerger._extract_base_title (str "carrie") = str "carrie".
Proof.
  apply (_extract_base_title_single_word (str "carrie")). repeat constructor.
Defined.

(** ** The existence check *)

Lemma three_tier_incl : forall key known known',
  incl known known' -> three_tier key known -> three_tier key known'.
Proof.
  intros key known known' Hi [H | [H | (e & He & H)]].
  - left. apply Hi, H.
  - right. left. apply Hi, H.
  - right. right. exists e. split; [apply Hi, He | assumption].
Qed.

(** X9: the existence check is monotone in the known titles: a key that is
    excluded stays excluded when titles are added, whatever their order and
    number; and with no known title nothing is excluded. *)
Theorem _is_existing_monotone : forall (key : pystr) (known known' : list pystr),
  incl known known' ->
  (BookMerger._is_existing key known = true ->
   BookMerger._is_existing key known' = true) /\
  BookMerger._is_existing key [] = false.
Proof.
  intros key known known' Hi. split.
  - rewrite !_is_existing_three_tier. apply three_tier_incl, Hi.
  - destruct (BookMerger._is_existing key []) eqn:E; [|reflexivity].
    apply _is_existing_three_tier in E.
    destruct E as [[] | [[] | (e & [] & _)]].
Qed.

Lemma _is_existing_monotone_witness :
  (BookMerger._is_existing (str "carrie") [str "carrie"] = true ->
   BookMerger._is_existing (str "carrie") [str "it"; str "carrie"] = true) /\
  BookMerger._is_existing (str "carrie") [] = false.
Proof.
  apply (_is_existing_monotone (str "carrie") [str "carrie"] [str "it"; str "carrie"]).
  intros x [<- | []]. right. left. reflexivity.
Defined.

(** X10: a key is excluded whenever its base title is: stripping the
    edition variant of a candidate can only lose an exclusion, never gain
    one. *)
Theorem _is_existing_base_title : forall (key : pystr) (known : list pystr),
  no_line_feed key ->
  BookMerger._is_existing (BookMerger._extract_base_title key) known = true ->
  BookMerger._is_existing key known = true.
Proof.
  intros key known Hk. rewrite !_is_existing_three_tier.
  unfold three_tier. rewrite (_extract_base_title_idem key Hk).
  intros [H | [H | H]].
  - right. left. assumption.
  - right. left. assumption.
  - right. right. assumption.
Qed.

Lemma _is_existing_base_title_witness :
  BookMerger._is_existing (str "stand complete uncut edition") [str "stand"] = true.
Proof.
  apply (_is_existing_base_title (str "stand complete uncut edition") [str "stand"]).
  - repeat constructor.
  - vm_compute. reflexivity.
Defined.

(** ** The merger: which records are returned, and in which order *)

Lemma mem_false : forall x xs, ~ In x xs -> mem x xs = false.
Proof.
  intros x xs H. destruct (mem x xs) eqn:E; [|reflexivity].
  apply mem_In in E. contradiction.
Qed.

Lemma merge_book_first_sightings : forall h0 known done h ab b h' ab' todo,
  merge_inv h0 known done (h, ab) ->
  BookMerger.merge_book known (h, ab) b = Some (h', ab') ->
  map snd ab ++ first_sightings h0 known (map fst ab) (b :: todo)
  = map snd ab' ++ first_sightings h0 known (map fst ab') todo.
Proof.
  intros h0 known done h ab b h' ab' todo Hinv Hstep.
  cbn [first_sightings]. unfold key_of.
  destruct (merge_book_cases known h ab b h' ab' Hstep)
    as [(-> & -> & [Hnone | (t & Ht & Hex)])
       | (t & Ht & Hex & [(Hget & -> & ->) | (r & Hget & -> & _)])].
  - rewrite (title_of_original_none h0 known done h ab b Hinv Hnone). reflexivity.
  - rewrite (current_title_original h0 known done h ab b t Hinv Ht).
    cbn [option_map]. rewrite Hex. reflexivity.
  - rewrite (current_title_original h0 known done h ab b t Hinv Ht).
    cbn [option_map]. rewrite Hex.
    rewrite (mem_false _ _ (all_books_get_None ab _ Hget)). cbn [orb].
    rewrite !map_app. cbn [map fst snd]. rewrite <- app_assoc. reflexivity.
  - rewrite (current_title_original h0 known done h ab b t Hinv Ht).
    cbn [option_map]. rewrite Hex.
    assert (mem (BookMerger._normalize t) (map fst ab) = true) as ->.
    { apply mem_In. apply in_map_iff. exists (BookMerger._normalize t, r).
      split; [reflexivity | apply all_books_get_In, Hget]. }
    reflexivity.
Qed.

Lemma merge_books_first_sightings : forall h0 known books done st st' todo,
  merge_inv h0 known done st ->
  fold_m (BookMerger.merge_book known) books st = Some st' ->
  map snd (snd st) ++ first_sightings h0 known (map fst (snd st)) (books ++ todo)
  = map snd (snd st') ++ first_sightings h0 known (map fst (snd st')) todo.
Proof.
  induction books as [|b books IH]; intros done st st' todo Hinv H;
    cbn [fold_m] in H.
  - injection H as <-. reflexivity.
  - destruct (BookMerger.merge_book known st b) as [st1|] eqn:E; [|discriminate H].
    rewrite <- (IH (done ++ [b]) st1 st' todo
                   (merge_book_inv h0 known done st b st1 Hinv E) H).
    destruct st as [h ab], st1 as [h1 ab1]. cbn [snd app].
    apply (merge_book_first_sightings h0 known done h ab b h1 ab1 _ Hinv E).
Qed.

Lemma merge_sources_first_sightings : forall h0 known sources done st st',
  merge_inv h0 known done st ->
  fold_m (fun st source => fold_m (BookMerger.merge_book known) source st)
         sources st = Some st' ->
  map snd (snd st) ++ first_sightings h0 known (map fst (snd st)) (concat sources)
  = map snd (snd st').
Proof.
  induction sources as [|src sources IH]; intros done st st' Hinv H;
    cbn [fold_m] in H.
  - injection H as <-. cbn [concat first_sightings]. apply app_nil_r.
  - destruct (fold_m (BookMerger.merge_book known) src st) as [st1|] eqn:E;
      [|discriminate H].
    rewrite <- (IH (done ++ src) st1 st'
                   (merge_books_inv h0 known src done st st1 Hinv E) H).
    cbn [concat].
    apply (merge_books_first_sightings h0 known src done st st1 _ Hinv E).
Qed.

(** X11: the list [merge] returns is a function of the store at the call,
    whatever the merging does to the records on the way: it is made of the
    first record of each key that is not known, in the order in which the
    sources list them. *)
Theorem merge_returns_first_sightings :
  forall h sources existing_titles titles h' out,
    BookMerger.merge h sources existing_titles = Some (h', out) ->
    BookMerger.known_titles h existing_titles = Some titles ->
    out = first_sightings h (map BookMerger._normalize titles) [] (concat sources).
Proof.
  intros h sources et titles h' out. unfold BookMerger.merge.
  intros H Hk. rewrite Hk in H.
  destruct (fold_m
              (fun st source =>
                 fold_m (BookMerger.merge_book (map BookMerger._normalize titles))
                        source st)
              sources (h, [])) as [[h1 ab]|] eqn:E; [|discriminate H].
  injection H as <- <-.
  symmetry.
  apply (merge_sources_first_sightings h _ sources [] (h, []) (h1, ab)
           (merge_inv_init h _) E).
Qed.

Lemma merge_returns_first_sightings_witness :
  [0] = first_sightings pet_sematary_store
          (map BookMerger._normalize [str "Carrie"]) [] (concat [[0]; [1]]).
Proof.
  apply (merge_returns_first_sightings pet_sematary_store [[0]; [1]] (Some 2)
           [str "Carrie"] pet_sematary_merged [0]).
  - vm_compute. reflexivity.
  - reflexivity.
Defined.

(** ** The records of the Wikipedia extractor *)

Lemma find_notes_length : forall cells,
  length (WikipediaService.find_notes cells) <= 200 /\
  (WikipediaService.find_notes cells = [] \/
   15 < length (WikipediaService.find_notes cells)).
Proof.
  induction cells as [|c cells IH]; cbn [WikipediaService.find_notes].
  - split; [simpl; lia | left; reflexivity].
  - destruct (15 <? length (WikipediaService.cell_text c)) eqn:Hlen;
      cbn [andb]; [|assumption].
    destruct (negb _); [|assumption].
    apply Nat.ltb_lt in Hlen. rewrite length_firstn. split; [lia | right; lia].
Qed.

Lemma _parse_row_record : forall cells previous_year book,
  WikipediaService._parse_row cells previous_year = Some book ->
  exists title notes year,
    book = wikipedia_record title notes year /\ wikipedia_fields title notes year.
Proof.
  intros cells p book. unfold WikipediaService._parse_row.
  destruct (length cells <? 1); [discriminate|].
  destruct (Z.eqb_spec (WikipediaService.resolved_year cells p) 0) as [|Hy];
    [discriminate|].
  destruct (match find (fun c => WikipediaService.is_th c && WikipediaService.scope_row c)
                       cells with
            | Some c => Some c
            | None => if 1 <? length cells then nth_error cells 1 else None
            end) as [title_cell|]; [|discriminate].
  set (title := WikipediaService._clean_title
                  (WikipediaService.title_of_cell title_cell)).
  destruct (is_empty title || (length title <? 2)) eqn:Hshort; [discriminate|].
  destruct (existsb (fun pub => contains pub (lower title))
                    WikipediaService.publishers) eqn:Hpub; [discriminate|].
  intro H. injection H as <-.
  exists title, (WikipediaService.find_notes (rev cells)),
         (WikipediaService.resolved_year cells p).
  split; [reflexivity|].
  apply orb_false_iff in Hshort. destruct Hshort as [_ Hshort].
  apply Nat.ltb_ge in Hshort.
  destruct (find_notes_length (rev cells)) as [Hn1 Hn2].
  split; [assumption|]. split; [apply strip_idem|]. split.
  - intros pub Hin. destruct (contains pub (lower title)) eqn:E; [|reflexivity].
    assert (existsb (fun pub => contains pub (lower title))
                    WikipediaService.publishers = true) as Habs
      by (apply existsb_exists; exists pub; tauto).
    congruence.
  - split; [assumption|]. split; [assumption|].
    apply WikipediaFacts.resolved_year_valid. assumption.
Qed.

(** X12: every record the row parser builds has the five fields, and a
    title of two characters at least with nothing to strip and no
    publisher's name, a note of 200 characters at most that is empty or
    longer than 15, a year within 1970..2030, and the duplicate flag off. *)
Theorem _parse_row_well_formed :
  forall (cells : WikipediaService.row) (previous_year : Z) (book : dict),
    WikipediaService._parse_row cells previous_year = Some book ->
    exists title notes year,
      book = wikipedia_record title notes year /\
      wikipedia_fields title notes year.
Proof. exact _parse_row_record. Qed.

Lemma _parse_row_well_formed_witness :
  exists title notes year,
    [ (str "Titre_VO", VStr (str "It"));
      (str "Annee_VO", VInt 1986);
      (str "Raw_Info", VStr (str "Winner of the British Fantasy Award"));
      (str "Is_Bachman", VBool false);
      (str "Is_Duplicate_or_Ignore", VBool false) ]
    = wikipedia_record title notes year /\
    wikipedia_fields title notes year.
Proof.
  apply (_parse_row_well_formed
           (WikipediaService.row_of "1986" "It" "Winner of the British Fantasy Award")
           0%Z).
  vm_compute. reflexivity.
Defined.

Lemma dict_set_snoc : forall d k v,
  dict_get d k = None -> dict_set d k v = d ++ [(k, v)].
Proof.
  induction d as [|[k' v'] d IH]; intros k v H; simpl in *; [reflexivity|].
  destruct (pystr_eqb k k'); [discriminate H|]. rewrite (IH k v H). reflexivity.
Qed.

Lemma parse_rows_records : forall section_id rows current_year book,
  In book (WikipediaService.parse_rows section_id rows current_year) ->
  exists title notes year,
    book = wikipedia_record title notes year ++
           [ (str "Source", VStr (str "Wikipedia"));
             (str "Section", VStr section_id) ] /\
    wikipedia_fields title notes year.
Proof.
  intros section_id. induction rows as [|r rows IH]; intros y book Hin;
    cbn [WikipediaService.parse_rows] in Hin; [contradiction|].
  destruct (WikipediaService._parse_row r y) as [b|] eqn:Hrow;
    [|apply (IH y book Hin)].
  destruct Hin as [<- | Hin]; [|apply (IH _ book Hin)].
  destruct (_parse_row_record r y b Hrow) as (title & notes & year & -> & Hwf).
  exists title, notes, year. split; [|assumption].
  rewrite (dict_set_snoc (wikipedia_record title notes year)) by reflexivity.
  rewrite dict_set_snoc by reflexivity. rewrite <- app_assoc. reflexivity.
Qed.

Lemma parse_rows_length : forall section_id rows current_year,
  length (WikipediaService.parse_rows section_id rows current_year) <= length rows.
Proof.
  intros section_id. induction rows as [|r rows IH]; intro y;
    cbn [WikipediaService.parse_rows]; [reflexivity|].
  destruct (WikipediaService._parse_row r y); simpl;
    [specialize (IH (WikipediaService.year_of d)) | specialize (IH y)]; lia.
Qed.

Lemma fetch_bibliography_records : forall page book,
  In book (WikipediaPage.fetch_bibliography page) ->
  exists title notes year section_id,
    book = wikipedia_record title notes year ++
           [ (str "Source", VStr (str "Wikipedia"));
             (str "Section", VStr section_id) ] /\
    wikipedia_fields title notes year.
Proof.
  intros [[novels collections]|] book Hin; [|contradiction].
  unfold WikipediaPage.fetch_bibliography, WikipediaService._parse_section in Hin.
  apply in_app_or in Hin.
  destruct Hin as [Hin | Hin];
    [destruct novels as [trs|] | destruct collections as [trs|]];
    try contradiction;
    destruct (parse_rows_records _ _ _ _ Hin) as (t & n & y & H);
    exists t, n, y; eexists; exact H.
Qed.

(** X13: whatever the page holds, every record of the bibliography is a
    well-formed record of the row parser followed by its source,
    "Wikipedia", and its section; a section gives at most one record per
    row after the header row, and a failed request gives none. *)
Theorem fetch_bibliography_well_formed :
  (forall page book,
     In book (WikipediaPage.fetch_bibliography page) ->
     exists title notes year section_id,
       book = wikipedia_record title notes year ++
              [ (str "Source", VStr (str "Wikipedia"));
                (str "Section", VStr section_id) ] /\
       (section_id = str "Novels" \/ section_id = str "Collections") /\
       wikipedia_fields title notes year) /\
  (forall table_rows section_id,
     length (WikipediaService._parse_section (Some table_rows) section_id)
     <= length table_rows - 1) /\
  WikipediaPage.fetch_bibliography None = [].
Proof.
  split; [|split; [|reflexivity]].
  - intros [[novels collections]|] book Hin; [|contradiction].
    unfold WikipediaPage.fetch_bibliography, WikipediaService._parse_section in Hin.
    apply in_app_or in Hin.
    destruct Hin as [Hin | Hin];
      [destruct novels as [trs|] | destruct collections as [trs|]];
      try contradiction;
      destruct (parse_rows_records _ _ _ _ Hin) as (t & n & y & H1 & H2);
      exists t, n, y; eexists; (split; [exact H1 | split; [tauto | exact H2]]).
  - intros trs section_id. unfold WikipediaService._parse_section.
    pose proof (parse_rows_length section_id (tl trs) 0%Z) as H.
    destruct trs as [|hd trs]; simpl in *; lia.
Qed.

Lemma fetch_bibliography_well_formed_witness :
  exists title notes year section_id,
    wikipedia_record (str "It") (str "Winner of the British Fantasy Award") 1986 ++
      [ (str "Source", VStr (str "Wikipedia")); (str "Section", VStr (str "Novels")) ]
    = wikipedia_record title notes year ++
      [ (str "Source", VStr (str "Wikipedia")); (str "Section", VStr section_id) ] /\
    (section_id = str "Novels" \/ section_id = str "Collections") /\
    wikipedia_fields title notes year.
Proof.
  apply (proj1 fetch_bibliography_well_formed
           (Some (Some [ [];
                         WikipediaService.row_of "1986" "It"
                           "Winner of the British Fantasy Award" ],
                  None))).
  vm_compute. left. reflexivity.
Defined.

(** ** The extractor and the merger together *)

Lemma typed_wikipedia_record : forall title notes year section_id,
  typed_dict (wikipedia_record title notes year ++
              [ (str "Source", VStr (str "Wikipedia"));
                (str "Section", VStr section_id) ]).
Proof.
  intros title notes year section_id k v Hin Hk _.
  unfold wikipedia_record in Hin. simpl in Hin.
  destruct Hin as [H | [H | [H | [H | [H | [H | [H | []]]]]]]];
    injection H as <- <-;
    try (eexists; reflexivity);
    destruct Hk as [Hk | Hk]; vm_compute in Hk; discriminate Hk.
Qed.

Lemma nth_error_map_ODict : forall (ds : list dict) tail r d,
  nth_error (map ODict ds ++ tail) r = Some (ODict d) ->
  r < length ds -> In d ds.
Proof.
  intros ds tail r d H Hr.
  rewrite nth_error_app1 in H by (rewrite length_map; assumption).
  apply nth_error_In in H. apply in_map_iff in H.
  destruct H as (d' & Heq & Hin). injection Heq as ->. assumption.
Qed.

(** X14: the merge of [main] never raises on what the Wikipedia extractor
    gives: with the bibliography as first source, a second source whose
    records have titles and notes that are strings when not empty, and any
    set of known titles, the call returns. *)
Theorem merge_of_fetched_returns :
  forall page (gemini_books : list dict) (existing_titles : list pystr),
    Forall typed_dict gemini_books ->
    let wiki_books := WikipediaPage.fetch_bibliography page in
    let n := length wiki_books in
    let m := length gemini_books in
    exists h' out,
      BookMerger.merge
        (map ODict (wiki_books ++ gemini_books) ++ [OSet existing_titles])
        [List.seq 0 n; List.seq n m] (Some (n + m)) = Some (h', out).
Proof.
  intros page gemini known Hg wiki n m. apply merge_total.
  assert (length (wiki ++ gemini) = n + m) as Hlen
    by (rewrite length_app; reflexivity).
  split; [|split].
  - intros r d Hr.
    destruct (Nat.lt_ge_cases r (n + m)) as [Hlt | Hge].
    + apply nth_error_map_ODict in Hr; [|lia].
      apply in_app_or in Hr. destruct Hr as [Hw | Hgm].
      * destruct (fetch_bibliography_records page d Hw)
          as (t & nt & y & s & -> & _).
        apply typed_wikipedia_record.
      * rewrite Forall_forall in Hg. apply Hg, Hgm.
    + rewrite nth_error_app2 in Hr by (rewrite length_map; lia).
      rewrite length_map, Hlen in Hr.
      destruct (r - (n + m)) as [|[|k]]; simpl in Hr; discriminate Hr.
  - intros b Hb. simpl in Hb. rewrite app_nil_r in Hb.
    assert (b < n + m) as Hlt.
    { apply in_app_or in Hb. destruct Hb as [Hb | Hb]; apply in_seq in Hb; lia. }
    destruct (nth_error (wiki ++ gemini) b) as [d|] eqn:E.
    * exists d. rewrite nth_error_app1 by (rewrite length_map; lia).
      rewrite nth_error_map, E. reflexivity.
    * apply nth_error_None in E. lia.
  - intros r Hr. injection Hr as <-. rewrite length_app, length_map. simpl. lia.
Qed.

Lemma merge_of_fetched_returns_witness :
  exists h' out,
    BookMerger.merge
      (map ODict
         (WikipediaPage.fetch_bibliography
            (Some (Some [ [];
                          WikipediaService.row_of "1986" "It"
                            "Winner of the British Fantasy Award" ],
                   None))
          ++ [ [ (str "Titre_VO", VStr (str "IT"));
                 (str "Annee_VO", VInt 1986);
                 (str "Raw_Info", VStr (str "Horror novel"));
                 (str "Is_Duplicate_or_Ignore", VBool false) ] ])
       ++ [OSet [str "Carrie"]])
      [List.seq 0 1; List.seq 1 1] (Some (1 + 1)) = Some (h', out).
Proof.
  apply (merge_of_fetched_returns
           (Some (Some [ [];
                         WikipediaService.row_of "1986" "It"
                           "Winner of the British Fantasy Award" ],
                  None))
           [ [ (str "Titre_VO", VStr (str "IT"));
               (str "Annee_VO", VInt 1986);
               (str "Raw_Info", VStr (str "Horror novel"));
               (str "Is_Duplicate_or_Ignore", VBool false) ] ]
           [str "Carrie"]).
  constructor; [|constructor].
  intros k v Hin Hk _. simpl in Hin.
  destruct Hin as [H | [H | [H | [H | []]]]]; injection H as <- <-;
    try (eexists; reflexivity);
    destruct Hk as [Hk | Hk]; vm_compute in Hk; discriminate Hk.
Defined.

(** ** The calls to the language model *)

(** X15: what [_call_with_retry] does, from what the requests give: it
    makes at most three requests; it goes on to the next one only after an
    API error whose text holds "503" or "429", sleeping 1, 2, then 4
    seconds; it returns the first reply, and [None] once a request fails in
    any other way or the third one fails. *)
Theorem _call_with_retry_spec :
  forall (A : Type) (requests : nat -> GeminiService.outcome A),
  exists n,
    n <= MAX_RETRIES /\
    snd (GeminiService._call_with_retry requests)
    = map (fun attempt => 2 ^ attempt) (List.seq 0 n) /\
    (forall attempt, attempt < n ->
       exists text, requests attempt = GeminiService.APIError text /\
                    GeminiService.retryable text = true) /\
    match fst (GeminiService._call_with_retry requests) with
    | Some json => n < MAX_RETRIES /\ requests n = GeminiService.Reply json
    | None =>
        n = MAX_RETRIES \/
        requests n = GeminiService.OtherError \/
        exists text, requests n = GeminiService.APIError text /\
                     GeminiService.retryable text = false
    end.
Proof.
  intros A requests.
  assert (forall n, (forall attempt, attempt < n ->
            exists text, requests attempt = GeminiService.APIError text /\
                         GeminiService.retryable text = true) ->
          forall text, requests n = GeminiService.APIError text ->
          GeminiService.retryable text = true ->
          forall attempt, attempt < S n ->
            exists text, requests attempt = GeminiService.APIError text /\
                         GeminiService.retryable text = true) as Hstep.
  { intros n Hn text Hreq Hret attempt Hlt.
    destruct (Nat.eq_dec attempt n) as [-> | Hne].
    - exists text. tauto.
    - apply Hn. lia. }
  assert (forall attempt, attempt < 0 ->
            exists text, requests attempt = GeminiService.APIError text /\
                         GeminiService.retryable text = true) as H0
    by (intros attempt Hlt; lia).
  unfold GeminiService._call_with_retry, MAX_RETRIES.
  cbn [List.seq GeminiService.retry_loop].
  destruct (requests 0) as [json0|text0|] eqn:E0.
  { exists 0. cbn. split; [lia|]. split; [reflexivity|]. split; [exact H0|].
    split; [lia | assumption]. }
  2:{ exists 0. cbn. split; [lia|]. split; [reflexivity|]. split; [exact H0|].
      right. left. assumption. }
  destruct (GeminiService.retryable text0) eqn:R0.
  2:{ exists 0. cbn. split; [lia|]. split; [reflexivity|]. split; [exact H0|].
      right. right. exists text0. tauto. }
  pose proof (Hstep 0 H0 text0 E0 R0) as H1.
  destruct (requests 1) as [json1|text1|] eqn:E1.
  { exists 1. cbn. split; [lia|]. split; [reflexivity|]. split; [exact H1|].
    split; [lia | assumption]. }
  2:{ exists 1. cbn. split; [lia|]. split; [reflexivity|]. split; [exact H1|].
      right. left. assumption. }
  destruct (GeminiService.retryable text1) eqn:R1.
  2:{ exists 1. cbn. split; [lia|]. split; [reflexivity|]. split; [exact H1|].
      right. right. exists text1. tauto. }
  pose proof (Hstep 1 H1 text1 E1 R1) as H2.
  destruct (requests 2) as [json2|text2|] eqn:E2.
  { exists 2. cbn. split; [lia|]. split; [reflexivity|]. split; [exact H2|].
    split; [lia | assumption]. }
  2:{ exists 2. cbn. split; [lia|]. split; [reflexivity|]. split; [exact H2|].
      right. left. assumption. }
  destruct (GeminiService.retryable text2) eqn:R2.
  2:{ exists 2. cbn. split; [lia|]. split; [reflexivity|]. split; [exact H2|].
      right. right. exists text2. tauto. }
  pose proof (Hstep 2 H2 text2 E2 R2) as H3.
  exists 3. cbn. split; [lia|]. split; [reflexivity|]. split; [exact H3|].
  left. reflexivity.
Qed.

Lemma dict_update_get_other : forall new d k,
  dict_get new k = None -> dict_get (dict_update d new) k = dict_get d k.
Proof.
  unfold dict_update. induction new as [|[k' v'] new IH]; intros d k H;
    cbn [fold_left fst snd]; [reflexivity|].
  simpl in H. destruct (pystr_eqb k k') eqn:E; [discriminate H|].
  rewrite (IH _ k H). apply dict_get_set_neq.
  apply pystr_eqb_neq in E. congruence.
Qed.

Lemma dict_update_get : forall new d k v,
  NoDup (map fst new) -> dict_get new k = Some v ->
  dict_get (dict_update d new) k = Some v.
Proof.
  unfold dict_update. induction new as [|[k' v'] new IH]; intros d k v Hnd H;
    [discriminate H|].
  cbn [fold_left fst snd]. simpl in H, Hnd.
  inversion Hnd as [|? ? Hk' Hnd']. subst.
  destruct (pystr_eqb k k') eqn:E.
  - apply pystr_eqb_eq in E. subst k'. injection H as ->.
    apply dict_get_None_keys in Hk'.
    pose proof (dict_update_get_other new (dict_set d k v) k Hk') as Ho.
    unfold dict_update in Ho. rewrite Ho. apply dict_get_set_eq.
  - apply (IH _ k v Hnd' H).
Qed.

Lemma categorize_book_cases : forall book_data requests analysis,
  GeminiService.categorize_book book_data requests = Some (Some analysis) ->
  dict_is_empty analysis = false ->
  exists result,
    fst (GeminiService._call_with_retry requests) = Some result /\
    dict_is_empty result = false /\
    analysis = dict_update result book_data.
Proof.
  intros book_data requests analysis. unfold GeminiService.categorize_book.
  destruct (dict_get book_data (str "Titre_VO")); [|discriminate].
  destruct (dict_get book_data (str "Annee_VO")); [|discriminate].
  destruct (fst (GeminiService._call_with_retry requests)) as [result|];
    [|discriminate].
  destruct (dict_is_empty result) eqn:E; cbn [negb]; intro H; injection H as <-.
  - congruence.
  - intros _. exists result. tauto.
Qed.

(** X16: in the analysis [categorize_book] returns, every field of the raw
    record takes precedence over the reply: the analysis has the record's
    value for each key of the record, and the reply's value for the other
    keys only. *)
Theorem categorize_book_record_wins :
  forall (book_data : dict) (requests : nat -> GeminiService.outcome dict)
         (analysis : dict),
    NoDup (map fst book_data) ->
    GeminiService.categorize_book book_data requests = Some (Some analysis) ->
    dict_is_empty analysis = false ->
    (forall k v, dict_get book_data k = Some v -> dict_get analysis k = Some v) /\
    exists result,
      fst (GeminiService._call_with_retry requests) = Some result /\
      forall k, dict_get book_data k = None ->
                dict_get analysis k = dict_get result k.
Proof.
  intros book_data requests analysis Hnd Hcat Hne.
  destruct (categorize_book_cases book_data requests analysis Hcat Hne)
    as (result & Hres & _ & ->).
  split.
  - intros k v Hk. apply dict_update_get; assumption.
  - exists result. split; [assumption|].
    intros k Hk. apply dict_update_get_other. assumption.
Qed.

Lemma categorize_book_record_wins_witness :
  (forall k v,
     dict_get [ (str "Titre_VO", VStr (str "It")); (str "Annee_VO", VInt 1986);
                (str "Is_Duplicate_or_Ignore", VBool false) ] k = Some v ->
     dict_get [ (str "Titre_VF", VStr (str "Ca"));
                (str "Is_Duplicate_or_Ignore", VBool false);
                (str "Titre_VO", VStr (str "It")); (str "Annee_VO", VInt 1986) ] k
     = Some v) /\
  exists result,
    fst (GeminiService._call_with_retry
           (fun _ => GeminiService.Reply
                       [ (str "Titre_VF", VStr (str "Ca"));
                         (str "Is_Duplicate_or_Ignore", VBool true) ]))
    = Some result /\
    forall k,
      dict_get [ (str "Titre_VO", VStr (str "It")); (str "Annee_VO", VInt 1986);
                 (str "Is_Duplicate_or_Ignore", VBool false) ] k = None ->
      dict_get [ (str "Titre_VF", VStr (str "Ca"));
                 (str "Is_Duplicate_or_Ignore", VBool false);
                 (str "Titre_VO", VStr (str "It")); (str "Annee_VO", VInt 1986) ] k
      = dict_get result k.
Proof.
  apply (categorize_book_record_wins
           [ (str "Titre_VO", VStr (str "It")); (str "Annee_VO", VInt 1986);
             (str "Is_Duplicate_or_Ignore", VBool false) ]
           (fun _ => GeminiService.Reply
                       [ (str "Titre_VF", VStr (str "Ca"));
                         (str "Is_Duplicate_or_Ignore", VBool true) ])).
  - repeat constructor; simpl; intuition discriminate.
  - vm_compute. reflexivity.
  - reflexivity.
Defined.












(** ** The first loop of [main]: which books are added *)

Lemma set_add_In : forall x y s, In y (set_add x s) <-> y = x \/ In y s.
Proof.
  intros x y s. unfold set_add. destruct (mem x s) eqn:E.
  - apply mem_In in E. split; [tauto | intros [-> | H]; assumption].
  - rewrite in_app_iff. simpl. split; [intros [H | [H | []]] | intros [H | H]]; auto.
Qed.

Lemma add_book_true : forall book append_ok,
  SheetsService.add_book book append_ok = true ->
  append_ok = true /\ exists c, category book = VStr c /\ In c TAB_MAPPING.
Proof.
  intros book ok. unfold SheetsService.add_book.
  destruct (category book) as [| | |c]; try discriminate.
  destruct (mem c TAB_MAPPING) eqn:E; cbn [negb]; [|discriminate].
  intro H. split; [assumption|]. exists c. split; [reflexivity|].
  apply mem_In. assumption.
Qed.

Lemma main_process_book_cases : forall st raw_book requests append_ok st',
  main_process_book st (raw_book, requests, append_ok) = Some st' ->
  st' = st \/
  exists analysis vo vf c,
    GeminiService.categorize_book raw_book requests = Some (Some analysis) /\
    dict_is_empty analysis = false /\
    truthy (dict_get_or analysis (str "Is_Duplicate_or_Ignore") (VBool true)) = false /\
    titre_vo (update_from_analysis (from_raw raw_book) analysis) = VStr vo /\
    titre_vf (update_from_analysis (from_raw raw_book) analysis) = VStr vf /\
    truthy (annee_vf (update_from_analysis (from_raw raw_book) analysis)) = true /\
    category (update_from_analysis (from_raw raw_book) analysis) = VStr c /\
    In c TAB_MAPPING /\
    append_ok = true /\
    ~ In (normalize_title vf) (existing_normalized st) /\
    (forall e, In e (existing_normalized st) ->
               is_similar_title (normalize_title vf) e default_threshold = false) /\
    st' = mk_main_state
            (set_add vf (set_add vo (existing_titles st)))
            (set_add (normalize_title vf)
               (set_add (normalize_title vo) (existing_normalized st)))
            (added_books st ++ [update_from_analysis (from_raw raw_book) analysis]).
Proof.
  intros st raw requests ok st'. unfold main_process_book.
  destruct (GeminiService.categorize_book raw requests) as [[analysis|]|] eqn:Hcat;
    [| intro H; injection H as <-; left; reflexivity | discriminate].
  destruct (dict_is_empty analysis) eqn:Hne;
    [intro H; injection H as <-; left; reflexivity|].
  destruct (truthy (dict_get_or analysis (str "Is_Duplicate_or_Ignore") (VBool true)))
    eqn:Hflag; [intro H; injection H as <-; left; reflexivity|].
  destruct (negb (truthy (dict_get_or analysis (str "Annee_FR") (VInt 0)))
            || equals_zero (dict_get_or analysis (str "Annee_FR") (VInt 0)))
    eqn:Hyear; [intro H; injection H as <-; left; reflexivity|].
  apply orb_false_iff in Hyear. destruct Hyear as [Hyear _].
  apply negb_false_iff in Hyear.
  destruct (dict_get_or analysis (str "Titre_VF") (VStr [])) as [| | |titre] eqn:Hvf;
    try discriminate.
  destruct (mem (normalize_title titre) (existing_normalized st)) eqn:Hmem;
    [intro H; injection H as <-; left; reflexivity|].
  destruct (existsb _ (existing_normalized st)) eqn:Hsim;
    [intro H; injection H as <-; left; reflexivity|].
  destruct (SheetsService.add_book _ ok) eqn:Hadd;
    [|intro H; injection H as <-; left; reflexivity].
  apply add_book_true in Hadd. destruct Hadd as (-> & c & Hc & Hin).
  cbn [titre_vo titre_vf update_from_analysis from_raw].
  rewrite Hvf.
  destruct (dict_get_or raw (str "Titre_VO") (VStr [])) as [| | |vo] eqn:Hvo;
    try discriminate.
  intro H. injection H as <-. right. exists analysis, vo, titre, c.
  cbn [titre_vo titre_vf annee_vf category update_from_analysis from_raw].
  cbn [category update_from_analysis] in Hc.
  repeat (split; [first [assumption | reflexivity]|]).
  split.
  - intro Hin'. apply mem_In in Hin'. congruence.
  - split; [|reflexivity].
    intros e He. destruct (is_similar_title _ e _) eqn:E; [|reflexivity].
    assert (existsb (fun existing =>
                       is_similar_title (normalize_title titre) existing
                                        default_threshold)
                    (existing_normalized st) = true) as Habs
      by (apply existsb_exists; exists e; tauto).
    congruence.
Qed.

Lemma snoc_split : forall (A : Type) (l pre post : list A) (x b : A),
  l ++ [x] = pre ++ b :: post ->
  (post = [] /\ pre = l /\ b = x) \/
  exists post', post = post' ++ [x] /\ l = pre ++ b :: post'.
Proof.
  intros A l pre post x b.
  assert (post = [] \/ exists post' y, post = post' ++ [y]) as [-> | (post' & y & ->)].
  { destruct post as [|p post]; [left; reflexivity|]. right.
    destruct (@exists_last A (p :: post)) as (post' & y & H); [discriminate|].
    exists post', y. assumption. }
  - intro H. apply app_inj_tail in H. left. destruct H as [-> ->]. tauto.
  - intro H. change (b :: post' ++ [y]) with ((b :: post') ++ [y]) in H.
    rewrite app_assoc in H. apply app_inj_tail in H. destruct H as [-> ->].
    right. exists post'. tauto.
Qed.

Lemma main_init_keys : forall titles acc e,
  In e (fold_left (fun s t => set_add (normalize_title t) s) titles acc) <->
  In e acc \/ In e (map normalize_title titles).
Proof.
  induction titles as [|t titles IH]; intros acc e; cbn [fold_left map].
  - simpl. tauto.
  - rewrite IH, set_add_In. simpl. split; intros H; intuition auto.
Qed.

Lemma main_process_book_inv : forall known st input st',
  gate_inv known st ->
  main_process_book st input = Some st' ->
  gate_inv known st'.
Proof.
  intros known st [[raw requests] ok] st' (Hk & Hb & Hf) Hstep.
  destruct (main_process_book_cases st raw requests ok st' Hstep)
    as [-> | (analysis & vo & vf & c & _ & _ & _ & Hvo & Hvf & _ & _ & _ & _
              & Hnew & Hsim & ->)];
    [split; [|split]; assumption|].
  set (book := update_from_analysis (from_raw raw) analysis) in *.
  split; [|split]; cbn [existing_normalized added_books].
  - intros e He. apply set_add_In. right. apply set_add_In. right. apply Hk, He.
  - intros b s Hin Hs. apply in_app_or in Hin. destruct Hin as [Hin | [<- | []]].
    + apply set_add_In. right. apply set_add_In. right. apply (Hb b s Hin Hs).
    + destruct Hs as [Hs | Hs]; rewrite Hs in *.
      * injection Hvo as ->. apply set_add_In. right. apply set_add_In. left.
        reflexivity.
      * injection Hvf as ->. apply set_add_In. left. reflexivity.
  - intros pre b post Hsplit. apply snoc_split in Hsplit.
    destruct Hsplit as [(-> & -> & ->) | (post' & -> & Hsplit)];
      [|apply (Hf pre b post' Hsplit)].
    exists vf. split; [assumption|]. split.
    + intros e He. split; [|apply Hsim, Hk, He].
      intros <-. apply Hnew, Hk, He.
    + intros b0 s Hin Hs. pose proof (Hb b0 s Hin Hs) as He.
      split; [|apply Hsim, He]. intro Heq. apply Hnew. rewrite Heq. assumption.
Qed.

Lemma main_books_inv : forall known inputs st st',
  gate_inv known st ->
  main_books inputs st = Some st' ->
  gate_inv known st'.
Proof.
  unfold main_books. induction inputs as [|input inputs IH]; intros st st' Hinv H;
    cbn [fold_m] in H.
  - injection H as <-. assumption.
  - destruct (main_process_book st input) as [st1|] eqn:E; [|discriminate H].
    apply (IH st1 st' (main_process_book_inv known st input st1 Hinv E) H).
Qed.

(** X18: no two books added in one run have the same or similar French
    titles, and none repeats what the sheets hold: the normalized French
    title of each book added differs from, and is not similar to, the
    normalized form of every title read from the sheets and of every title,
    original or French, of the books added before it. *)
Theorem main_adds_no_duplicate :
  forall (titles : list pystr) (inputs : list book_input) (st' : main_state),
    main_books inputs (main_init titles) = Some st' ->
    forall pre b post,
      added_books st' = pre ++ b :: post ->
      exists vf,
        titre_vf b = VStr vf /\
        fresh_title (map normalize_title titles) pre vf.
Proof.
  intros titles inputs st' H.
  assert (gate_inv (map normalize_title titles) (main_init titles)) as Hinit.
  { split; [|split]; cbn [main_init existing_normalized added_books].
    - intros e He. apply main_init_keys. right. assumption.
    - intros b s [].
    - intros [|x pre] b0 post Hs; discriminate Hs. }
  destruct (main_books_inv _ inputs _ st' Hinit H) as (_ & _ & Hf). exact Hf.
Qed.

Lemma main_adds_no_duplicate_witness :
  exists vf,
    titre_vf it_book = VStr vf /\
    fresh_title (map normalize_title [str "Carrie"]) [] vf.
Proof.
  apply (main_adds_no_duplicate [str "Carrie"] [it_input]
           (mk_main_state [str "Carrie"; str "It"; str "Ca"]
                          [str "carrie"; str "it"; str "ca"] [it_book])
           ltac:(vm_compute; reflexivity) [] it_book []).
  reflexivity.
Defined.

Lemma main_books_added : forall inputs st st',
  main_books inputs st = Some st' ->
  length (added_books st') <= length (added_books st) + length inputs /\
  (forall t, In t (existing_titles st) -> In t (existing_titles st')) /\
  forall b, In b (added_books st') ->
    In b (added_books st) \/
    exists raw_book requests analysis vo vf c,
      In (raw_book, requests, true) inputs /\
      GeminiService.categorize_book raw_book requests = Some (Some analysis) /\
      truthy (dict_get_or analysis (str "Is_Duplicate_or_Ignore") (VBool true))
      = false /\
      b = update_from_analysis (from_raw raw_book) analysis /\
      titre_vo b = VStr vo /\ titre_vf b = VStr vf /\
      truthy (annee_vf b) = true /\
      category b = VStr c /\ In c TAB_MAPPING /\
      In vo (existing_titles st') /\ In vf (existing_titles st').
Proof.
  unfold main_books. induction inputs as [|input inputs IH]; intros st st' H;
    cbn [fold_m] in H.
  - injection H as <-. simpl. split; [lia|]. split; [tauto|]. intros b Hb. left.
    assumption.
  - destruct (main_process_book st input) as [st1|] eqn:E; [|discriminate H].
    destruct (IH st1 st' H) as (Hlen & Hmono & Hadded). clear IH.
    destruct input as [[raw requests] ok].
    destruct (main_process_book_cases st raw requests ok st1 E)
      as [-> | (analysis & vo & vf & c & Hcat & _ & Hflag & Hvo & Hvf & Hyear & Hc
                & Hin & -> & _ & _ & ->)].
    + split; [simpl; lia|]. split; [assumption|].
      intros b Hb. destruct (Hadded b Hb) as [Hold | Hnew]; [left; assumption|].
      right. destruct Hnew as (r & q & a & vo & vf & c & Hi & Hrest).
      exists r, q, a, vo, vf, c. split; [right; assumption | assumption].
    + cbn [added_books existing_titles] in *. rewrite length_app in Hlen.
      simpl in Hlen. split; [simpl; lia|]. split.
      * intros t Ht. apply Hmono. apply set_add_In. right. apply set_add_In.
        right. assumption.
      * intros b Hb. destruct (Hadded b Hb) as [Hold | Hnew].
        -- apply in_app_or in Hold. destruct Hold as [Hold | [<- | []]];
             [left; assumption|].
           right. exists raw, requests, analysis, vo, vf, c.
           split; [left; reflexivity|].
           repeat (split; [first [assumption | reflexivity]|]).
           split; apply Hmono.
           ++ apply set_add_In. right. apply set_add_In. left. reflexivity.
           ++ apply set_add_In. left. reflexivity.
        -- right. destruct Hnew as (r & q & a & vo' & vf' & c' & Hi & Hrest).
           exists r, q, a, vo', vf', c'. split; [right; assumption | assumption].
Qed.

(** X19: what a run adds.  Each book added comes from one of the records
    given to the loop whose row could be appended: its analysis succeeded
    and does not flag it, the book is built from the record and the
    analysis, its two titles are strings, its French year is not zero and
    its category is one of the tabs; its two titles are among the known
    titles at the end, where every title known at the start still is; and
    there are no more books added than records. *)
Theorem main_added_books :
  forall (titles : list pystr) (inputs : list book_input) (st' : main_state),
    main_books inputs (main_init titles) = Some st' ->
    length (added_books st') <= length inputs /\
    (forall t, In t titles -> In t (existing_titles st')) /\
    forall b, In b (added_books st') ->
      exists raw_book requests analysis vo vf c,
        In (raw_book, requests, true) inputs /\
        GeminiService.categorize_book raw_book requests = Some (Some analysis) /\
        truthy (dict_get_or analysis (str "Is_Duplicate_or_Ignore") (VBool true))
        = false /\
        b = update_from_analysis (from_raw raw_book) analysis /\
        titre_vo b = VStr vo /\ titre_vf b = VStr vf /\
        truthy (annee_vf b) = true /\
        category b = VStr c /\ In c TAB_MAPPING /\
        In vo (existing_titles st') /\ In vf (existing_titles st').
Proof.
  intros titles inputs st' H.
  destruct (main_books_added inputs (main_init titles) st' H) as (Hlen & Hmono & Hb).
  split; [exact Hlen|]. split; [exact Hmono|].
  intros b Hin. destruct (Hb b Hin) as [[] | Hnew]. exact Hnew.
Qed.

Lemma main_added_books_witness :
  length [it_book] <= length [it_input] /\
  (forall t, In t [str "Carrie"] -> In t [str "Carrie"; str "It"; str "Ca"]) /\
  forall b, In b [it_book] ->
    exists raw_book requests analysis vo vf c,
      In (raw_book, requests, true) [it_input] /\
      GeminiService.categorize_book raw_book requests = Some (Some analysis) /\
      truthy (dict_get_or analysis (str "Is_Duplicate_or_Ignore") (VBool true))
      = false /\
      b = update_from_analysis (from_raw raw_book) analysis /\
      titre_vo b = VStr vo /\ titre_vf b = VStr vf /\
      truthy (annee_vf b) = true /\
      category b = VStr c /\ In c TAB_MAPPING /\
      In vo [str "Carrie"; str "It"; str "Ca"] /\
      In vf [str "Carrie"; str "It"; str "Ca"].
Proof.
  apply (main_added_books [str "Carrie"] [it_input]
           (mk_main_state [str "Carrie"; str "It"; str "Ca"]
                          [str "carrie"; str "it"; str "ca"] [it_book])).
  vm_compute. reflexivity.
Defined.

(** ** The rows to complete *)

Lemma firstn_pad : forall cells,
  firstn 5 (SheetsService.pad cells)
  = [nth 0 cells []; nth 1 cells []; nth 2 cells []; nth 3 cells []; nth 4 cells []].
Proof.
  intros [|a [|b [|c [|d [|e l]]]]]; reflexivity.
Qed.

Lemma no_year_missing : forall s,
  SheetsService.no_year s = true <-> year_missing (strip s).
Proof.
  intro s. unfold SheetsService.no_year, year_missing.
  rewrite orb_true_iff, pystr_eqb_eq.
  destruct (strip s); simpl; split; intros [H | H]; auto; discriminate H.
Qed.

Lemma is_empty_true : forall s, is_empty s = true <-> s = [].
Proof. intros [|c s]; simpl; split; intro H; auto; discriminate H. Qed.

Lemma incomplete_row_spec : forall tab_name row_idx cells e,
  In e (SheetsService.incomplete_row tab_name row_idx cells) ->
  SheetsService.tab e = tab_name /\
  SheetsService.row e = row_idx /\
  SheetsService.Titre_VF e = cell_at cells 0 /\
  SheetsService.Titre_VO e = cell_at cells 1 /\
  SheetsService.Annee_VO e = cell_at cells 2 /\
  SheetsService.Annee_VF e = cell_at cells 3 /\
  SheetsService.Details e = cell_at cells 4 /\
  SheetsService.Titre_VO e <> [] /\
  SheetsService.missing e <> [] /\
  (forall k, In k (SheetsService.missing e) <->
     (k = str "Titre_VF" /\ SheetsService.Titre_VF e = []) \/
     (k = str "Annee_VO" /\ year_missing (SheetsService.Annee_VO e)) \/
     (k = str "Annee_VF" /\ year_missing (SheetsService.Annee_VF e))).
Proof.
  intros tab_name row_idx cells e. unfold SheetsService.incomplete_row.
  rewrite firstn_pad. unfold cell_at.
  set (missing :=
         (if is_empty (strip (nth 0 cells [])) then [str "Titre_VF"] else []) ++
         (if SheetsService.no_year (nth 2 cells []) then [str "Annee_VO"] else []) ++
         (if SheetsService.no_year (nth 3 cells []) then [str "Annee_VF"] else [])).
  assert (forall k, In k missing <->
            (k = str "Titre_VF" /\ strip (nth 0 cells []) = []) \/
            (k = str "Annee_VO" /\ year_missing (strip (nth 2 cells []))) \/
            (k = str "Annee_VF" /\ year_missing (strip (nth 3 cells [])))) as Hm.
  { intro k. unfold missing. rewrite !in_app_iff.
    rewrite <- !no_year_missing, <- is_empty_true.
    destruct (is_empty (strip (nth 0 cells []))),
             (SheetsService.no_year (nth 2 cells [])),
             (SheetsService.no_year (nth 3 cells [])); simpl;
      intuition (try discriminate; auto). }
  destruct missing as [|m0 ms] eqn:Hmiss; [contradiction|].
  destruct (is_empty (strip (nth 1 cells []))) eqn:Hvo; cbn [negb]; [contradiction|].
  intros [<- | []]. cbn.
  repeat (split; [reflexivity|]).
  split; [intro H; rewrite H in Hvo; discriminate Hvo|].
  split; [discriminate | exact Hm].
Qed.

Lemma incomplete_rows_from_spec : forall tab_name rows row_idx e,
  In e (SheetsService.incomplete_rows_from tab_name row_idx rows) ->
  exists j cells,
    nth_error rows j = Some cells /\
    In e (SheetsService.incomplete_row tab_name (row_idx + j) cells).
Proof.
  intros tab_name. induction rows as [|cells rows IH]; intros i e Hin;
    cbn [SheetsService.incomplete_rows_from] in Hin; [contradiction|].
  apply in_app_or in Hin. destruct Hin as [Hin | Hin].
  - exists 0, cells. rewrite Nat.add_0_r. split; [reflexivity | assumption].
  - destruct (IH (S i) e Hin) as (j & c & Hj & Hc).
    exists (S j), c. rewrite Nat.add_succ_r. split; assumption.
Qed.

Lemma get_incomplete_rows_spec : forall read e,
  In e (SheetsService.get_incomplete_rows read) ->
  In (SheetsService.tab e) TAB_MAPPING /\
  2 <= SheetsService.row e /\
  exists rows cells,
    read (SheetsService.tab e) = Some rows /\
    nth_error rows (SheetsService.row e - 1) = Some cells /\
    In e (SheetsService.incomplete_row (SheetsService.tab e) (SheetsService.row e)
                                       cells).
Proof.
  intros read e Hin. unfold SheetsService.get_incomplete_rows in Hin.
  apply in_flat_map in Hin. destruct Hin as (tab_name & Htab & Hin).
  destruct (read tab_name) as [rows|] eqn:Hread; [|contradiction].
  destruct (incomplete_rows_from_spec tab_name (tl rows) 2 e Hin)
    as (j & cells & Hj & Hrow).
  destruct (incomplete_row_spec tab_name (2 + j) cells e Hrow) as (Ht & Hr & _).
  rewrite Ht, Hr. split; [assumption|]. split; [lia|].
  exists rows, cells. split; [assumption|]. split; [|assumption].
  replace (2 + j - 1) with (S j) by lia.
  destruct rows as [|hd rows]; [destruct j; discriminate Hj | exact Hj].
Qed.

(** X20: every entry of [get_incomplete_rows] designates a row of a tab
    that was read: its row number, counted from 1 with the header row, is
    at least 2 and is the number of the row its fields were read from,
    each field being the stripped cell of its column; the original title
    is not empty; and the list of what is missing is not empty and names
    exactly the French title when that cell is blank and each year whose
    cell is blank or "0". *)
Theorem get_incomplete_rows_entries :
  forall (read : pystr -> option (list (list pystr))) (e : SheetsService.row_data),
    In e (SheetsService.get_incomplete_rows read) ->
    In (SheetsService.tab e) TAB_MAPPING /\
    2 <= SheetsService.row e /\
    exists rows cells,
      read (SheetsService.tab e) = Some rows /\
      nth_error rows (SheetsService.row e - 1) = Some cells /\
      SheetsService.Titre_VF e = cell_at cells 0 /\
      SheetsService.Titre_VO e = cell_at cells 1 /\
      SheetsService.Annee_VO e = cell_at cells 2 /\
      SheetsService.Annee_VF e = cell_at cells 3 /\
      SheetsService.Details e = cell_at cells 4 /\
      SheetsService.Titre_VO e <> [] /\
      SheetsService.missing e <> [] /\
      (forall k, In k (SheetsService.missing e) <->
         (k = str "Titre_VF" /\ SheetsService.Titre_VF e = []) \/
         (k = str "Annee_VO" /\ year_missing (SheetsService.Annee_VO e)) \/
         (k = str "Annee_VF" /\ year_missing (SheetsService.Annee_VF e))).
Proof.
  intros read e Hin.
  destruct (get_incomplete_rows_spec read e Hin)
    as (Htab & Hrow & rows & cells & Hread & Hnth & Hentry).
  split; [assumption|]. split; [assumption|]. exists rows, cells.
  split; [assumption|]. split; [assumption|].
  apply (incomplete_row_spec _ _ _ _ Hentry).
Qed.

Lemma get_incomplete_rows_entries_witness :
  In (SheetsService.tab it_row_data) TAB_MAPPING /\
  2 <= SheetsService.row it_row_data /\
  exists rows cells,
    romans_only (SheetsService.tab it_row_data) = Some rows /\
    nth_error rows (SheetsService.row it_row_data - 1) = Some cells /\
    SheetsService.Titre_VF it_row_data = cell_at cells 0 /\
    SheetsService.Titre_VO it_row_data = cell_at cells 1 /\
    SheetsService.Annee_VO it_row_data = cell_at cells 2 /\
    SheetsService.Annee_VF it_row_data = cell_at cells 3 /\
    SheetsService.Details it_row_data = cell_at cells 4 /\
    SheetsService.Titre_VO it_row_data <> [] /\
    SheetsService.missing it_row_data <> [] /\
    (forall k, In k (SheetsService.missing it_row_data) <->
       (k = str "Titre_VF" /\ SheetsService.Titre_VF it_row_data = []) \/
       (k = str "Annee_VO" /\ year_missing (SheetsService.Annee_VO it_row_data)) \/
       (k = str "Annee_VF" /\ year_missing (SheetsService.Annee_VF it_row_data))).
Proof.
  apply (get_incomplete_rows_entries romans_only it_row_data).
  vm_compute. left. reflexivity.
Defined.

(** ** The completion of the rows *)

Ltac eval_key_tests :=
  repeat match goal with
         | |- context [pystr_eqb (str ?a) (str ?b)] =>
             let r := eval vm_compute in (pystr_eqb (str a) (str b)) in
             change (pystr_eqb (str a) (str b)) with r
         end.

Lemma get_cond_set : forall (c : bool) (u : dict) k v k',
  dict_get_or (if c then dict_set u k v else u) k' VNone
  = if c && pystr_eqb k' k then v else dict_get_or u k' VNone.
Proof.
  intros c u k v k'. destruct c; cbn [andb]; [|reflexivity].
  unfold dict_get_or. destruct (pystr_eqb k' k) eqn:E.
  - apply pystr_eqb_eq in E. subst k'. rewrite dict_get_set_eq. reflexivity.
  - apply pystr_eqb_neq in E. rewrite dict_get_set_neq by assumption. reflexivity.
Qed.

Lemma completion_updates_gets : forall e completion,
  let updates := completion_updates e completion in
  dict_get_or updates (str "Titre_VF") VNone
  = (if mem (str "Titre_VF") (SheetsService.missing e)
        && truthy (dict_get_or completion (str "Titre_VF") VNone)
     then dict_get_or completion (str "Titre_VF") VNone else VNone) /\
  dict_get_or updates (str "Annee_VO") VNone
  = (if mem (str "Annee_VO") (SheetsService.missing e)
        && truthy (dict_get_or completion (str "Annee_VO") VNone)
     then dict_get_or completion (str "Annee_VO") VNone else VNone) /\
  dict_get_or updates (str "Annee_VF") VNone
  = (if mem (str "Annee_VF") (SheetsService.missing e)
        && truthy (dict_get_or completion (str "Annee_VF") VNone)
     then dict_get_or completion (str "Annee_VF") VNone else VNone) /\
  dict_get_or updates (str "Details") VNone
  = (if is_empty (SheetsService.Details e)
        && truthy (dict_get_or completion (str "Details") VNone)
     then dict_get_or completion (str "Details") VNone else VNone).
Proof.
  intros e completion. unfold completion_updates. cbv zeta.
  rewrite !get_cond_set. eval_key_tests.
  rewrite ?andb_false_r, ?andb_true_r.
  unfold dict_get_or at 1 4 7 10. cbn [dict_get].
  repeat split.
Qed.

Lemma update_row_sent : forall row_idx data open_ok cell_5 batch_ok col r v,
  In (col, r, v) (snd (SheetsService.update_row row_idx data open_ok cell_5 batch_ok)) ->
  r = row_idx /\ truthy v = true /\
  ((col = "A"%char /\ v = dict_get_or data (str "Titre_VF") VNone) \/
   (col = "C"%char /\ v = dict_get_or data (str "Annee_VO") VNone) \/
   (col = "D"%char /\ v = dict_get_or data (str "Annee_VF") VNone) \/
   (col = "E"%char /\ v = dict_get_or data (str "Details") VNone /\
    (cell_5 = Some None \/ cell_5 = Some (Some [])))).
Proof.
  intros row_idx data open_ok cell_5 batch_ok col r v.
  unfold SheetsService.update_row. cbv zeta.
  destruct open_ok; cbn [negb]; [|intros []].
  set (updates :=
         (if truthy (dict_get_or data (str "Titre_VF") VNone)
          then [("A"%char, row_idx, dict_get_or data (str "Titre_VF") VNone)] else []) ++
         (if truthy (dict_get_or data (str "Annee_VO") VNone)
          then [("C"%char, row_idx, dict_get_or data (str "Annee_VO") VNone)] else []) ++
         (if truthy (dict_get_or data (str "Annee_VF") VNone)
          then [("D"%char, row_idx, dict_get_or data (str "Annee_VF") VNone)] else [])).
  assert (forall details,
            (forall x, In x details ->
               x = ("E"%char, row_idx, dict_get_or data (str "Details") VNone) /\
               truthy (dict_get_or data (str "Details") VNone) = true /\
               (cell_5 = Some None \/ cell_5 = Some (Some []))) ->
            In (col, r, v) (updates ++ details) ->
            r = row_idx /\ truthy v = true /\
            ((col = "A"%char /\ v = dict_get_or data (str "Titre_VF") VNone) \/
             (col = "C"%char /\ v = dict_get_or data (str "Annee_VO") VNone) \/
             (col = "D"%char /\ v = dict_get_or data (str "Annee_VF") VNone) \/
             (col = "E"%char /\ v = dict_get_or data (str "Details") VNone /\
              (cell_5 = Some None \/ cell_5 = Some (Some []))))) as Hall.
  { intros details Hd Hin. apply in_app_or in Hin. destruct Hin as [Hin | Hin].
    - unfold updates in Hin. rewrite !in_app_iff in Hin.
      destruct Hin as [Hin | [Hin | Hin]].
      + destruct (truthy (dict_get_or data (str "Titre_VF") VNone)) eqn:E;
          [|contradiction].
        destruct Hin as [H | []]. injection H as <- <- <-. tauto.
      + destruct (truthy (dict_get_or data (str "Annee_VO") VNone)) eqn:E;
          [|contradiction].
        destruct Hin as [H | []]. injection H as <- <- <-. tauto.
      + destruct (truthy (dict_get_or data (str "Annee_VF") VNone)) eqn:E;
          [|contradiction].
        destruct Hin as [H | []]. injection H as <- <- <-. tauto.
    - destruct (Hd _ Hin) as (H & Ht & Hc). injection H as -> -> ->. tauto. }
  destruct (truthy (dict_get_or data (str "Details") VNone)) eqn:Ed.
  - destruct cell_5 as [[s|]|]; [| |intros []].
    + destruct (is_empty s) eqn:Es.
      * apply is_empty_true in Es. subst s.
        destruct (updates ++ _) as [|u us] eqn:Eu; [intros []|].
        rewrite <- Eu. apply Hall. intros x [<- | []]. tauto.
      * destruct (updates ++ []) as [|u us] eqn:Eu; [intros []|].
        rewrite <- Eu. apply Hall. intros x [].
    + destruct (updates ++ _) as [|u us] eqn:Eu; [intros []|].
      rewrite <- Eu. apply Hall. intros x [<- | []]. tauto.
  - destruct (updates ++ []) as [|u us] eqn:Eu; [intros []|].
    rewrite <- Eu. apply Hall. intros x [].
Qed.

Lemma update_row_done : forall row_idx data open_ok cell_5 batch_ok,
  fst (SheetsService.update_row row_idx data open_ok cell_5 batch_ok) = true ->
  snd (SheetsService.update_row row_idx data open_ok cell_5 batch_ok) <> [] /\
  open_ok = true /\ batch_ok = true.
Proof.
  intros row_idx data open_ok cell_5 batch_ok.
  unfold SheetsService.update_row. cbv zeta.
  destruct open_ok; cbn [negb]; [|discriminate].
  destruct (if truthy (dict_get_or data (str "Details") VNone) then _ else _)
    as [details|]; [|discriminate].
  destruct (_ ++ details) as [|u us]; [discriminate|].
  cbn [fst snd]. intros ->. split; [discriminate | tauto].
Qed.

Lemma truthy_cond : forall (c : bool) v,
  truthy (if c && truthy v then v else VNone) = true -> c = true.
Proof.
  intros [] v; cbn [andb]; [reflexivity|]. intro H. discriminate H.
Qed.

(** X21: the completion never writes over a cell that is filled.  For an
    entry of [get_incomplete_rows], whatever the completion, every update
    handed to [batch_update] is for the row of the entry and has a value
    that is not empty; it is for column A only if the French title read
    from that row was blank, for column C or D only if the year read there
    was blank or "0", and for column E only if the details read were blank
    and the cell is empty when read again.  A row counted as completed had
    at least one update, and the batch went through. *)
Theorem main_complete_row_fills_blanks :
  forall (read : pystr -> option (list (list pystr))) (e : SheetsService.row_data)
         (requests : nat -> GeminiService.outcome dict)
         (open_ok : bool) (cell_5 : option (option pystr)) (batch_ok : bool),
    In e (SheetsService.get_incomplete_rows read) ->
    (fst (main_complete_row e requests open_ok cell_5 batch_ok) = true ->
     snd (main_complete_row e requests open_ok cell_5 batch_ok) <> [] /\
     batch_ok = true) /\
    forall col r v,
      In (col, r, v) (snd (main_complete_row e requests open_ok cell_5 batch_ok)) ->
      r = SheetsService.row e /\ truthy v = true /\
      exists rows cells,
        read (SheetsService.tab e) = Some rows /\
        nth_error rows (r - 1) = Some cells /\
        ((col = "A"%char /\ cell_at cells 0 = []) \/
         (col = "C"%char /\ year_missing (cell_at cells 2)) \/
         (col = "D"%char /\ year_missing (cell_at cells 3)) \/
         (col = "E"%char /\ cell_at cells 4 = [] /\
          (cell_5 = Some None \/ cell_5 = Some (Some [])))).
Proof.
  intros read e requests open_ok cell_5 batch_ok Hin.
  destruct (get_incomplete_rows_spec read e Hin)
    as (_ & _ & rows & cells & Hread & Hnth & Hentry).
  destruct (incomplete_row_spec _ _ _ _ Hentry)
    as (_ & _ & Hvf & _ & Hyo & Hyf & Hdet & _ & _ & Hmiss).
  unfold main_complete_row.
  destruct (complete_book_info e requests) as [completion|];
    [|split; [discriminate | intros col r v []]].
  destruct (dict_is_empty completion); [split; [discriminate | intros col r v []]|].
  destruct (dict_is_empty (completion_updates e completion));
    [split; [discriminate | intros col r v []]|].
  split.
  - intro Hdone. apply update_row_done in Hdone. tauto.
  - intros col r v Hsent. apply update_row_sent in Hsent.
    destruct Hsent as (-> & Hv & Hcol). split; [reflexivity|]. split; [assumption|].
    exists rows, cells. split; [assumption|]. split; [assumption|].
    destruct (completion_updates_gets e completion) as (G1 & G2 & G3 & G4).
    destruct Hcol as [[-> ->] | [[-> ->] | [[-> ->] | (-> & -> & Hc5)]]].
    + left. split; [reflexivity|]. rewrite G1 in Hv. apply truthy_cond in Hv.
      apply mem_In, Hmiss in Hv. rewrite <- Hvf.
      destruct Hv as [[_ H] | [[H _] | [H _]]];
        [assumption | discriminate H | discriminate H].
    + right. left. split; [reflexivity|]. rewrite G2 in Hv. apply truthy_cond in Hv.
      apply mem_In, Hmiss in Hv. rewrite <- Hyo.
      destruct Hv as [[H _] | [[_ H] | [H _]]];
        [discriminate H | assumption | discriminate H].
    + right. right. left. split; [reflexivity|]. rewrite G3 in Hv.
      apply truthy_cond in Hv. apply mem_In, Hmiss in Hv. rewrite <- Hyf.
      destruct Hv as [[H _] | [[H _] | [_ H]]];
        [discriminate H | discriminate H | assumption].
    + right. right. right. split; [reflexivity|]. rewrite G4 in Hv.
      apply truthy_cond in Hv. apply is_empty_true in Hv. rewrite <- Hdet.
      split; assumption.
Qed.

Lemma main_complete_row_fills_blanks_witness :
  (fst (main_complete_row it_row_data (fun _ => GeminiService.Reply it_completion)
                          true (Some None) true) = true ->
   snd (main_complete_row it_row_data (fun _ => GeminiService.Reply it_completion)
                          true (Some None) true) <> [] /\
   true = true) /\
  forall col r v,
    In (col, r, v)
       (snd (main_complete_row it_row_data (fun _ => GeminiService.Reply it_completion)
                               true (Some None) true)) ->
    r = SheetsService.row it_row_data /\ truthy v = true /\
    exists rows cells,
      romans_only (SheetsService.tab it_row_data) = Some rows /\
      nth_error rows (r - 1) = Some cells /\
      ((col = "A"%char /\ cell_at cells 0 = []) \/
       (col = "C"%char /\ year_missing (cell_at cells 2)) \/
       (col = "D"%char /\ year_missing (cell_at cells 3)) \/
       (col = "E"%char /\ cell_at cells 4 = [] /\
        (@Some (option pystr) None = Some None \/
         @Some (option pystr) None = Some (Some [])))).
Proof.
  apply (main_complete_row_fills_blanks romans_only it_row_data
           (fun _ => GeminiService.Reply it_completion) true (Some None) true).
  vm_compute. left. reflexivity.
Defined.

(** ** The titles read from the sheets *)

Lemma set_add_NoDup : forall x s, NoDup s -> NoDup (set_add x s).
Proof.
  intros x s H. unfold set_add. destruct (mem x s) eqn:E; [assumption|].
  apply NoDup_snoc; [assumption|]. intro Hin. apply mem_In in Hin. congruence.
Qed.

Lemma add_titles_spec : forall column titles,
  (NoDup titles -> NoDup (SheetsService.add_titles column titles)) /\
  forall t, In t (SheetsService.add_titles column titles) <->
            In t titles \/ exists cell, In cell column /\ t = strip cell /\ t <> [].
Proof.
  unfold SheetsService.add_titles.
  induction column as [|c column IH]; intro titles; cbn [fold_left].
  - split; [tauto|]. intro t. split; [tauto | intros [H | (cell & [] & _)]; exact H].
  - destruct (is_empty (strip c)) eqn:E; cbn [negb].
    + destruct (IH titles) as [Hnd Hin]. split; [assumption|].
      intro t. rewrite Hin. split.
      * intros [H | (cell & Hc & Ht)]; [left; assumption|].
        right. exists cell. split; [right; assumption | assumption].
      * intros [H | (cell & [<- | Hc] & -> & Hne)]; [left; assumption | |].
        -- apply is_empty_true in E. congruence.
        -- right. exists cell. tauto.
    + destruct (IH (set_add (strip c) titles)) as [Hnd Hin]. split.
      * intro H. apply Hnd, set_add_NoDup, H.
      * intro t. rewrite Hin, set_add_In. split.
        -- intros [[-> | H] | (cell & Hc & Ht)].
           ++ right. exists c. split; [left; reflexivity|]. split; [reflexivity|].
              intro H. rewrite H in E. discriminate E.
           ++ left. assumption.
           ++ right. exists cell. split; [right; assumption | assumption].
        -- intros [H | (cell & [<- | Hc] & -> & Hne)].
           ++ left. right. assumption.
           ++ left. left. reflexivity.
           ++ right. exists cell. tauto.
Qed.

Lemma get_existing_titles_fold :
  forall (read_columns : pystr -> option (list pystr * list pystr)) tabs titles,
  let result :=
    fold_left (fun titles tab_name =>
                 match read_columns tab_name with
                 | Some (column_1, column_2) =>
                     SheetsService.add_titles (tl column_2)
                       (SheetsService.add_titles (tl column_1) titles)
                 | None => titles
                 end) tabs titles in
  (NoDup titles -> NoDup result) /\
  forall t, In t result <->
    In t titles \/
    exists tab_name column_1 column_2 cell,
      In tab_name tabs /\ read_columns tab_name = Some (column_1, column_2) /\
      (In cell (tl column_1) \/ In cell (tl column_2)) /\
      t = strip cell /\ t <> [].
Proof.
  intros read_columns. induction tabs as [|tab_name tabs IH]; intro titles;
    cbn [fold_left].
  - split; [tauto|]. intro t. split; [tauto|].
    intros [H | (tn & c1 & c2 & cell & [] & _)]. exact H.
  - destruct (read_columns tab_name) as [[c1 c2]|] eqn:Hread.
    + destruct (IH (SheetsService.add_titles (tl c2)
                      (SheetsService.add_titles (tl c1) titles))) as [Hnd Hin].
      destruct (add_titles_spec (tl c1) titles) as [Hnd1 Hin1].
      destruct (add_titles_spec (tl c2) (SheetsService.add_titles (tl c1) titles))
        as [Hnd2 Hin2].
      split; [intro H; apply Hnd, Hnd2, Hnd1, H|].
      intro t. cbv zeta in Hin. rewrite Hin, Hin2, Hin1. split.
      * intros [[[H | (cell & Hc & Ht)] | (cell & Hc & Ht)]
               | (tn & d1 & d2 & cell & Htn & Hrest)].
        -- left. assumption.
        -- right. exists tab_name, c1, c2, cell. simpl. tauto.
        -- right. exists tab_name, c1, c2, cell. simpl. tauto.
        -- right. exists tn, d1, d2, cell. simpl. tauto.
      * intros [H | (tn & d1 & d2 & cell & [<- | Htn] & Hr & Hc & Ht)].
        -- left. left. left. assumption.
        -- rewrite Hread in Hr. injection Hr as <- <-.
           destruct Hc as [Hc | Hc].
           ++ left. left. right. exists cell. tauto.
           ++ left. right. exists cell. tauto.
        -- right. exists tn, d1, d2, cell. tauto.
    + destruct (IH titles) as [Hnd Hin]. split; [assumption|].
      intro t. cbv zeta in Hin. rewrite Hin. split.
      * intros [H | (tn & d1 & d2 & cell & Htn & Hrest)]; [left; assumption|].
        right. exists tn, d1, d2, cell. simpl. tauto.
      * intros [H | (tn & d1 & d2 & cell & [<- | Htn] & Hr & Hrest)];
          [left; assumption | congruence |].
        right. exists tn, d1, d2, cell. tauto.
Qed.

(** X22: the known titles are exactly the cells of the first two columns
    of the tabs that could be read, below the header row, that are not
    blank, each stripped; no title is listed twice. *)
Theorem get_existing_titles_spec :
  forall (read_columns : pystr -> option (list pystr * list pystr)),
    NoDup (SheetsService.get_existing_titles read_columns) /\
    forall t,
      In t (SheetsService.get_existing_titles read_columns) <->
      exists tab_name column_1 column_2 cell,
        In tab_name TAB_MAPPING /\
        read_columns tab_name = Some (column_1, column_2) /\
        (In cell (tl column_1) \/ In cell (tl column_2)) /\
        t = strip cell /\ t <> [].
Proof.
  intro read_columns.
  destruct (get_existing_titles_fold read_columns TAB_MAPPING []) as [Hnd Hin].
  split; [apply Hnd; constructor|].
  intro t. unfold SheetsService.get_existing_titles. cbv zeta in Hin.
  rewrite Hin. split; [intros [[] | H]; exact H | intro H; right; exact H].
Qed.

(** ** The first loop of [main]: what ends the run *)

Lemma truthy_not_zero : forall v, truthy v = true -> equals_zero v = false.
Proof.
  intros [|b|z|s] H; simpl in *; try reflexivity.
  - rewrite H. reflexivity.
  - apply negb_true_iff. exact H.
Qed.

Lemma main_process_book_raises : forall st raw_book requests append_ok,
  dict_get raw_book (str "Titre_VO") = None \/
  dict_get raw_book (str "Annee_VO") = None \/
  (exists analysis,
     GeminiService.categorize_book raw_book requests = Some (Some analysis) /\
     dict_is_empty analysis = false /\
     truthy (dict_get_or analysis (str "Is_Duplicate_or_Ignore") (VBool true)) = false /\
     truthy (dict_get_or analysis (str "Annee_FR") (VInt 0)) = true /\
     forall s, dict_get_or analysis (str "Titre_VF") (VStr []) <> VStr s) ->
  main_process_book st (raw_book, requests, append_ok) = None.
Proof.
  intros st raw requests ok [H | [H | (analysis & Hcat & Hne & Hflag & Hyear & Hvf)]];
    unfold main_process_book.
  - unfold GeminiService.categorize_book. rewrite H. reflexivity.
  - unfold GeminiService.categorize_book. rewrite H.
    destruct (dict_get raw (str "Titre_VO")); reflexivity.
  - rewrite Hcat, Hne, Hflag, Hyear, (truthy_not_zero _ Hyear). cbn [negb orb].
    destruct (dict_get_or analysis (str "Titre_VF") (VStr [])) as [| | |s];
      try reflexivity.
    exfalso. apply (Hvf s). reflexivity.
Qed.

Lemma merge_out_source : forall h sources existing_titles h' out r,
  BookMerger.merge h sources existing_titles = Some (h', out) ->
  In r out -> In r (concat sources).
Proof.
  intros h sources et h' out r Hmerge Hr.
  destruct (merge_returns h sources et h' out Hmerge) as (titles & ab & _ & -> & Hinv).
  apply in_map_iff in Hr. destruct Hr as ([k r'] & Heq & Hin). simpl in Heq. subst r'.
  destruct Hinv as (_ & _ & _ & Hkeys & _). apply (Hkeys k r Hin).
Qed.

Lemma flat_map_nil : forall (A B : Type) (f : A -> list B) l,
  (forall x, In x l -> f x = []) -> flat_map f l = [].
Proof.
  intros A B f. induction l as [|x l IH]; intro H; [reflexivity|]. cbn [flat_map].
  rewrite (H x) by (left; reflexivity). apply IH. intros y Hy. apply H. right.
  exact Hy.
Qed.

(** X23: nothing in the first loop of [main] catches an exception, so one
    record ends the run: the loop raises, and handles no record after it,
    as soon as it meets a record without title or without year (the
    [KeyError] comes before any request is made), or a record whose
    analysis passes the tests on the flag and on the French year while
    what stands for the French title is not a string (the [AttributeError]
    of [lower]).  The merge supplies no year: a record it returns for a
    key none of whose records has a year is such a record. *)
Theorem main_books_raises :
  (forall (before after : list book_input) (raw_book : dict)
          (requests : nat -> GeminiService.outcome dict) (append_ok : bool)
          (st st1 : main_state),
     main_books before st = Some st1 ->
     dict_get raw_book (str "Titre_VO") = None \/
     dict_get raw_book (str "Annee_VO") = None \/
     (exists analysis,
        GeminiService.categorize_book raw_book requests = Some (Some analysis) /\
        dict_is_empty analysis = false /\
        truthy (dict_get_or analysis (str "Is_Duplicate_or_Ignore") (VBool true))
        = false /\
        truthy (dict_get_or analysis (str "Annee_FR") (VInt 0)) = true /\
        forall s, dict_get_or analysis (str "Titre_VF") (VStr []) <> VStr s) ->
     main_books (before ++ (raw_book, requests, append_ok) :: after) st = None) /\
  (forall h sources existing_titles h' out r k d
          (before after : list book_input)
          (requests : nat -> GeminiService.outcome dict) (append_ok : bool)
          (st st1 : main_state),
     dicts_well_formed h ->
     BookMerger.merge h sources existing_titles = Some (h', out) ->
     In r out -> key_of h r = Some k -> nth_error h' r = Some (ODict d) ->
     (forall b, In b (concat sources) -> key_of h b = Some k ->
                field_of h (str "Annee_VO") b = []) ->
     main_books before st = Some st1 ->
     main_books (before ++ (d, requests, append_ok) :: after) st = None).
Proof.
  assert (forall (before after : list book_input) raw requests ok st st1,
            main_books before st = Some st1 ->
            main_process_book st1 (raw, requests, ok) = None ->
            main_books (before ++ (raw, requests, ok) :: after) st = None) as Hstop.
  { intros before after raw requests ok st st1 Hbefore Hraise.
    unfold main_books in *. rewrite fold_m_app, Hbefore. cbn [fold_m].
    rewrite Hraise. reflexivity. }
  split.
  - intros before after raw requests ok st st1 Hbefore Hraise.
    apply (Hstop before after raw requests ok st st1 Hbefore).
    apply main_process_book_raises, Hraise.
  - intros h sources et h' out r k d before after requests ok st st1
           Hwf Hmerge Hr Hk Hd Hyear Hbefore.
    apply (Hstop before after d requests ok st st1 Hbefore).
    apply main_process_book_raises. right. left.
    destruct (merge_final_fields h sources et h' out Hwf Hmerge) as [_ Hfields].
    destruct (Hfields r k d (str "Annee_VO") Hr Hk Hd) as [Hfirst _].
    rewrite Hfirst by discriminate. unfold contributed.
    rewrite (Hyear r (merge_out_source h sources et h' out r Hmerge Hr) Hk).
    rewrite flat_map_nil; [reflexivity|].
    intros b Hb. apply filter_In in Hb. destruct Hb as [Hb Hcond].
    apply andb_true_iff in Hcond. destruct Hcond as [_ Hkey].
    apply (Hyear b Hb). apply has_key_true. exact Hkey.
Qed.

Lemma main_books_raises_witness :
  main_books ([it_input] ++ (institute_record,
                             (fun _ => GeminiService.Reply it_reply), true)
                         :: [it_input])
             (main_init [str "Carrie"]) = None.
Proof.
  apply (proj2 main_books_raises
           [ODict institute_record] [[0]] None [ODict institute_record] [0]
           0 (str "institute") institute_record [it_input] [it_input]
           (fun _ => GeminiService.Reply it_reply) true
           (main_init [str "Carrie"])
           (mk_main_state [str "Carrie"; str "It"; str "Ca"]
                          [str "carrie"; str "it"; str "ca"] [it_book])).
  - intros r d Hr. destruct r as [|r]; simpl in Hr; [|destruct r; discriminate Hr].
    injection Hr as <-. repeat constructor; simpl; intuition discriminate.
  - vm_compute. reflexivity.
  - left. reflexivity.
  - vm_compute. reflexivity.
  - reflexivity.
  - intros b [<- | []] _. reflexivity.
  - vm_compute. reflexivity.
Defined.

(** ** Titles that carry no annotation *)

Lemma re_sub_needs_char : forall c r repl s,
  needs_char c r -> ~ In c s -> re_sub r repl s = s.
Proof.
  intros c r repl s Hr. induction s as [|x s IH]; intro Hs; [reflexivity|].
  rewrite re_sub_cons. rewrite (needs_char_quiet c r (x :: s) Hr Hs).
  f_equal. apply IH. intro Hin. apply Hs. right. assumption.
Qed.

Lemma lower_char_paren : forall c, lower_char c = "("%char -> c = "("%char.
Proof. intro c. ascii_cases c. Qed.

Lemma needs_paren_lit_ci : forall l,
  needs_char "(" (lit_by (fun a c => Ascii.eqb a (lower_char c)) ("("%char :: l)).
Proof.
  intros l s rest H. cbn [lit_by] in H. destruct s as [|c s]; [contradiction|].
  destruct (Ascii.eqb_spec "(" (lower_char c)) as [E|_]; [|contradiction].
  left. apply lower_char_paren. symmetry. assumption.
Qed.

(** X24: a title with no square bracket and no parenthesis carries no
    annotation to remove: cleaning it only strips it.  And a cleaned title
    has nothing left to strip. *)
Theorem _clean_title_plain : forall title : pystr,
  (~ In "["%char title -> ~ In "("%char title ->
   WikipediaService._clean_title title = strip title) /\
  strip (WikipediaService._clean_title title) = WikipediaService._clean_title title.
Proof.
  intro title. split; [|apply strip_idem].
  intros Hb Hp. unfold WikipediaService._clean_title.
  rewrite (re_sub_needs_char "[" _ [] title); [|apply needs_char_cat_l,
                                                 needs_char_lit; left; reflexivity
                                               |assumption].
  rewrite (re_sub_needs_char "(" _ [] title);
    [|apply needs_char_cat_r; [apply suffixing_star | apply needs_paren_lit_ci]
     |assumption].
  rewrite (re_sub_needs_char "(" _ [] title);
    [|apply needs_char_cat_r; [apply suffixing_star | apply needs_paren_lit_ci]
     |assumption].
  rewrite (re_sub_needs_char "(" _ [] title);
    [|apply needs_char_cat_r; [apply suffixing_star | apply needs_paren_lit_ci]
     |assumption].
  reflexivity.
Qed.

Lemma _clean_title_plain_witness :
  WikipediaService._clean_title (str " The Stand ") = strip (str " The Stand ").
Proof.
  apply (proj1 (_clean_title_plain (str " The Stand "))).
  - simpl. intuition discriminate.
  - simpl. intuition discriminate.
Defined.

(** X25: for the entries of [get_incomplete_rows] the completion always
    asks the language model: the early return of [complete_book_info] for
    an entry with nothing missing is never taken, and what it returns is
    what the call with retries returns. *)
Theorem complete_book_info_asks :
  forall (read : pystr -> option (list (list pystr))) (e : SheetsService.row_data)
         (requests : nat -> GeminiService.outcome dict),
    In e (SheetsService.get_incomplete_rows read) ->
    complete_book_info e requests = fst (GeminiService._call_with_retry requests).
Proof.
  intros read e requests Hin.
  destruct (get_incomplete_rows_spec read e Hin) as (_ & _ & rows & cells & _ & _ & He).
  destruct (incomplete_row_spec _ _ _ _ He) as (_ & _ & _ & _ & _ & _ & _ & _ & Hm & _).
  unfold complete_book_info. destruct (SheetsService.missing e); [congruence|].
  reflexivity.
Qed.

Lemma complete_book_info_asks_witness :
  complete_book_info it_row_data (fun _ => GeminiService.Reply it_completion)
  = fst (GeminiService._call_with_retry (fun _ => GeminiService.Reply it_completion)).
Proof.
  apply (complete_book_info_asks romans_only it_row_data).
  vm_compute. left. reflexivity.
Defined.
